(** * Larksuite <-> Moltbot bridge: a shallow embedding of [bridge.mjs]

    The bridge receives chat events over an HTTP webhook, forwards each
    one to the local agent gateway over a WebSocket and sends the reply
    back through the vendor SDK.  This development embeds the stateful
    core of [bridge.mjs] -- deduplication, session keys, the group filter,
    the gateway exchange, the message handler and the webhook handler --
    and proves the properties its specification states about them.

    Conventions.
    - A JavaScript string is the list of its UTF-16 code units ([list N]).
      Literals of the source are written [js "..."], which decodes the
      UTF-8 bytes of the Rocq literal into code units.
    - A JavaScript value that came out of [JSON.parse] is a [json];
      [undefined] is [None] of [option json].
    - What the program does to the outside world (frames sent, sockets
      closed, SDK calls) is recorded in an effect log carried by the state.
    - What the outside world answers (the clock, the file system, the
      SDK, the JSON parser) is an explicit argument. *)

From Stdlib Require Import ZArith NArith List String Ascii Bool Lia.
From Stdlib Require Import Floats.PrimFloat.
From stdpp Require Import base option list gmap.
Import ListNotations.

Set Warnings "-register-all".
Local Open Scope N_scope.

(* ================================================================== *)
(** ** JavaScript strings *)
(* ================================================================== *)

(** Code units of a code point (a surrogate pair above the BMP). *)
Definition utf16_of_codepoint (cp : N) : list N :=
  if cp <? 65536 then [cp]
  else [55296 + N.shiftr (cp - 65536) 10; 56320 + N.land (cp - 65536) 1023].

(** The six payload bits of a UTF-8 continuation byte. *)
Definition cont (a : ascii) : N := N.land (N_of_ascii a) 63.

(** [js lit]: the JavaScript string written [lit] in the source file. *)
Fixpoint js (s : string) : list N :=
  match s with
  | EmptyString => []
  | String a r =>
    let b := N_of_ascii a in
    if b <? 128 then b :: js r
    else if b <? 224 then
      match r with
      | String a1 r1 => (N.shiftl (N.land b 31) 6 + cont a1) :: js r1
      | _ => [b]
      end
    else if b <? 240 then
      match r with
      | String a1 (String a2 r2) =>
        (N.shiftl (N.land b 15) 12 + N.shiftl (cont a1) 6 + cont a2) :: js r2
      | _ => [b]
      end
    else
      match r with
      | String a1 (String a2 (String a3 r3)) =>
        utf16_of_codepoint
          (N.shiftl (N.land b 7) 18 + N.shiftl (cont a1) 12
           + N.shiftl (cont a2) 6 + cont a3) ++ js r3
      | _ => [b]
      end
  end.

Fixpoint dropWhile {A} (p : A -> bool) (l : list A) : list A :=
  match l with
  | [] => []
  | x :: r => if p x then dropWhile p r else l
  end.

(** ECMAScript WhiteSpace and LineTerminator: what [trim] removes and
    what [\s] matches. *)
Definition isWhiteSpace (c : N) : bool :=
  ((9 <=? c) && (c <=? 13)) || (c =? 32) || (c =? 160) || (c =? 5760)
  || ((8192 <=? c) && (c <=? 8202)) || (c =? 8232) || (c =? 8233)
  || (c =? 8239) || (c =? 8287) || (c =? 12288) || (c =? 65279).

Definition trimStart (s : list N) : list N := dropWhile isWhiteSpace s.
Definition trimEnd (s : list N) : list N := rev (dropWhile isWhiteSpace (rev s)).
(** [String.prototype.trim] *)
Definition trim (s : list N) : list N := trimEnd (trimStart s).

Definition isUpperAscii (c : N) : bool := (65 <=? c) && (c <=? 90).
Definition isLowerAscii (c : N) : bool := (97 <=? c) && (c <=? 122).
Definition isDigit (c : N) : bool := (48 <=? c) && (c <=? 57).

(** [String.prototype.toLowerCase], one code unit.  ASCII capitals go to
    their small letters.  Outside ASCII only two characters lower-case
    into ASCII: U+212A KELVIN SIGN (to [k]) and U+0130 (to [i] followed by
    U+0307).  Every other non-ASCII character lower-cases to non-ASCII
    characters; the readers of the lower-cased text are a regular
    expression over ASCII words and two comparisons with ASCII literals,
    which cannot tell those apart, so they are kept as they are. *)
Definition lowerUnit (c : N) : list N :=
  if isUpperAscii c then [c + 32]
  else if c =? 8490 then [107]
  else if c =? 304 then [105; 775]
  else [c].

Definition toLowerCase (s : list N) : list N := flat_map lowerUnit s.

(** The canonical form the case-insensitive flag [/i] compares (without
    the [u] flag): the upper-case code unit, where a non-ASCII unit is
    never mapped into ASCII.  Against the ASCII letters and the CJK
    characters this program's patterns consist of, that is ASCII
    upper-casing. *)
Definition canonicalize (c : N) : N := if isLowerAscii c then c - 32 else c.

(** [s.startsWith(p)] *)
Fixpoint startsWith (p s : list N) : bool :=
  match p, s with
  | [], _ => true
  | a :: p', b :: s' => (a =? b) && startsWith p' s'
  | _ :: _, [] => false
  end.

(** [s.includes(k)] *)
Fixpoint includes (k s : list N) : bool :=
  startsWith k s || match s with [] => false | _ :: r => includes k r end.

(** [s.endsWith(k)] *)
Definition endsWith (k s : list N) : bool := startsWith (rev k) (rev s).

(* ================================================================== *)
(** ** JSON values *)
(* ================================================================== *)

(** The result of [JSON.parse].  An object is the list of its own
    properties (each key once). *)
Inductive json :=
| JNull
| JBool (b : bool)
| JNum (x : float)
| JStr (s : list N)
| JArr (items : list json)
| JObj (fields : list (list N * json)).

Fixpoint assoc (k : list N) (fs : list (list N * json)) : option json :=
  match fs with
  | [] => None
  | (k', v) :: r => if bool_decide (k = k') then Some v else assoc k r
  end.

(** [v.k] for a [v] that is neither [null] nor [undefined].  None of the
    property names this program reads ([type], [event], [id], [ok], ...)
    is inherited by strings, numbers, booleans or arrays, so only objects
    answer. *)
Definition prop (k : string) (v : json) : option json :=
  match v with
  | JObj fs => assoc (js k) fs
  | _ => None
  end.

(** [v?.k]; also [v.k] where the source has already checked [v]. *)
Definition oprop (k : string) (v : option json) : option json :=
  match v with
  | Some j => prop k j
  | None => None
  end.

(** ToBoolean *)
Definition truthy (v : option json) : bool :=
  match v with
  | None | Some JNull => false
  | Some (JBool b) => b
  | Some (JNum x) => negb (PrimFloat.eqb x 0%float) && PrimFloat.eqb x x
  | Some (JStr s) => negb (bool_decide (s = []))
  | Some (JArr _) | Some (JObj _) => true
  end.

(** [a === b].  Arrays and objects are compared by identity, and two
    values parsed from different frames are never the same object. *)
Definition strictEq (a b : option json) : bool :=
  match a, b with
  | None, None => true
  | Some JNull, Some JNull => true
  | Some (JBool x), Some (JBool y) => Bool.eqb x y
  | Some (JNum x), Some (JNum y) => PrimFloat.eqb x y
  | Some (JStr x), Some (JStr y) => bool_decide (x = y)
  | _, _ => false
  end.

(** [v === "lit"] *)
Definition isStr (v : option json) (lit : string) : bool :=
  strictEq v (Some (JStr (js lit))).

(** [a || b] where [b] is a literal *)
Definition orElse (a : option json) (b : json) : json :=
  match a with
  | Some j => if truthy a then j else b
  | None => b
  end.

(* ================================================================== *)
(** ** The gateway exchange: [askMoltbot] *)
(* ================================================================== *)

(** What [askMoltbot] is called with. *)
Record askArgs := {
  ask_text : list N;
  ask_sessionKey : list N;
  ask_mediaPath : option (list N)
}.

(** What the exchange reads from outside the handler: the gateway token
    of the configuration, the [uuid()] drawn for the idempotency key,
    and the outcome of copying the inbound image into the agent
    workspace ([None]: a file-system call threw; [Some (path, nonEmpty)]:
    the copy is at [path] and [nonEmpty] tells whether its size is
    positive). *)
Record gatewayEnv := {
  GATEWAY_TOKEN : list N;
  uuid : list N;
  copyToWorkspace : list N -> option (list N * bool)
}.

Inductive failure :=
| TransportError (e : list N)      (* the socket's error, as [e?.message || String(e)] *)
| GatewayError (message : json).   (* the argument of [new Error(...)] *)

(** How the promise of [askMoltbot] settles. *)
Inductive outcome :=
| Resolved (text : list N) (media : json)
| Rejected (f : failure).

Inductive wsEffect :=
| Send (frame : json)   (* ws.send(JSON.stringify(frame)) *)
| Close.                (* ws.close() *)

(** The variables the handlers close over, the effects so far (oldest
    first) and the state of the promise. *)
Record exchange := {
  runId : option json;
  buf : list N;
  mediaUrls : json;
  wsLog : list wsEffect;
  settled : option outcome
}.

(** What the socket delivers: a "message" event, given as the result of
    [JSON.parse(raw.toString())] ([None] when the parse throws), or an
    "error" event. *)
Inductive wsEvent :=
| OnMessage (parsed : option json)
| OnError (e : list N).

Definition newExchange : exchange :=
  {| runId := None; buf := []; mediaUrls := JArr []; wsLog := []; settled := None |}.

Definition emit (e : wsEffect) (s : exchange) : exchange :=
  {| runId := runId s; buf := buf s; mediaUrls := mediaUrls s;
     wsLog := wsLog s ++ [e]; settled := settled s |}.

(** [close()] *)
Definition close (s : exchange) : exchange := emit Close s.

(** [resolve(...)] and [reject(...)]: a promise settles once, later calls
    change nothing. *)
Definition settle (o : outcome) (s : exchange) : exchange :=
  {| runId := runId s; buf := buf s; mediaUrls := mediaUrls s; wsLog := wsLog s;
     settled := match settled s with None => Some o | Some o' => Some o' end |}.

Definition setRunId (r : json) (s : exchange) : exchange :=
  {| runId := Some r; buf := buf s; mediaUrls := mediaUrls s;
     wsLog := wsLog s; settled := settled s |}.

Definition setBuf (b : list N) (s : exchange) : exchange :=
  {| runId := runId s; buf := b; mediaUrls := mediaUrls s;
     wsLog := wsLog s; settled := settled s |}.

Definition setMediaUrls (m : json) (s : exchange) : exchange :=
  {| runId := runId s; buf := buf s; mediaUrls := m;
     wsLog := wsLog s; settled := settled s |}.

Definition isClose (e : wsEffect) : bool :=
  match e with Close => true | Send _ => false end.

(** How many times [ws.close()] has been called. *)
Definition closeCount (s : exchange) : nat :=
  length (List.filter isClose (wsLog s)).

(** The [connect] request sent in answer to the challenge. *)
Definition connectRequest (env : gatewayEnv) : json :=
  JObj [ (js "type", JStr (js "req"));
         (js "id", JStr (js "connect"));
         (js "method", JStr (js "connect"));
         (js "params", JObj [
            (js "minProtocol", JNum 3%float);
            (js "maxProtocol", JNum 3%float);
            (js "client", JObj [ (js "id", JStr (js "gateway-client"));
                                 (js "version", JStr (js "0.2.0"));
                                 (js "platform", JStr (js "macos"));
                                 (js "mode", JStr (js "backend")) ]);
            (js "role", JStr (js "operator"));
            (js "scopes", JArr [JStr (js "operator.read"); JStr (js "operator.write")]);
            (js "auth", JObj [ (js "token", JStr (GATEWAY_TOKEN env)) ]);
            (js "locale", JStr (js "en-US"));
            (js "userAgent", JStr (js "larksuite-moltbot-bridge")) ]) ].

(** [params.message]: the text, with a note pointing the agent at the
    copy of the inbound image when there is one. *)
Definition chatMessage (env : gatewayEnv) (a : askArgs) : list N :=
  match ask_mediaPath a with
  | Some (c :: p) =>
    match copyToWorkspace env (c :: p) with
    | None => ask_text a
    | Some (workspacePath, nonEmpty) =>
      let m := if nonEmpty
               then ask_text a
                    ++ js (String "010" (String "010" "[用戶傳送了一張圖片，請用 image tool 讀取: "))
                    ++ workspacePath ++ js "]"
               else ask_text a in
      match m with [] => js "(image)" | _ => m end
    end
  | _ => ask_text a
  end.

(** The [chat.send] request sent once [connect] has succeeded. *)
Definition chatSendRequest (env : gatewayEnv) (a : askArgs) : json :=
  JObj [ (js "type", JStr (js "req"));
         (js "id", JStr (js "chat-send"));
         (js "method", JStr (js "chat.send"));
         (js "params", JObj [ (js "message", JStr (chatMessage env a));
                              (js "sessionKey", JStr (ask_sessionKey a));
                              (js "deliver", JBool false);
                              (js "idempotencyKey", JStr (uuid env)) ]) ].

(** The ["assistant"] branch of the stream. *)
Definition onAssistant (p : option json) (s : exchange) : exchange :=
  let d := orElse (oprop "data" p) (JObj []) in
  let s1 := match prop "text" d with
            | Some (JStr t) => setBuf t s
            | _ => match prop "delta" d with
                   | Some (JStr dl) => setBuf (buf s ++ dl) s
                   | _ => s
                   end
            end in
  match prop "mediaUrls" d with
  | Some m => if truthy (Some m) then setMediaUrls m s1 else s1
  | None => s1
  end.

(** The ["lifecycle"] branch of the stream: two [if]s in a row. *)
Definition onLifecycle (p : option json) (s : exchange) : exchange :=
  let phase := oprop "phase" (oprop "data" p) in
  let s1 := if isStr phase "end"
            then settle (Resolved (trim (buf s)) (mediaUrls s)) (close s)
            else s in
  if isStr phase "error"
  then settle (Rejected (GatewayError
                 (orElse (oprop "message" (oprop "data" p)) (JStr (js "agent error")))))
              (close s1)
  else s1.

(** The listener of the socket's "message" event.  [None]: the listener
    throws (reading [msg.type] of [null]). *)
Definition onMessage (env : gatewayEnv) (a : askArgs) (s : exchange)
    (parsed : option json) : option exchange :=
  match parsed with
  | None => Some s
  | Some JNull => None
  | Some msg =>
    if isStr (prop "type" msg) "event" && isStr (prop "event" msg) "connect.challenge"
    then Some (emit (Send (connectRequest env)) s)
    else if isStr (prop "type" msg) "res" && isStr (prop "id" msg) "connect"
    then
      if negb (truthy (prop "ok" msg))
      then Some (settle (Rejected (GatewayError
                   (orElse (oprop "message" (prop "error" msg)) (JStr (js "connect failed")))))
                   (close s))
      else Some (emit (Send (chatSendRequest env a)) s)
    else if isStr (prop "type" msg) "res" && isStr (prop "id" msg) "chat-send"
    then
      if negb (truthy (prop "ok" msg))
      then Some (settle (Rejected (GatewayError
                   (orElse (oprop "message" (prop "error" msg)) (JStr (js "chat.send failed")))))
                   (close s))
      else match oprop "runId" (prop "payload" msg) with
           | Some r => if truthy (Some r) then Some (setRunId r s) else Some s
           | None => Some s
           end
    else if isStr (prop "type" msg) "event"
            && (isStr (prop "event" msg) "agent" || isStr (prop "event" msg) "chat")
    then
      let p := prop "payload" msg in
      if negb (truthy p)
         || (truthy (runId s) && negb (strictEq (oprop "runId" p) (runId s)))
      then Some s
      else if isStr (oprop "stream" p) "assistant" then Some (onAssistant p s)
      else if isStr (oprop "stream" p) "lifecycle" then Some (onLifecycle p s)
      else Some s
    else Some s
  end.

(** The listener of the socket's "error" event. *)
Definition onError (s : exchange) (e : list N) : exchange :=
  settle (Rejected (TransportError e)) (close s).

Definition wsStep (env : gatewayEnv) (a : askArgs) (s : exchange) (ev : wsEvent)
    : option exchange :=
  match ev with
  | OnMessage parsed => onMessage env a s parsed
  | OnError e => Some (onError s e)
  end.

(** The exchange fed a sequence of socket events, from a given state. *)
Fixpoint wsRun (env : gatewayEnv) (a : askArgs) (s : exchange) (evs : list wsEvent)
    : option exchange :=
  match evs with
  | [] => Some s
  | ev :: rest =>
    match wsStep env a s ev with
    | Some s' => wsRun env a s' rest
    | None => None
    end
  end.

(** [askMoltbot(args)] against a gateway that delivers [evs]. *)
Definition askMoltbot (env : gatewayEnv) (a : askArgs) (evs : list wsEvent)
    : option exchange :=
  wsRun env a newExchange evs.

(* ================================================================== *)
(** ** Deduplication: [seen] and [isDuplicate] *)
(* ================================================================== *)

Local Open Scope Z_scope.

(** [SEEN_TTL_MS = 10 * 60 * 1000] *)
Definition SEEN_TTL_MS : Z := 10 * 60 * 1000.

(** The loop over [seen] that deletes every entry with
    [now - ts > SEEN_TTL_MS]. *)
Definition purge (now : Z) (seen : gmap (list N) Z) : gmap (list N) Z :=
  filter (fun kv => ¬ (now - kv.2 > SEEN_TTL_MS)) seen.

(** [isDuplicate(messageId)] at clock reading [now]: the answer and the
    map afterwards.  [None] is a missing id; a message id of the platform
    is a string. *)
Definition isDuplicate (now : Z) (messageId : option (list N))
    (seen : gmap (list N) Z) : bool * gmap (list N) Z :=
  let seen1 := purge now seen in
  match messageId with
  | None | Some [] => (false, seen1)
  | Some id =>
    match seen1 !! id with
    | Some _ => (true, seen1)
    | None => (false, <[id := now]> seen1)
    end
  end.

(** A run of calls, each with its clock reading, threading the map. *)
Fixpoint dedupRun (seen : gmap (list N) Z) (calls : list (Z * option (list N)))
    : gmap (list N) Z :=
  match calls with
  | [] => seen
  | (now, id) :: rest => dedupRun (isDuplicate now id seen).2 rest
  end.

(* ================================================================== *)
(** ** Session keys: [sessionOverrides] *)
(* ================================================================== *)

Local Open Scope N_scope.

(** The digit characters of radix 36: [0-9] then [a-z]. *)
Definition digit36 (d : N) : N := if d <? 10 then 48 + d else 87 + d.

(** The digits of [n], least significant first, each put in front of
    [acc]; the last one put there is the most significant. *)
Fixpoint digits36 (fuel : nat) (n : N) (acc : list N) : list N :=
  match fuel with
  | O => acc
  | S f =>
    let acc' := digit36 (n mod 36) :: acc in
    if n / 36 =? 0 then acc' else digits36 f (n / 36) acc'
  end.

(** The digits of a positive [n], most significant first.  A number has
    no more digits in radix 36 than in radix 2, which bounds the
    recursion. *)
Definition toDigits36 (n : N) : list N :=
  digits36 (S (N.to_nat (N.log2 n))) n [].

(** [n.toString(36)] for an integer [n] (a reading of [Date.now()]). *)
Definition toString36 (n : Z) : list N :=
  match n with
  | Z0 => js "0"
  | Zpos p => toDigits36 (Npos p)
  | Zneg p => js "-" ++ toDigits36 (Npos p)
  end.

(** The [/reset] command's update:
    [sessionOverrides.set(chatId, Date.now().toString(36))]. *)
Definition applyReset (now : Z) (chatId : list N)
    (overrides : gmap (list N) (list N)) : gmap (list N) (list N) :=
  <[chatId := toString36 now]> overrides.

(** [`larksuite:${chatId}`] *)
Definition baseKey (chatId : list N) : list N := js "larksuite:" ++ chatId.

(** [suffix ? `larksuite:${chatId}:${suffix}` : `larksuite:${chatId}`]
    for [suffix = sessionOverrides.get(chatId)]. *)
Definition resolveKey (chatId : list N) (overrides : gmap (list N) (list N)) : list N :=
  match overrides !! chatId with
  | Some (c :: suffix) => baseKey chatId ++ js ":" ++ (c :: suffix)
  | _ => baseKey chatId
  end.

(** Histories of the session map: resets (with the clock reading each one
    took) and key resolutions, for any conversations. *)
Inductive sessionOp :=
| OpReset (chatId : list N) (now : Z)
| OpResolve (chatId : list N).

(** The map after a history, and the keys the history produced (with the
    conversation each was produced for). *)
Fixpoint sessionRun (overrides : gmap (list N) (list N)) (ops : list sessionOp)
    : gmap (list N) (list N) * list (list N * list N) :=
  match ops with
  | [] => (overrides, [])
  | OpReset c now :: rest => sessionRun (applyReset now c overrides) rest
  | OpResolve c :: rest =>
    let r := sessionRun overrides rest in
    (r.1, (c, resolveKey c overrides) :: r.2)
  end.

(* ================================================================== *)
(** ** Group chat intelligence: [shouldRespondInGroup] *)
(* ================================================================== *)

(** [\w] *)
Definition isWordChar (c : N) : bool :=
  isUpperAscii c || isLowerAscii c || isDigit c || (c =? 95).

Definition isWordCharOpt (c : option N) : bool :=
  match c with Some x => isWordChar x | None => false end.

(** [\b] between the unit before and the unit after ([None] at either
    end of the input). *)
Definition wordBoundary (prev next : option N) : bool :=
  xorb (isWordCharOpt prev) (isWordCharOpt next).

Definition questionWords : list (list N) :=
  map js ["why"; "how"; "what"; "when"; "where"; "who"; "help"]%string.

Definition verbs : list (list N) :=
  map js ["帮"; "麻烦"; "请"; "能否"; "可以"; "解释"; "看看"; "排查"; "分析";
          "总结"; "写"; "改"; "修"; "查"; "对比"; "翻译"]%string.

Definition addressTerms : list (list N) :=
  map js ["moltbot"; "bot"; "assistant"; "助手"; "智能体"; "小机"]%string.

(** [/[？?]$/.test(text)] *)
Definition testQuestionMark (text : list N) : bool :=
  match rev text with
  | c :: _ => (c =? 65311) || (c =? 63)
  | [] => false
  end.

(** [\b w \b] matched at the current position: [prev] is the unit before
    it, [s] the input from it on. *)
Definition matchWordHere (prev : option N) (s : list N) (w : list N) : bool :=
  wordBoundary prev (head s)
  && startsWith w s
  && wordBoundary (head (rev w)) (head (drop (length w) s)).

(** The search of [/\b(w1|w2|...)\b/] through the input, position by
    position. *)
Fixpoint searchWord (ws : list (list N)) (prev : option N) (s : list N) : bool :=
  existsb (matchWordHere prev s) ws
  || match s with
     | [] => false
     | c :: r => searchWord ws (Some c) r
     end.

(** [/\b(why|how|what|when|where|who|help)\b/.test(t)] *)
Definition testQuestionWord (t : list N) : bool := searchWord questionWords None t.

(** A literal of the pattern against the start of the input under [/i]. *)
Fixpoint startsWithCI (p s : list N) : bool :=
  match p, s with
  | [], _ => true
  | a :: p', b :: s' => (canonicalize a =? canonicalize b) && startsWithCI p' s'
  | _ :: _, [] => false
  end.

(** The class [[\s,:，：]] *)
Definition isAddressSep (c : N) : bool :=
  isWhiteSpace c || (c =? 44) || (c =? 58) || (c =? 65292) || (c =? 65306).

Definition matchAddress (text : list N) (a : list N) : bool :=
  startsWithCI a text
  && match drop (length a) text with
     | c :: _ => isAddressSep c
     | [] => false
     end.

(** [/^(moltbot|bot|assistant|助手|智能体|小机)[\s,:，：]/i.test(text)] *)
Definition testAddress (text : list N) : bool := existsb (matchAddress text) addressTerms.

Definition shouldRespondInGroup (text : list N) (mentions : list json) : bool :=
  if (0 <? length mentions)%nat then true
  else
    let t := toLowerCase text in
    if testQuestionMark text then true
    else if testQuestionWord t then true
    else if existsb (fun k => includes k text) verbs then true
    else if testAddress text then true
    else false.

(** *** What each test of the filter decides *)

Definition endsWithQuestionMark (text : list N) : Prop :=
  exists pre c, text = pre ++ [c] /\ (c = 63 \/ c = 65311).

(** [w] stands in [t] as a whole word: no word character touches it on
    either side. *)
Definition occursAsWord (w t : list N) : Prop :=
  exists pre post,
    t = pre ++ w ++ post
    /\ isWordCharOpt (head (rev pre)) = false
    /\ isWordCharOpt (head post) = false.

Definition containsQuestionWord (text : list N) : Prop :=
  exists w, In w questionWords /\ occursAsWord w (toLowerCase text).

Definition containsVerb (text : list N) : Prop :=
  exists v pre post, In v verbs /\ text = pre ++ v ++ post.

Definition beginsWithAddress (text : list N) : Prop :=
  exists a a' c rest,
    In a addressTerms
    /\ text = a' ++ c :: rest
    /\ map canonicalize a' = map canonicalize a
    /\ isAddressSep c = true.

(** *** The filter as the specification words it *)

(** The letter a unit stands for, whatever its case: a capital of the
    Latin alphabet stands for its small letter. *)
Definition foldCase (c : N) : N :=
  if (65 <=? c) && (c <=? 90) then c + 32 else c.

(** A letter, a digit or the underscore. *)
Definition wordUnit (c : N) : bool :=
  ((48 <=? c) && (c <=? 57)) || ((65 <=? c) && (c <=? 90)) || (c =? 95)
  || ((97 <=? c) && (c <=? 122)).

(** Punctuation marks: those of ASCII, and the CJK and full-width ones. *)
Definition isPunctuation (c : N) : bool :=
  ((33 <=? c) && (c <=? 47)) || ((58 <=? c) && (c <=? 64))
  || ((91 <=? c) && (c <=? 96)) || ((123 <=? c) && (c <=? 126))
  || ((12289 <=? c) && (c <=? 12290))
  || ((65281 <=? c) && (c <=? 65295)) || ((65306 <=? c) && (c <=? 65312)).

(** The three fixed sets. *)
Definition specQuestionWords : list (list N) :=
  [js "why"; js "how"; js "what"; js "when"; js "where"; js "who"; js "help"].

Definition specVerbs : list (list N) :=
  [js "帮"; js "麻烦"; js "请"; js "能否"; js "可以"; js "解释"; js "看看"; js "排查";
   js "分析"; js "总结"; js "写"; js "改"; js "修"; js "查"; js "对比"; js "翻译"].

Definition specAddressTerms : list (list N) :=
  [js "moltbot"; js "bot"; js "assistant"; js "助手"; js "智能体"; js "小机"].

(** [w] occurs in [text], in any mix of capitals and small letters. *)
Definition containsFolded (w text : list N) : Prop :=
  exists pre w' post, text = pre ++ w' ++ post /\ map foldCase w' = w.

(** The filter as the specification has it: a question word anywhere in
    the text, an address term followed by any punctuation mark or white
    space.  The specification does not say whether the case of an
    address term matters; it is read here as not mattering, which is the
    wider reading. *)
Definition shouldRespond_claimed (text : list N) (mentions : list json) : Prop :=
  mentions <> []
  \/ endsWithQuestionMark text
  \/ (exists w, In w specQuestionWords /\ containsFolded w text)
  \/ (exists v pre post, In v specVerbs /\ text = pre ++ v ++ post)
  \/ (exists a a' c rest,
        In a specAddressTerms /\ text = a' ++ c :: rest /\ map foldCase a' = a
        /\ (isWhiteSpace c = true \/ isPunctuation c = true)).

(** A unit that, standing before a word, makes it part of a longer one:
    a letter, a digit, the underscore, and U+212A KELVIN SIGN, which
    lower-cases to the letter [k]. *)
Definition joinsBefore (c : option N) : bool :=
  match c with
  | Some x => wordUnit x || (x =? 8490)
  | None => false
  end.

(** The same for a unit standing after a word: there U+0130 counts too,
    whose lower-case form begins with the letter [i]. *)
Definition joinsAfter (c : option N) : bool :=
  match c with
  | Some x => wordUnit x || (x =? 8490) || (x =? 304)
  | None => false
  end.

(** [w] stands in [text] as a word of its own, in any mix of capitals
    and small letters. *)
Definition standsAsWord (w text : list N) : Prop :=
  exists pre w' post,
    text = pre ++ w' ++ post /\ map foldCase w' = w
    /\ joinsBefore (head (rev pre)) = false
    /\ joinsAfter (head post) = false.

(** The filter as the code has it: a question word standing as a word
    of its own, an address term followed by white space, a comma or a
    colon (ASCII or full-width). *)
Definition shouldRespond_amended (text : list N) (mentions : list json) : Prop :=
  mentions <> []
  \/ endsWithQuestionMark text
  \/ (exists w, In w specQuestionWords /\ standsAsWord w text)
  \/ (exists v pre post, In v specVerbs /\ text = pre ++ v ++ post)
  \/ (exists a a' c rest,
        In a specAddressTerms /\ text = a' ++ c :: rest /\ map foldCase a' = a
        /\ (isWhiteSpace c = true \/ c = 44 \/ c = 58 \/ c = 65292 \/ c = 65306)).

(** A small letter of the Latin alphabet other than [i] and [k]: no
    character outside ASCII lower-cases to one of these. *)
Definition plainLetter (c : N) : bool :=
  (97 <=? c) && (c <=? 122) && negb (c =? 105) && negb (c =? 107).

(* ================================================================== *)
(** ** The message handler: [handleMessage] *)
(* ================================================================== *)

(** The [message] object of an [im.message.receive_v1] event, with the
    fields the handler reads, typed as the platform's event schema types
    them; [None] is a missing field.  [mentions] is kept as a value
    because the handler tests it with [Array.isArray]. *)
Record message := {
  chat_id : option (list N);
  message_id : option (list N);
  message_type : option (list N);
  content : option (list N);
  chat_type : option (list N);
  mentions : option json
}.

(** Calls on the vendor SDK that touch the conversation: the calls on
    [im.message].  The two other SDK calls of the program write to no
    conversation and are not listed here: [im.messageResource.get], by
    which [downloadImage] fetches an image of the inbound message, is
    part of the outcome [downloadImage] of the environment, and
    [im.image.create], by which [uploadImage] uploads a file, is part of
    the outcome [relayImage]. *)
Inductive sdkCall :=
| CreateText (chatId text : list N)          (* im.message.create, msg_type "text" *)
| PatchText (messageId text : list N)        (* im.message.patch *)
| DeleteMessage (messageId : list N)         (* im.message.delete *)
| CreateImage (chatId imageKey : list N).    (* im.message.create, msg_type "image" *)

(** How [downloadUrl] and [uploadImage] end for one outbound media URL:
    with the image key of the upload, with a failure (logged, the item
    skipped), or never (the download promise does not settle). *)
Inductive relayed :=
| Uploaded (imageKey : list N)
| RelayFailed
| RelayStalls.

(** What the handler reads from outside while it runs: the JSON parser
    ([None]: it throws), ToString of a value that is not a string, the
    outcome of [downloadImage] (the local path, or [None] for [null]),
    the two readings of [Date.now()] (in [isDuplicate] and in [/reset]),
    whether [THINKING_THRESHOLD_MS > 0], whether an SDK call throws, and
    how fetching and uploading an outbound media URL ends. *)
Record routerEnv := {
  JSON_parse : list N -> option json;
  toStringValue : json -> list N;
  downloadImage : option (list N) -> json -> option (list N);
  nowDedup : Z;
  nowReset : Z;
  thinkingEnabled : bool;
  sdkThrows : sdkCall -> bool;
  relayImage : json -> relayed
}.

(** The two maps the process owns. *)
Record bridge := {
  seen : gmap (list N) Z;
  sessionOverrides : gmap (list N) (list N)
}.

Definition nonEmpty (s : list N) : bool := match s with [] => false | _ :: _ => true end.

(** Truthiness of [mediaPath] (a path or [null]). *)
Definition hasMedia (p : option (list N)) : bool :=
  match p with Some s => nonEmpty s | None => false end.

Definition isLit (v : option (list N)) (lit : string) : bool :=
  match v with Some s => bool_decide (s = js lit) | None => false end.

(** ToString, as string concatenation and [join] apply it. *)
Definition strOf (env : routerEnv) (v : json) : list N :=
  match v with JStr s => s | _ => toStringValue env v end.

(** [xs.map(f).join(sep)] for an [f] that returns a text and pushes image
    keys, and may throw. *)
Definition joinWith {A} (sep : list N) (f : A -> option (list N * list json))
    : list A -> option (list N * list json) :=
  fix go (l : list A) :=
    match l with
    | [] => Some ([], [])
    | [x] => f x
    | x :: r =>
      match f x, go r with
      | Some (t, ks), Some (t', ks') => Some (t ++ sep ++ t', ks ++ ks')
      | _, _ => None
      end
    end.

(** The local function [extractText] of the rich-text branch: the text of
    a node and the image keys pushed to [postImageKeys] on the way;
    [None] when it throws ([node.content.map] of something that is not an
    array). *)
Fixpoint extractText (env : routerEnv) (node : json) {struct node}
    : option (list N * list json) :=
  match node with
  | JStr s => Some (s, [])
  | JArr items => joinWith [] (extractText env) items
  | JObj fs =>
    if isStr (assoc (js "tag") fs) "text"
    then Some (strOf env (orElse (assoc (js "text") fs) (JStr [])), [])
    else if isStr (assoc (js "tag") fs) "a"
    then Some (strOf env (orElse (assoc (js "text") fs)
                            (orElse (assoc (js "href") fs) (JStr []))), [])
    else if isStr (assoc (js "tag") fs) "at" then Some ([], [])
    else if isStr (assoc (js "tag") fs) "img"
    then Some (js "[圖片]",
               match assoc (js "image_key") fs with
               | Some k => if truthy (Some k) then [k] else []
               | None => []
               end)
    else
      (fix content (l : list (list N * json)) : option (list N * list json) :=
         match l with
         | [] => Some ([], [])
         | (k, v) :: r =>
           if bool_decide (js "content" = k)
           then
             match v with
             | JArr lines =>
               joinWith (js (String "010" ""))
                 (fun line => match line with
                              | JArr items => joinWith [] (extractText env) items
                              | _ => extractText env line
                              end) lines
             | _ => if truthy (Some v) then None else Some ([], [])
             end
           else content r
         end) fs
  | _ => Some ([], [])
  end.

(** The ["text"] branch: [(JSON.parse(message.content)?.text || "").trim()],
    and [""] when that throws. *)
Definition extractPlain (env : routerEnv) (c : list N) : list N :=
  match JSON_parse env c with
  | Some j =>
    match prop "text" j with
    | Some (JStr s) => trim s
    | _ => []
    end
  | None => []
  end.

(** The ["image"] branch. *)
Definition extractImage (env : routerEnv) (m : message) (c : list N)
    : list N * option (list N) :=
  match JSON_parse env c with
  | Some j =>
    match prop "image_key" j with
    | Some k => if truthy (Some k)
                then (js "[收到圖片]", downloadImage env (message_id m) k)
                else ([], None)
    | None => ([], None)
    end
  | None => ([], None)
  end.

(** The ["post"] branch: title and body, and the first image of the
    post. *)
Definition extractPost (env : routerEnv) (m : message) (c : list N)
    : list N * option (list N) :=
  match JSON_parse env c with
  | None | Some JNull => ([], None)
  | Some content =>
    let post := orElse (prop "zh_cn" content)
                  (orElse (prop "zh_tw" content)
                     (orElse (prop "en_us" content) content)) in
    let title := orElse (prop "title" post) (JStr []) in
    match orElse (prop "content" post) (JArr []) with
    | JArr lines =>
      match joinWith (js (String "010" ""))
              (fun line => match line with
                           | JArr items => joinWith [] (extractText env) items
                           | _ => Some ([], [])
                           end) lines with
      | Some (body, keys) =>
        let text := (if truthy (Some title)
                     then strOf env title ++ js (String "010" "")
                     else []) ++ body in
        (trim text,
         match keys with
         | k :: _ => downloadImage env (message_id m) k
         | [] => None
         end)
      | None => ([], None)
      end
    | _ => ([], None)
    end
  end.

(** Message kind to [(text, mediaPath)]; [None] for an unsupported kind,
    on which the handler returns. *)
Definition extractContent (env : routerEnv) (m : message)
    : option (list N * option (list N)) :=
  match content m with
  | Some (c :: cr) =>
    if isLit (message_type m) "text" then Some (extractPlain env (c :: cr), None)
    else if isLit (message_type m) "image" then Some (extractImage env m (c :: cr))
    else if isLit (message_type m) "post" then Some (extractPost env m (c :: cr))
    else None
  | _ => None
  end.

(** One attempt of [/@_user_\d+\s*/] at the start of [s]: what follows
    the match. *)
Definition matchMention (s : list N) : option (list N) :=
  if startsWith (js "@_user_") s
  then match drop 7 s with
       | d :: r => if isDigit d
                   then Some (dropWhile isWhiteSpace (dropWhile isDigit r))
                   else None
       | [] => None
       end
  else None.

Fixpoint stripMentionsFrom (fuel : nat) (s : list N) : list N :=
  match fuel, s with
  | _, [] => []
  | O, _ => s
  | S f, c :: r =>
    match matchMention s with
    | Some rest => stripMentionsFrom f rest
    | None => c :: stripMentionsFrom f r
    end
  end.

(** [text.replace(/@_user_\d+\s*/g, "")]: every match, left to right,
    removed.  Each step consumes a unit, so the length is fuel enough. *)
Definition stripMentions (s : list N) : list N := stripMentionsFrom (length s) s.

(** How the synchronous part of the handler ends: it returns, or it goes
    on to call [askMoltbot]. *)
Inductive routing :=
| Return
| CallGateway (chatId : list N) (a : askArgs).

(** Lines from the [/reset] test on: the two commands, then the session
    key and the call of the gateway. *)
Definition dispatch (env : routerEnv) (b : bridge) (m : message) (chatId : list N)
    (text : list N) (mediaPath : option (list N))
    : bridge * list sdkCall * routing :=
  if bool_decide (toLowerCase (trim text) = js "/reset")
  then ({| seen := seen b;
           sessionOverrides := applyReset (nowReset env) chatId (sessionOverrides b) |},
        [CreateText chatId (js "✅ Session 已重置，開始新對話。")],
        Return)
  else if bool_decide (toLowerCase (trim text) = js "/status")
  then (b,
        [CreateText chatId
           (js "📊 Session: " ++ resolveKey chatId (sessionOverrides b)
            ++ js (String "010" "Chat: ") ++ chatId
            ++ js (String "010" "Type: ")
            ++ match chat_type m with
               | Some (c :: t) => c :: t
               | _ => js "unknown"
               end)],
        Return)
  else (b, [],
        CallGateway chatId
                    {| ask_text := text;
                       ask_sessionKey := resolveKey chatId (sessionOverrides b);
                       ask_mediaPath := mediaPath |}).

(** [Array.isArray(message?.mentions) ? message.mentions : []] *)
Definition mentionList (m : message) : list json :=
  match mentions m with
  | Some (JArr l) => l
  | _ => []
  end.

(** The group block and what follows it. *)
Definition afterExtraction (env : routerEnv) (b : bridge) (m : message)
    (chatId : list N) (text : list N) (mediaPath : option (list N))
    : bridge * list sdkCall * routing :=
  if isLit (chat_type m) "group"
  then
    let text' := trim (stripMentions text) in
    if negb (nonEmpty text') && negb (hasMedia mediaPath) then (b, [], Return)
    else if negb (hasMedia mediaPath) && negb (shouldRespondInGroup text' (mentionList m))
    then (b, [], Return)
    else dispatch env b m chatId text' mediaPath
  else dispatch env b m chatId text mediaPath.

(** [handleMessage(data)] up to the call of [askMoltbot]: the maps
    afterwards, the SDK calls made, and how it ends. *)
Definition handleMessageRoute (env : routerEnv) (b : bridge) (msg : option message)
    : bridge * list sdkCall * routing :=
  match msg with
  | None => (b, [], Return)
  | Some m =>
    match chat_id m with
    | Some (c :: cr) =>
      let d := isDuplicate (nowDedup env) (message_id m) (seen b) in
      let b1 := {| seen := d.2; sessionOverrides := sessionOverrides b |} in
      if d.1 then (b1, [], Return)
      else
        match extractContent env m with
        | None => (b1, [], Return)
        | Some (text, mediaPath) =>
          if negb (nonEmpty text) && negb (hasMedia mediaPath) then (b1, [], Return)
          else afterExtraction env b1 m (c :: cr) text mediaPath
        end
    | _ => (b, [], Return)
    end
  end.

(** *** Waiting for the reply and delivering it *)

(** The handler from the call of [askMoltbot] on, as the event loop runs
    it: the timer callback and the continuation after [await] are
    separate turns, and the callback itself is two turns, before and
    after it awaits its own [create] call. *)
Record pending := {
  pd_chatId : list N;
  placeholderId : list N;
  done : bool;
  timerArmed : bool;       (* the timeout is set and has neither fired nor been cleared *)
  creating : bool;         (* the callback is waiting for its create call *)
  calls : list sdkCall     (* oldest first *)
}.

Inductive tick :=
| TimerFires                                (* the timeout expires *)
| PlaceholderReturns (id : option (list N)) (* the callback's create call returns
                                               ([res?.data?.message_id], [None] if it threw) *)
| ExchangeSettles (o : outcome).            (* the promise of [askMoltbot] settles *)

Definition startPending (env : routerEnv) (chatId : list N) : pending :=
  {| pd_chatId := chatId; placeholderId := []; done := false;
     timerArmed := thinkingEnabled env; creating := false; calls := [] |}.

(** [e?.message || String(e)] of a rejection.  The message of
    [new Error(m)] is ToString of [m]; when it is empty, [String(e)] is
    the name of the error. *)
Definition errorText (env : routerEnv) (f : failure) : list N :=
  match f with
  | TransportError e => e
  | GatewayError m =>
    match strOf env m with
    | [] => js "Error"
    | c :: s => c :: s
    end
  end.

(** [reply] after the [try]/[catch] around [askMoltbot]. *)
Definition replyOf (env : routerEnv) (o : outcome) : list N * json :=
  match o with
  | Resolved t m => (t, m)
  | Rejected f => (js "(System error) " ++ errorText env f, JArr [])
  end.

(** The code points of a string, each as a string. *)
Fixpoint codePoints (s : list N) : list (list N) :=
  match s with
  | [] => []
  | h :: r =>
    if (55296 <=? h) && (h <=? 56319)
    then match r with
         | l :: r' => if (56320 <=? l) && (l <=? 57343)
                      then [h; l] :: codePoints r'
                      else [h] :: codePoints r
         | [] => [[h]]
         end
    else [h] :: codePoints r
  end.

(** What [for (const url of reply.mediaUrls)] visits, under the guard
    [reply.mediaUrls && reply.mediaUrls.length > 0]. *)
Definition mediaItems (m : json) : list json :=
  match m with
  | JArr items => items
  | JStr s => map JStr (codePoints s)
  | _ => []
  end.

Fixpoint imageCallsFor (env : routerEnv) (chatId : list N) (urls : list json)
    : list sdkCall :=
  match urls with
  | [] => []
  | url :: rest =>
    match relayImage env url with
    | Uploaded key => CreateImage chatId key :: imageCallsFor env chatId rest
    | RelayFailed => imageCallsFor env chatId rest
    | RelayStalls => []
    end
  end.

(** The image messages of the reply, one after the other: one per URL
    that could be fetched and uploaded. *)
Definition imageCalls (env : routerEnv) (chatId : list N) (m : json) : list sdkCall :=
  imageCallsFor env chatId (mediaItems m).

Definition isNoReply (trimmed : list N) : bool :=
  negb (nonEmpty trimmed)
  || bool_decide (trimmed = js "NO_REPLY")
  || endsWith (js "NO_REPLY") trimmed.

(** The lines after the [finally]: delete the placeholder, or put the
    text into it (sending a fresh message when that fails or when there
    is none), then the images.  An SDK call that throws outside a
    [try] ends the handler in its outer [catch]. *)
Definition deliver (env : routerEnv) (chatId placeholder : list N) (o : outcome)
    : list sdkCall :=
  let trimmed := trim (replyOf env o).1 in
  if isNoReply trimmed
  then (if nonEmpty placeholder then [DeleteMessage placeholder] else [])
  else
    let fresh := CreateText chatId trimmed in
    let images := if sdkThrows env fresh then [] else imageCalls env chatId (replyOf env o).2 in
    if nonEmpty placeholder
    then
      if sdkThrows env (PatchText placeholder trimmed)
      then PatchText placeholder trimmed :: fresh :: images
      else PatchText placeholder trimmed :: imageCalls env chatId (replyOf env o).2
    else fresh :: images.

Definition pendingStep (env : routerEnv) (p : pending) (t : tick) : pending :=
  match t with
  | TimerFires =>
    if timerArmed p
    then
      if done p
      then {| pd_chatId := pd_chatId p; placeholderId := placeholderId p; done := done p;
              timerArmed := false; creating := creating p; calls := calls p |}
      else {| pd_chatId := pd_chatId p; placeholderId := placeholderId p; done := done p;
              timerArmed := false; creating := true;
              calls := calls p ++ [CreateText (pd_chatId p) (js "Thinking…")] |}
    else p
  | PlaceholderReturns id =>
    if creating p
    then {| pd_chatId := pd_chatId p;
            placeholderId := match id with Some i => i | None => placeholderId p end;
            done := done p; timerArmed := timerArmed p; creating := false;
            calls := calls p |}
    else p
  | ExchangeSettles o =>
    if done p then p
    else {| pd_chatId := pd_chatId p; placeholderId := placeholderId p; done := true;
            timerArmed := false; creating := creating p;
            calls := calls p ++ deliver env (pd_chatId p) (placeholderId p) o |}
  end.

Definition pendingRun (env : routerEnv) (p : pending) (ts : list tick) : pending :=
  fold_left (pendingStep env) ts p.

(** [handleMessage(data)] under a schedule of the turns that follow the
    call of the gateway (the outcome of the exchange arrives as one of
    them): the maps afterwards and every SDK call made. *)
Definition handleMessage (env : routerEnv) (b : bridge) (msg : option message)
    (ts : list tick) : bridge * list sdkCall :=
  match handleMessageRoute env b msg with
  | (b', cs, Return) => (b', cs)
  | (b', cs, CallGateway chatId _) =>
    (b', cs ++ calls (pendingRun env (startPending env chatId) ts))
  end.

(* ================================================================== *)
(** ** The webhook server *)
(* ================================================================== *)

Record request := {
  method : list N;
  url : list N;
  bodyText : list N
}.

(** The configuration and the library calls of the request handler:
    [JSON.parse] ([None]: it throws) and [decryptAES(ENCRYPT_KEY, data)]
    ([None]: it throws). *)
Record serverEnv := {
  APP_ID : list N;
  ENCRYPT_KEY : list N;
  VERIFICATION_TOKEN : list N;
  parseJSON : list N -> option json;
  decryptAES : list N -> json -> option (list N)
}.

Inductive responseBody :=
| BodyText (s : list N)
| BodyJSON (j : json).

(** The status and body written, and the event handed to
    [setImmediate(() => handleMessage(body.event))], if any. *)
Record served := {
  status : N;
  body : responseBody;
  dispatched : option json
}.

Definition respond (st : N) (b : responseBody) : served :=
  {| status := st; body := b; dispatched := None |}.

(** The part of the handler that follows parsing and decryption. *)
Definition serveBody (env : serverEnv) (b : json) : served :=
  if isStr (prop "type" b) "url_verification"
  then respond 200 (BodyJSON (JObj match prop "challenge" b with
                                  | Some ch => [(js "challenge", ch)]
                                  | None => []
                                  end))
  else if nonEmpty (VERIFICATION_TOKEN env)
          && truthy (prop "token" b)
          && negb (strictEq (prop "token" b) (Some (JStr (VERIFICATION_TOKEN env))))
  then respond 401 (BodyText (js "Invalid token"))
  else
    {| status := 200;
       body := BodyJSON (JObj [(js "ok", JBool true)]);
       dispatched :=
         if truthy (prop "event" b)
         then
           let eventType := if truthy (oprop "event_type" (prop "header" b))
                            then oprop "event_type" (prop "header" b)
                            else oprop "type" (prop "event" b) in
           if isStr eventType "im.message.receive_v1" then prop "event" b else None
         else None |}.

(** Reading the body: [JSON.parse], then decryption when the body has an
    [encrypt] field and a key is configured.  Either the body to serve or
    the error response. *)
Definition decodeBody (env : serverEnv) (text : list N) : json + served :=
  match parseJSON env text with
  | None => inr (respond 400 (BodyText (js "Invalid JSON")))
  | Some b0 =>
    if truthy (prop "encrypt" b0) && nonEmpty (ENCRYPT_KEY env)
    then
      match prop "encrypt" b0 with
      | Some enc =>
        match decryptAES env (ENCRYPT_KEY env) enc with
        | Some plain =>
          match parseJSON env plain with
          | Some b1 => inl b1
          | None => inr (respond 400 (BodyText (js "Decryption failed")))
          end
        | None => inr (respond 400 (BodyText (js "Decryption failed")))
        end
      | None => inl b0
      end
    else inl b0
  end.

(** The request handler of [http.createServer]. *)
Definition server (env : serverEnv) (req : request) : served :=
  if bool_decide (method req = js "GET") && bool_decide (url req = js "/health")
  then respond 200 (BodyJSON (JObj [(js "ok", JBool true); (js "appId", JStr (APP_ID env))]))
  else if negb (bool_decide (method req = js "POST"))
  then respond 405 (BodyText (js "Method Not Allowed"))
  else
    match decodeBody env (bodyText req) with
    | inl b => serveBody env b
    | inr r => r
    end.

(* ================================================================== *)
(** ** The vocabulary of the statements *)
(* ================================================================== *)

(** A frame the gateway sends, by the fields the handler looks at. *)
Definition frameIs (f : json) (type : string) (key : string) (name : string) : Prop :=
  prop "type" f = Some (JStr (js type)) /\ prop key f = Some (JStr (js name)).

Definition isChallenge (f : json) : Prop := frameIs f "event" "event" "connect.challenge".

Definition isResponse (f : json) (id : string) (ok : bool) : Prop :=
  frameIs f "res" "id" id /\ truthy (prop "ok" f) = ok.

(** An [agent] or [chat] event whose payload [p] carries the run id
    [r], the stream name and the data [d]. *)
Definition isStreamEvent (f : json) (r : list N) (stream : string) (d : json) : Prop :=
  (frameIs f "event" "event" "agent" \/ frameIs f "event" "event" "chat")
  /\ exists p, prop "payload" f = Some p
       /\ prop "runId" p = Some (JStr r)
       /\ prop "stream" p = Some (JStr (js stream))
       /\ prop "data" p = Some d.

(** The run-id filter lets a frame through when no run id is recorded or
    when the frame carries the recorded one. *)
Definition passesFilter (s : exchange) (p : json) : Prop :=
  truthy (runId s) = false \/ strictEq (prop "runId" p) (runId s) = true.

(** Before the promise settles no [close()] has been made; once it has
    settled at least one has. *)
Definition closedIffSettled (s : exchange) : Prop :=
  match settled s with
  | None => closeCount s = 0%nat
  | Some _ => (1 <= closeCount s)%nat
  end.

(** What one turn of a handler can do to the promise and the socket:
    nothing to either, or one [close()] followed by one settling call. *)
Inductive turn (s s' : exchange) : Prop :=
| turn_quiet : settled s' = settled s -> closeCount s' = closeCount s -> turn s s'
| turn_final o :
    settled s' = Some (match settled s with None => o | Some o' => o' end) ->
    closeCount s' = S (closeCount s) -> turn s s'.

(** The events that end an exchange in state [s]: a socket error, a
    [connect] or [chat.send] response that is not ok, and a lifecycle
    frame of the run with phase "end" or "error". *)
Inductive endsExchange (s : exchange) : wsEvent -> Prop :=
| ends_error e : endsExchange s (OnError e)
| ends_connect f : isResponse f "connect" false -> endsExchange s (OnMessage (Some f))
| ends_chat_send f : isResponse f "chat-send" false -> endsExchange s (OnMessage (Some f))
| ends_lifecycle f p d (phase : string) :
    (frameIs f "event" "event" "agent" \/ frameIs f "event" "event" "chat") ->
    prop "payload" f = Some p -> truthy (Some p) = true -> passesFilter s p ->
    prop "stream" p = Some (JStr (js "lifecycle")) ->
    prop "data" p = Some d ->
    prop "phase" d = Some (JStr (js phase)) ->
    phase = "end"%string \/ phase = "error"%string ->
    endsExchange s (OnMessage (Some f)).

(** Only a truthy run id is ever recorded. *)
Definition runIdTruthy (s : exchange) : Prop :=
  forall r, runId s = Some r -> truthy (Some r) = true.

(** An [agent] or [chat] event of the ["assistant"] stream that the
    run-id filter of state [s] lets through, with data [d]. *)
Definition acceptedAssistant (s : exchange) (f d : json) : Prop :=
  (frameIs f "event" "event" "agent" \/ frameIs f "event" "event" "chat")
  /\ exists p, prop "payload" f = Some p
       /\ passesFilter s p
       /\ prop "stream" p = Some (JStr (js "assistant"))
       /\ prop "data" p = Some d.

(** The value a digit character of radix 36 stands for. *)
Definition undigit36 (c : N) : N := if c <? 58 then c - 48 else c - 87.

(** The number a digit string stands for, most significant digit first. *)
Definition value36 (ds : list N) : N :=
  fold_left (fun v c => 36 * v + undigit36 c) ds 0.

(** Every stored suffix is the radix-36 print of the clock reading of a
    reset of its conversation, the resets being those of [T]. *)
Definition suffixesFrom (T : list N -> Z -> Prop) (so : gmap (list N) (list N)) : Prop :=
  forall c s, so !! c = Some s -> exists t, T c t /\ s = toString36 t.

(** A key is the base key of its conversation, or the base key with the
    suffix of one of the resets of [T]. *)
Definition keyFrom (T : list N -> Z -> Prop) (c k : list N) : Prop :=
  k = baseKey c \/ exists t, T c t /\ k = baseKey c ++ js ":" ++ toString36 t.

(** The unit before a position: the last unit of what precedes it in the
    input, or the unit before the input. *)
Definition unitBefore (prev : option N) (pre : list N) : option N :=
  match head (rev pre) with
  | Some x => Some x
  | None => prev
  end.

(** A word of the pattern begins and ends with a word character. *)
Definition wordLike (w : list N) : bool :=
  isWordCharOpt (head w) && isWordCharOpt (head (rev w)).

(** The handler after extraction, as a function of the text it goes on
    with: the relevance filter of a group, then the commands, the
    session key and the gateway. *)
Definition routeWith (env : routerEnv) (b : bridge) (m : message) (chatId : list N)
    (text : list N) (mediaPath : option (list N)) (filtered : bool)
    : bridge * list sdkCall * routing :=
  if filtered
     && (negb (nonEmpty text) && negb (hasMedia mediaPath)
         || negb (hasMedia mediaPath) && negb (shouldRespondInGroup text (mentionList m)))
  then (b, [], Return)
  else dispatch env b m chatId text mediaPath.

(* ================================================================== *)
(** ** Sample inputs *)
(* ================================================================== *)

(** A JSON string literal: the text between double quotes. *)
Definition quoted (s : string) : list N := [34] ++ js s ++ [34].

(** The [content] of a text message: the JSON text of an object with
    the one field [text]. *)
Definition textContent (s : string) : list N :=
  js "{" ++ quoted "text" ++ js ":" ++ quoted s ++ js "}".

(** [JSON.parse] on the contents used below. *)
Definition sampleParse (c : list N) : option json :=
  if bool_decide (c = textContent "/reset")
  then Some (JObj [(js "text", JStr (js "/reset"))])
  else if bool_decide (c = textContent "@_user_1 hello")
  then Some (JObj [(js "text", JStr (js "@_user_1 hello"))])
  else if bool_decide (c = textContent "@_user_1 /reset")
  then Some (JObj [(js "text", JStr (js "@_user_1 /reset"))])
  else None.

Definition sampleRouterEnv : routerEnv :=
  {| JSON_parse := sampleParse;
     toStringValue := fun _ => js "[object Object]";
     downloadImage := fun _ _ => None;
     nowDedup := 1700000000000;
     nowReset := 1700000000500;
     thinkingEnabled := true;
     sdkThrows := fun _ => false;
     relayImage := fun _ => RelayFailed |}.

Definition emptyBridge : bridge := {| seen := ∅; sessionOverrides := ∅ |}.

(** A text message in conversation [oc_1], with its mentions. *)
Definition sampleMessage (chatType text : string) (ms : list json) : message :=
  {| chat_id := Some (js "oc_1");
     message_id := Some (js "om_1");
     message_type := Some (js "text");
     content := Some (textContent text);
     chat_type := Some (js chatType);
     mentions := Some (JArr ms) |}.

(** The entry of [mentions] for the bot, mentioned as [@_user_1]. *)
Definition botMention : json :=
  JObj [(js "key", JStr (js "@_user_1")); (js "name", JStr (js "bot"))].

(** Webhook bodies, as the JSON text posted.  [v2Body]: an event
    envelope of schema 2.0, whose token sits under [header], with the
    wrong token.  [emptyTokenBody]: a top-level token that is the empty
    string.  [challengeBody]: a [url_verification] body with a wrong
    token that also carries an event. *)
Definition v2Body : list N :=
  js "{" ++ quoted "header" ++ js ":{" ++ quoted "event_type" ++ js ":"
  ++ quoted "im.message.receive_v1" ++ js "," ++ quoted "token" ++ js ":"
  ++ quoted "wrong" ++ js "}," ++ quoted "event" ++ js ":{" ++ quoted "message"
  ++ js ":{}}}".

Definition emptyTokenBody : list N :=
  js "{" ++ quoted "token" ++ js ":" ++ quoted "" ++ js "," ++ quoted "header"
  ++ js ":{" ++ quoted "event_type" ++ js ":" ++ quoted "im.message.receive_v1"
  ++ js "}," ++ quoted "event" ++ js ":{" ++ quoted "message" ++ js ":{}}}".

Definition challengeBody : list N :=
  js "{" ++ quoted "type" ++ js ":" ++ quoted "url_verification" ++ js ","
  ++ quoted "token" ++ js ":" ++ quoted "wrong" ++ js "," ++ quoted "challenge"
  ++ js ":" ++ quoted "c1" ++ js "," ++ quoted "event" ++ js ":{}}".

Definition wrongTokenBody : list N :=
  js "{" ++ quoted "token" ++ js ":" ++ quoted "wrong" ++ js "," ++ quoted "header"
  ++ js ":{" ++ quoted "event_type" ++ js ":" ++ quoted "im.message.receive_v1"
  ++ js "}," ++ quoted "event" ++ js ":{" ++ quoted "message" ++ js ":{}}}".

Definition sampleEvent : json := JObj [(js "message", JObj [])].

Definition sampleHeader (fields : list (list N * json)) : json :=
  JObj ((js "event_type", JStr (js "im.message.receive_v1")) :: fields).

(** [JSON.parse] on those bodies. *)
Definition sampleParseBody (t : list N) : option json :=
  if bool_decide (t = v2Body)
  then Some (JObj [(js "header", sampleHeader [(js "token", JStr (js "wrong"))]);
                   (js "event", sampleEvent)])
  else if bool_decide (t = emptyTokenBody)
  then Some (JObj [(js "token", JStr []);
                   (js "header", sampleHeader []);
                   (js "event", sampleEvent)])
  else if bool_decide (t = challengeBody)
  then Some (JObj [(js "type", JStr (js "url_verification"));
                   (js "token", JStr (js "wrong"));
                   (js "challenge", JStr (js "c1"));
                   (js "event", JObj [])])
  else if bool_decide (t = wrongTokenBody)
  then Some (JObj [(js "token", JStr (js "wrong"));
                   (js "header", sampleHeader []);
                   (js "event", sampleEvent)])
  else None.

(** A server with the verification token "secret" and no encryption
    key. *)
Definition sampleServerEnv : serverEnv :=
  {| APP_ID := js "cli_1";
     ENCRYPT_KEY := [];
     VERIFICATION_TOKEN := js "secret";
     parseJSON := sampleParseBody;
     decryptAES := fun _ _ => None |}.

Definition post (text : list N) : request :=
  {| method := js "POST"; url := js "/"; bodyText := text |}.

(** Gateway frames, as parsed. *)
Definition obj (fields : list (string * json)) : json :=
  JObj (map (fun kv => (js kv.1, kv.2)) fields).

Definition str (s : string) : json := JStr (js s).

Definition challengeFrame : json :=
  obj [("type", str "event"); ("event", str "connect.challenge")]%string.

Definition connectOkFrame : json :=
  obj [("type", str "res"); ("id", str "connect"); ("ok", JBool true)]%string.

Definition connectFailedFrame : json :=
  obj [("type", str "res"); ("id", str "connect"); ("ok", JBool false);
       ("error", obj [("message", str "unauthorized")])]%string.

Definition chatSendOkFrame (run : string) : json :=
  obj [("type", str "res"); ("id", str "chat-send"); ("ok", JBool true);
       ("payload", obj [("runId", str run)])]%string.

Definition streamFrame (run stream : string) (data : json) : json :=
  obj [("type", str "event"); ("event", str "chat");
       ("payload", obj [("runId", str run); ("stream", str stream); ("data", data)])]%string.

Definition sampleGatewayEnv : gatewayEnv :=
  {| GATEWAY_TOKEN := js "token-1";
     uuid := js "6f1c0a9e-0000-4000-8000-000000000001";
     copyToWorkspace := fun _ => None |}.

Definition sampleAsk : askArgs :=
  {| ask_text := js "hi"; ask_sessionKey := js "larksuite:oc_1"; ask_mediaPath := None |}.

(** The exchange after the handshake and the acknowledgement of
    [chat.send] for run [r1]. *)
Definition streamingExchange : exchange :=
  setRunId (str "r1")
    (emit (Send (chatSendRequest sampleGatewayEnv sampleAsk))
       (emit (Send (connectRequest sampleGatewayEnv)) newExchange)).

(** The exchange after the challenge and a [connect] response that is
    not ok. *)
Definition failedExchange : exchange :=
  settle (Rejected (GatewayError (str "unauthorized")))
    (close (emit (Send (connectRequest sampleGatewayEnv)) newExchange)).


(* ================================================================== *)
(** * More of the bridge *)
(* ================================================================== *)

(** ** Paths, files and start-up *)

(** The replacement text of [String.prototype.replace] for a pattern
    without capture groups: [$$] is a dollar sign, [$&] the match, [$`]
    what precedes it and [$'] what follows it; any other unit stands for
    itself. *)
Fixpoint substitute (matched before after : list N) (r : list N) : list N :=
  match r with
  | [] => []
  | 36 :: 36 :: t => 36 :: substitute matched before after t
  | 36 :: 38 :: t => matched ++ substitute matched before after t
  | 36 :: 96 :: t => before ++ substitute matched before after t
  | 36 :: 39 :: t => after ++ substitute matched before after t
  | c :: t => c :: substitute matched before after t
  end.

(** [resolve(p)]: [p.replace(/^~/, os.homedir())]. *)
Definition resolve (homedir p : list N) : list N :=
  match p with
  | 126 :: rest => substitute [126] [] rest homedir ++ rest
  | _ => p
  end.

(** [tryReadFile(filePath)] over the files that exist (path to content,
    as [readFileSync(_, "utf8")] gives it). *)
Definition tryReadFile (homedir : list N) (files : gmap (list N) (list N))
    (filePath : list N) : option (list N) :=
  match files !! resolve homedir filePath with
  | None => None
  | Some c =>
    match trim c with
    | [] => None
    | x :: t => Some (x :: t)
    end
  end.

(** How [mustRead] and start-up end when they do not go on: with
    [process.exit(1)] after the message logged. *)
Inductive fatal := Fatal (message : list N).

(** [mustRead(filePath, label)] *)
Definition mustRead (homedir : list N) (files : gmap (list N) (list N))
    (filePath : list N) (label : list N) : fatal + list N :=
  match files !! resolve homedir filePath with
  | None => inl (Fatal (js "[FATAL] " ++ label ++ js " not found: " ++ resolve homedir filePath))
  | Some c =>
    match trim c with
    | [] => inl (Fatal (js "[FATAL] " ++ label ++ js " is empty: " ++ resolve homedir filePath))
    | x :: t => inr (x :: t)
    end
  end.

(** [process.env.NAME || "fallback"] *)
Definition envOr (env : gmap (list N) (list N)) (name fallback : string) : list N :=
  match env !! js name with
  | Some (c :: s) => c :: s
  | _ => js fallback
  end.

(** The options start-up settles. *)
Record config := {
  cfg_APP_ID : list N;
  cfg_APP_SECRET : list N;
  cfg_CONFIG_PATH : list N;
  cfg_MEDIA_DIR : list N;
  cfg_ENCRYPT_KEY : list N;
  cfg_VERIFICATION_TOKEN : list N;
  cfg_GATEWAY_PORT : json;
  cfg_GATEWAY_TOKEN : json
}.

(** How the top-level code of the module ends: [process.exit(1)] after a
    fatal message, an exception nobody catches ([mkdirSync] or
    [JSON.parse] throwing), or the server being started with its
    options. *)
Inductive started :=
| Exits (f : fatal)
| Throws
| Runs (c : config).

(** The top-level statements up to the creation of the SDK client, over
    the environment variables, the home directory, the files, the JSON
    parser and whether the media directory exists or can be created.
    (The two numeric options, read with [Number(...)], are left to the
    code that uses them.) *)
Definition startup (env : gmap (list N) (list N)) (homedir : list N)
    (files : gmap (list N) (list N)) (parse : list N -> option json)
    (mediaDirReady : bool) : started :=
  let secret :=
    match env !! js "LARKSUITE_APP_SECRET" with
    | Some (c :: s) => Some (c :: s)
    | _ => tryReadFile homedir files
             (envOr env "LARKSUITE_APP_SECRET_PATH" "~/.clawdbot/secrets/larksuite_app_secret")
    end in
  let configPath := resolve homedir (envOr env "CLAWDBOT_CONFIG_PATH" "~/.moltbot/moltbot.json") in
  let mediaDir := resolve homedir (envOr env "LARKSUITE_MEDIA_DIR" "~/.clawdbot/media/larksuite") in
  if negb mediaDirReady then Throws
  else
    match env !! js "LARKSUITE_APP_ID" with
    | Some (a :: id) =>
      match secret with
      | Some sec =>
        match mustRead homedir files configPath (js "Moltbot config") with
        | inl f => Exits f
        | inr text =>
          match parse text with
          | None => Throws
          | Some clawdConfig =>
            let token := oprop "token" (oprop "auth" (oprop "gateway" (Some clawdConfig))) in
            match token with
            | Some tok =>
              if truthy (Some tok)
              then Runs {| cfg_APP_ID := a :: id;
                           cfg_APP_SECRET := sec;
                           cfg_CONFIG_PATH := configPath;
                           cfg_MEDIA_DIR := mediaDir;
                           cfg_ENCRYPT_KEY := envOr env "LARKSUITE_ENCRYPT_KEY" "";
                           cfg_VERIFICATION_TOKEN := envOr env "LARKSUITE_VERIFICATION_TOKEN" "";
                           cfg_GATEWAY_PORT :=
                             orElse (oprop "port" (oprop "gateway" (Some clawdConfig)))
                               (JNum 18789%float);
                           cfg_GATEWAY_TOKEN := tok |}
              else Exits (Fatal (js "[FATAL] gateway.auth.token missing in Moltbot config"))
            | None => Exits (Fatal (js "[FATAL] gateway.auth.token missing in Moltbot config"))
            end
          end
        end
      | None => Exits (Fatal (js "[FATAL] LARKSUITE_APP_SECRET not found"))
      end
    | _ => Exits (Fatal (js "[FATAL] LARKSUITE_APP_ID environment variable is required"))
    end.

(** ** The vocabulary of the further statements *)

(** A string that neither begins nor ends with white space (the empty
    string among them). *)
Definition trimmed (s : list N) : Prop :=
  (forall c r, s = c :: r -> isWhiteSpace c = false)
  /\ (forall c r, rev s = c :: r -> isWhiteSpace c = false).

(** A home directory, environment, files and parser for start-up: the
    secret comes from its default file, the configuration from the file
    [CLAWDBOT_CONFIG_PATH] names. *)
Definition sampleHome : list N := js "/home/bot".

Definition sampleProcessEnv : gmap (list N) (list N) :=
  {[ js "LARKSUITE_APP_ID" := js "cli_1";
     js "CLAWDBOT_CONFIG_PATH" := js "~/moltbot.json" ]}.

Definition sampleConfigText : list N :=
  js "{" ++ quoted "gateway" ++ js ":{" ++ quoted "auth" ++ js ":{" ++ quoted "token"
  ++ js ":" ++ quoted "token-1" ++ js "}}}".

Definition sampleFiles : gmap (list N) (list N) :=
  {[ js "/home/bot/.clawdbot/secrets/larksuite_app_secret" := js (String "010" " s3cret ");
     js "/home/bot/moltbot.json" := sampleConfigText ++ js (String "010" "") ]}.

Definition sampleParseConfig (t : list N) : option json :=
  if bool_decide (t = sampleConfigText)
  then Some (obj [("gateway", obj [("auth", obj [("token", str "token-1")])])]%string)
  else None.

(** Every resolution the promise holds carries a text without white
    space around it. *)
Definition resolvedTrimmed (s : exchange) : Prop :=
  forall t m, settled s = Some (Resolved t m) -> trim t = t.

(** An accepted frame of the ["assistant"] stream of run [r] that
    carries the increment [dl] and no whole text. *)
Definition isDeltaFrame (r : list N) (f : json) (dl : list N) : Prop :=
  exists d, isStreamEvent f r "assistant" d
            /\ (forall t, prop "text" d <> Some (JStr t))
            /\ prop "delta" d = Some (JStr dl).

(** The placeholder message of a conversation. *)
Definition thinking (chatId : list N) : sdkCall := CreateText chatId (js "Thinking…").

(** What holds of the handler's state after the turns [ts], for a
    handler that waits on the gateway for conversation [c]: before the
    exchange has settled the only call made, if any, is the creation of
    the placeholder; once it has settled, the calls are that creation, if
    any, followed by one delivery. *)
Definition waitingOrDelivered (env : routerEnv) (c : list N) (ts : list tick)
    (p : pending) : Prop :=
  pd_chatId p = c
  /\ (placeholderId p = [] \/ In (PlaceholderReturns (Some (placeholderId p))) ts)
  /\ (timerArmed p = true ->
      done p = false /\ calls p = [] /\ creating p = false /\ thinkingEnabled env = true)
  /\ (creating p = true -> thinkingEnabled env = true)
  /\ (done p = false ->
      calls p = [] \/ (thinkingEnabled env = true /\ calls p = [thinking c]))
  /\ (done p = true ->
      exists pre pid o,
        calls p = pre ++ deliver env c pid o
        /\ (pre = [] \/ (thinkingEnabled env = true /\ pre = [thinking c]))
        /\ In (ExchangeSettles o) ts
        /\ (pid = [] \/ In (PlaceholderReturns (Some pid)) ts)).

(** Where a call on [im.message] writes: into the conversation of
    message [m], or into a placeholder whose id one of the turns [ts]
    returned. *)
Definition staysInConversation (m : message) (ts : list tick) (call : sdkCall) : Prop :=
  match call with
  | CreateText c _ | CreateImage c _ => chat_id m = Some c
  | PatchText id _ | DeleteMessage id =>
    id <> [] /\ In (PlaceholderReturns (Some id)) ts
  end.

(** The confirmation the [/reset] command sends. *)
Definition resetConfirmation : list N := js "✅ Session 已重置，開始新對話。".

(** The elements of a line of a rich-text post, as the platform sends
    them: text, link, mention and image. *)
Inductive element :=
| ElText (text : list N)
| ElLink (text href : list N)
| ElAt (userId : list N)
| ElImg (imageKey : list N).

Definition encodeElement (e : element) : json :=
  match e with
  | ElText t => JObj [(js "tag", JStr (js "text")); (js "text", JStr t)]
  | ElLink t h => JObj [(js "tag", JStr (js "a")); (js "text", JStr t); (js "href", JStr h)]
  | ElAt u => JObj [(js "tag", JStr (js "at")); (js "user_id", JStr u)]
  | ElImg k => JObj [(js "tag", JStr (js "img")); (js "image_key", JStr k)]
  end.

(** A post: its title and its lines. *)
Definition encodePost (title : list N) (lines : list (list element)) : json :=
  JObj [(js "title", JStr title);
        (js "content", JArr (map (fun l => JArr (map encodeElement l)) lines))].

(** The content of a post message: the post itself, or the post under
    the locale it was written in. *)
Definition encodeContent (locale : option string) (post : json) : json :=
  match locale with
  | Some l => JObj [(js l, post)]
  | None => post
  end.

(** What an element reads as. *)
Definition renderElement (e : element) : list N :=
  match e with
  | ElText t => t
  | ElLink t h => match t with [] => h | _ :: _ => t end
  | ElAt _ => []
  | ElImg _ => js "[圖片]"
  end.

(** The image key an element carries. *)
Definition elementImages (e : element) : list json :=
  match e with
  | ElImg (c :: k) => [JStr (c :: k)]
  | _ => []
  end.

(** Strings joined with a separator between them. *)
Fixpoint joinStrings (sep : list N) (ls : list (list N)) : list N :=
  match ls with
  | [] => []
  | x :: r => match r with
              | [] => x
              | _ :: _ => x ++ sep ++ joinStrings sep r
              end
  end.

(** What a post reads as: its title, when it has one, on a line of its
    own, then its lines. *)
Definition renderPost (title : list N) (lines : list (list element)) : list N :=
  trim ((match title with [] => [] | _ :: _ => title ++ js (String "010" "") end)
        ++ joinStrings (js (String "010" ""))
             (map (fun l => concat (map renderElement l)) lines)).

(** A post with a mention, a text, a link and two images. *)
Definition samplePost : json :=
  encodeContent (Some "zh_cn"%string)
    (encodePost (js "Report")
       [[ElAt (js "ou_1"); ElText (js "see "); ElLink [] (js "https://example.com")];
        [ElImg (js "img_1"); ElImg (js "img_2")]]).

(** The JSON text of [samplePost], and a handler environment that parses
    it and stores a downloaded image under its key. *)
Definition samplePostText : list N :=
  js "{" ++ quoted "zh_cn" ++ js ":{" ++ quoted "title" ++ js ":" ++ quoted "Report"
  ++ js "," ++ quoted "content" ++ js ":[[{" ++ quoted "tag" ++ js ":" ++ quoted "at"
  ++ js "," ++ quoted "user_id" ++ js ":" ++ quoted "ou_1" ++ js "},{" ++ quoted "tag"
  ++ js ":" ++ quoted "text" ++ js "," ++ quoted "text" ++ js ":" ++ quoted "see "
  ++ js "},{" ++ quoted "tag" ++ js ":" ++ quoted "a" ++ js "," ++ quoted "text"
  ++ js ":" ++ quoted "" ++ js "," ++ quoted "href" ++ js ":"
  ++ quoted "https://example.com" ++ js "}],[{" ++ quoted "tag" ++ js ":" ++ quoted "img"
  ++ js "," ++ quoted "image_key" ++ js ":" ++ quoted "img_1" ++ js "},{" ++ quoted "tag"
  ++ js ":" ++ quoted "img" ++ js "," ++ quoted "image_key" ++ js ":" ++ quoted "img_2"
  ++ js "}]]}}".

Definition samplePostEnv : routerEnv :=
  {| JSON_parse := fun c => if bool_decide (c = samplePostText) then Some samplePost else None;
     toStringValue := toStringValue sampleRouterEnv;
     downloadImage := fun _ k => match k with
                                 | JStr key => Some (js "/media/" ++ key ++ js ".png")
                                 | _ => None
                                 end;
     nowDedup := nowDedup sampleRouterEnv;
     nowReset := nowReset sampleRouterEnv;
     thinkingEnabled := true;
     sdkThrows := fun _ => false;
     relayImage := fun _ => RelayFailed |}.

Definition samplePostMessage : message :=
  {| chat_id := Some (js "oc_1");
     message_id := Some (js "om_9");
     message_type := Some (js "post");
     content := Some samplePostText;
     chat_type := Some (js "p2p");
     mentions := None |}.

(* ================================================================== *)
(** * Properties *)
(* ================================================================== *)

(** ** The gateway exchange *)

Lemma prop_is_object k f v : prop k f = Some v -> exists fs, f = JObj fs.
Proof. destruct f; simpl; try discriminate; eauto. Qed.

Lemma isStr_true v lit : isStr v lit = true -> v = Some (JStr (js lit)).
Proof.
  unfold isStr, strictEq. destruct v as [[]|]; try discriminate.
  intros H. apply bool_decide_eq_true in H. congruence.
Qed.

Lemma isStr_end_not_error v : isStr v "end" = true -> isStr v "error" = false.
Proof.
  destruct v as [[| | |s| |]|]; simpl; try discriminate.
  unfold isStr; simpl. intros H. apply bool_decide_eq_true in H. subst s. reflexivity.
Qed.

Lemma onMessage_challenge env a s f :
  isChallenge f -> onMessage env a s (Some f) = Some (emit (Send (connectRequest env)) s).
Proof.
  intros [Ht He]. destruct (prop_is_object _ _ _ Ht) as [fs ->].
  unfold onMessage. rewrite Ht, He. reflexivity.
Qed.

Lemma onMessage_connect_ok env a s f :
  isResponse f "connect" true ->
  onMessage env a s (Some f) = Some (emit (Send (chatSendRequest env a)) s).
Proof.
  intros [[Ht Hi] Hok]. destruct (prop_is_object _ _ _ Ht) as [fs ->].
  unfold onMessage. rewrite Ht, Hi, Hok. reflexivity.
Qed.

Lemma onMessage_chat_send_ok env a s f r :
  isResponse f "chat-send" true ->
  oprop "runId" (prop "payload" f) = Some (JStr r) ->
  onMessage env a s (Some f)
  = Some (if nonEmpty r then setRunId (JStr r) s else s).
Proof.
  intros [[Ht Hi] Hok] Hr. destruct (prop_is_object _ _ _ Ht) as [fs ->].
  unfold onMessage. rewrite Ht, Hi, Hok, Hr. destruct r; reflexivity.
Qed.

Lemma onMessage_stream env a s f p :
  (frameIs f "event" "event" "agent" \/ frameIs f "event" "event" "chat") ->
  prop "payload" f = Some p ->
  truthy (Some p) = true ->
  passesFilter s p ->
  onMessage env a s (Some f)
  = Some (if isStr (prop "stream" p) "assistant" then onAssistant (Some p) s
          else if isStr (prop "stream" p) "lifecycle" then onLifecycle (Some p) s
          else s).
Proof.
  intros Hev Hp Htr Hpass.
  assert (Ht : prop "type" f = Some (JStr (js "event"))) by (destruct Hev as [[? _]|[? _]]; done).
  destruct (prop_is_object _ _ _ Ht) as [fs ->].
  assert (Hfilter : negb (truthy (Some p))
                    || truthy (runId s) && negb (strictEq (oprop "runId" (Some p)) (runId s))
                    = false).
  { rewrite Htr. simpl. destruct Hpass as [-> | ->]; [reflexivity | apply andb_false_r]. }
  unfold onMessage. rewrite Ht, Hp, Hfilter.
  destruct Hev as [[_ He] | [_ He]]; rewrite He; simpl oprop;
    (destruct (isStr (prop "stream" p) "assistant"); [reflexivity|]);
    (destruct (isStr (prop "stream" p) "lifecycle"); reflexivity).
Qed.

Lemma isStreamEvent_payload f r stream d :
  isStreamEvent f r stream d ->
  exists p, (frameIs f "event" "event" "agent" \/ frameIs f "event" "event" "chat")
            /\ prop "payload" f = Some p /\ truthy (Some p) = true
            /\ prop "runId" p = Some (JStr r)
            /\ prop "stream" p = Some (JStr (js stream))
            /\ prop "data" p = Some d.
Proof.
  intros [Hev (p & Hp & Hr & Hs & Hd)]. exists p.
  destruct (prop_is_object _ _ _ Hr) as [ps ->]. auto 10.
Qed.

Lemma trim_Hello : trim (js "Hello") = js "Hello".
Proof. reflexivity. Qed.

(** C1.  Fed, in order, a [connect.challenge] event, a successful
    [connect] response, a successful [chat.send] response carrying a run
    id, an assistant stream event of that run whose data carries the full
    text "Hello", and a lifecycle stream event of that run with phase
    "end", [askMoltbot] resolves, and the text of the reply is "Hello".
    On the way it has sent the two requests and closed the socket once. *)
Theorem exchange_resolves_hello env a f1 f2 f3 f4 f5 r d4 d5 :
  isChallenge f1 ->
  isResponse f2 "connect" true ->
  isResponse f3 "chat-send" true ->
  oprop "runId" (prop "payload" f3) = Some (JStr r) ->
  isStreamEvent f4 r "assistant" d4 ->
  prop "text" d4 = Some (JStr (js "Hello")) ->
  isStreamEvent f5 r "lifecycle" d5 ->
  prop "phase" d5 = Some (JStr (js "end")) ->
  exists s media,
    askMoltbot env a [OnMessage (Some f1); OnMessage (Some f2); OnMessage (Some f3);
                      OnMessage (Some f4); OnMessage (Some f5)] = Some s
    /\ settled s = Some (Resolved (js "Hello") media)
    /\ wsLog s = [Send (connectRequest env); Send (chatSendRequest env a); Close].
Proof.
  intros H1 H2 H3 Hr H4 Ht H5 Hph.
  apply isStreamEvent_payload in H4 as (p4 & Hev4 & Hp4 & Htr4 & Hr4 & Hs4 & Hd4).
  apply isStreamEvent_payload in H5 as (p5 & Hev5 & Hp5 & Htr5 & Hr5 & Hs5 & Hd5).
  destruct (prop_is_object _ _ _ Ht) as [fs4 ->].
  unfold askMoltbot, wsRun, wsStep.
  rewrite (onMessage_challenge _ _ _ _ H1).
  rewrite (onMessage_connect_ok _ _ _ _ H2).
  rewrite (onMessage_chat_send_ok _ _ _ _ _ H3 Hr).
  set (s3 := if nonEmpty r then _ else _).
  assert (Hpass : forall s p, runId s = runId s3 ->
                    prop "runId" p = Some (JStr r) -> passesFilter s p).
  { intros s p Hs Hp. unfold passesFilter. rewrite Hs, Hp. subst s3.
    destruct r as [|c r']; simpl; [left; reflexivity|right].
    apply bool_decide_eq_true. reflexivity. }
  rewrite (onMessage_stream _ _ s3 _ _ Hev4 Hp4 Htr4) by (apply Hpass; auto).
  rewrite Hs4. change (isStr (Some (JStr (js "assistant"))) "assistant") with true. cbv iota.
  set (s4 := onAssistant (Some p4) s3).
  assert (Hs4' : runId s4 = runId s3 /\ buf s4 = js "Hello" /\ wsLog s4 = wsLog s3
                 /\ settled s4 = settled s3).
  { subst s4. unfold onAssistant. simpl oprop. rewrite Hd4. simpl orElse.
    rewrite Ht. destruct (prop "mediaUrls" (JObj fs4)) as [m|]; [destruct (truthy (Some m))|];
    simpl; auto. }
  destruct Hs4' as (Hrun4 & Hbuf4 & Hlog4 & Hset4).
  rewrite (onMessage_stream _ _ s4 _ _ Hev5 Hp5 Htr5) by (apply Hpass; auto).
  rewrite Hs5.
  change (isStr (Some (JStr (js "lifecycle"))) "assistant") with false.
  change (isStr (Some (JStr (js "lifecycle"))) "lifecycle") with true. cbv iota.
  unfold onLifecycle. simpl oprop. rewrite Hd5.
  change (oprop "phase" (Some d5)) with (prop "phase" d5). rewrite Hph.
  change (isStr (Some (JStr (js "end"))) "end") with true.
  change (isStr (Some (JStr (js "end"))) "error") with false. cbv iota.
  eexists _, (mediaUrls s4). split; [reflexivity|].
  simpl. rewrite Hset4, Hbuf4, Hlog4, trim_Hello.
  subst s3. destruct (nonEmpty r); simpl; auto.
Qed.

(** *** Closing the socket *)

Lemma closeCount_emit e s :
  closeCount (emit e s) = (closeCount s + if isClose e then 1 else 0)%nat.
Proof.
  unfold closeCount, emit; simpl. rewrite List.filter_app, length_app.
  destruct e; reflexivity.
Qed.

Lemma closeCount_close s : closeCount (close s) = S (closeCount s).
Proof. unfold close. rewrite closeCount_emit. simpl. lia. Qed.

Lemma turn_settle_close o s : turn s (settle o (close s)).
Proof.
  apply (turn_final _ _ o).
  - simpl. destruct (settled s); reflexivity.
  - unfold settle, closeCount; simpl. apply closeCount_close.
Qed.

Lemma turn_send f s : turn s (emit (Send f) s).
Proof. apply turn_quiet; [reflexivity | rewrite closeCount_emit; simpl; lia]. Qed.

Lemma turn_onAssistant p s : turn s (onAssistant p s).
Proof.
  apply turn_quiet; unfold onAssistant;
    repeat (case_match; simpl); reflexivity.
Qed.

Lemma turn_onLifecycle p s : turn s (onLifecycle p s).
Proof.
  unfold onLifecycle.
  destruct (isStr (oprop "phase" (oprop "data" p)) "end") eqn:Hend.
  - rewrite (isStr_end_not_error _ Hend). apply turn_settle_close.
  - destruct (isStr _ "error"); [apply turn_settle_close | apply turn_quiet; reflexivity].
Qed.

Lemma turn_onMessage env a s parsed s' :
  onMessage env a s parsed = Some s' -> turn s s'.
Proof.
  unfold onMessage. intros H.
  repeat (case_match; try discriminate);
    simplify_eq;
    try apply turn_settle_close;
    try apply turn_onAssistant;
    try apply turn_onLifecycle;
    try apply turn_send;
    try (apply turn_quiet; reflexivity).
Qed.

Lemma turn_wsStep env a s ev s' : wsStep env a s ev = Some s' -> turn s s'.
Proof.
  destruct ev as [parsed | e]; simpl.
  - apply turn_onMessage.
  - intros [= <-]. apply turn_settle_close.
Qed.

Lemma turn_preserves s s' : turn s s' -> closedIffSettled s -> closedIffSettled s'.
Proof.
  unfold closedIffSettled. intros [Hs Hc | o Hs Hc]; rewrite Hs, Hc.
  - auto.
  - destruct (settled s); lia.
Qed.

Lemma wsRun_invariant env a evs : forall s s',
  wsRun env a s evs = Some s' -> closedIffSettled s -> closedIffSettled s'.
Proof.
  induction evs as [|ev evs IH]; simpl; intros s s' H Hinv.
  - congruence.
  - destruct (wsStep env a s ev) as [s1|] eqn:Hstep; [|discriminate].
    eapply IH; [eassumption|]. eapply turn_preserves; [|eassumption].
    eapply turn_wsStep; eassumption.
Qed.

Lemma settle_close_final o s :
  settled (settle o (close s)) <> None
  /\ closeCount (settle o (close s)) = S (closeCount s).
Proof.
  split.
  - simpl. destruct (settled s); discriminate.
  - unfold settle, closeCount; simpl. apply closeCount_close.
Qed.

Lemma endsExchange_settles env a s ev :
  endsExchange s ev -> exists s', wsStep env a s ev = Some s' /\ settled s' <> None.
Proof.
  intros [e | f [[Ht Hi] Hok] | f [[Ht Hi] Hok] | f p d phase Hev Hp Htr Hpass Hs Hd Hph Hphase].
  - eexists; split; [reflexivity | apply settle_close_final].
  - destruct (prop_is_object _ _ _ Ht) as [fs ->].
    eexists; split;
      [unfold wsStep, onMessage; rewrite Ht, Hi, Hok; reflexivity | apply settle_close_final].
  - destruct (prop_is_object _ _ _ Ht) as [fs ->].
    eexists; split;
      [unfold wsStep, onMessage; rewrite Ht, Hi, Hok; reflexivity | apply settle_close_final].
  - unfold wsStep. rewrite (onMessage_stream _ _ _ _ _ Hev Hp Htr Hpass), Hs.
    eexists; split; [reflexivity|].
    change (isStr (Some (JStr (js "lifecycle"))) "assistant") with false.
    change (isStr (Some (JStr (js "lifecycle"))) "lifecycle") with true. cbv iota.
    unfold onLifecycle. simpl oprop. rewrite Hd.
    change (oprop "phase" (Some d)) with (prop "phase" d). rewrite Hph.
    destruct Hphase as [-> | ->].
    + change (isStr (Some (JStr (js "end"))) "end") with true.
      change (isStr (Some (JStr (js "end"))) "error") with false. cbv iota.
      apply settle_close_final.
    + change (isStr (Some (JStr (js "error"))) "end") with false.
      change (isStr (Some (JStr (js "error"))) "error") with true. cbv iota.
      apply settle_close_final.
Qed.

(** A run that ends settled has one turn at which the promise went from
    pending to settled, and exactly one [close()] had been made by then. *)
Lemma wsRun_first_settle env a evs : forall s s',
  wsRun env a s evs = Some s' ->
  settled s = None -> closeCount s = 0%nat -> settled s' <> None ->
  exists pre ev post s0 s1,
    evs = pre ++ ev :: post
    /\ wsRun env a s pre = Some s0
    /\ wsStep env a s0 ev = Some s1
    /\ settled s0 = None /\ settled s1 <> None /\ closeCount s1 = 1%nat.
Proof.
  induction evs as [|ev evs IH]; simpl; intros s s' Hrun Hs Hc Hs'.
  - injection Hrun as <-. contradiction.
  - destruct (wsStep env a s ev) as [s1|] eqn:Hstep; [|discriminate].
    destruct (settled s1) as [o|] eqn:Hs1.
    + exists [], ev, evs, s, s1. simpl. repeat split; try assumption; try congruence.
      destruct (turn_wsStep _ _ _ _ _ Hstep) as [Hq _ | o' _ Hc1]; [congruence | lia].
    + assert (Hc1 : closeCount s1 = 0%nat).
      { destruct (turn_wsStep _ _ _ _ _ Hstep) as [_ Hq | o' Hf _]; congruence. }
      destruct (IH s1 s' Hrun Hs1 Hc1 Hs') as (pre & ev' & post & s0 & s2 & -> & Hpre & H).
      exists (ev :: pre), ev', post, s0, s2. simpl. rewrite Hstep. auto.
Qed.

Lemma closeCount_onAssistant p s : closeCount (onAssistant p s) = closeCount s.
Proof. unfold onAssistant. repeat (case_match; simpl); reflexivity. Qed.

Lemma closes_onLifecycle p s :
  closeCount (onLifecycle p s) <> closeCount s ->
  exists phase : string,
    oprop "phase" (oprop "data" p) = Some (JStr (js phase))
    /\ (phase = "end"%string \/ phase = "error"%string).
Proof.
  unfold onLifecycle.
  destruct (isStr (oprop "phase" (oprop "data" p)) "end") eqn:Hend.
  - intros _. exists "end"%string. split; [apply isStr_true, Hend | left; reflexivity].
  - destruct (isStr (oprop "phase" (oprop "data" p)) "error") eqn:Herr.
    + intros _. exists "error"%string. split; [apply isStr_true, Herr | right; reflexivity].
    + intros H. contradiction.
Qed.

(** A turn calls [close()] only on an event that ends an exchange. *)
Lemma closes_only_on_end env a s ev s' :
  wsStep env a s ev = Some s' -> closeCount s' <> closeCount s -> endsExchange s ev.
Proof.
  intros Hstep Hc. destruct ev as [parsed|e]; [|constructor].
  cbn [wsStep] in Hstep.
  destruct parsed as [msg|]; [|injection Hstep as <-; contradiction].
  destruct msg as [|b|x|t|items|fs];
    try (cbn in Hstep; injection Hstep as <-; contradiction);
    try discriminate.
  unfold onMessage in Hstep. cbv beta iota in Hstep.
  set (f := JObj fs) in *.
  destruct (isStr (prop "type" f) "event" && isStr (prop "event" f) "connect.challenge").
  { apply (inj Some) in Hstep. subst s'. exfalso. apply Hc.
    rewrite closeCount_emit. cbn [isClose]. lia. }
  destruct (isStr (prop "type" f) "res" && isStr (prop "id" f) "connect") eqn:E2.
  { apply andb_prop in E2 as [Et Ei].
    destruct (negb (truthy (prop "ok" f))) eqn:Eok.
    - apply ends_connect. split; [split; apply isStr_true; assumption|].
      apply negb_true_iff. exact Eok.
    - apply (inj Some) in Hstep. subst s'. exfalso. apply Hc.
      rewrite closeCount_emit. cbn [isClose]. lia. }
  destruct (isStr (prop "type" f) "res" && isStr (prop "id" f) "chat-send") eqn:E3.
  { apply andb_prop in E3 as [Et Ei].
    destruct (negb (truthy (prop "ok" f))) eqn:Eok.
    - apply ends_chat_send. split; [split; apply isStr_true; assumption|].
      apply negb_true_iff. exact Eok.
    - exfalso. apply Hc.
      destruct (oprop "runId" (prop "payload" f)) as [r|];
        [destruct (truthy (Some r))|]; apply (inj Some) in Hstep; subst s'; reflexivity. }
  destruct (isStr (prop "type" f) "event"
            && (isStr (prop "event" f) "agent" || isStr (prop "event" f) "chat")) eqn:E4;
    [|injection Hstep as <-; contradiction].
  apply andb_prop in E4 as [Et Ee].
  destruct (negb (truthy (prop "payload" f))
            || truthy (runId s)
               && negb (strictEq (oprop "runId" (prop "payload" f)) (runId s))) eqn:E5;
    [injection Hstep as <-; contradiction|].
  apply orb_false_elim in E5 as [Ep Efilter].
  apply negb_false_iff in Ep.
  destruct (prop "payload" f) as [p|] eqn:Epay; [|discriminate Ep].
  destruct (isStr (oprop "stream" (Some p)) "assistant") eqn:Ea.
  { apply (inj Some) in Hstep. subst s'. rewrite closeCount_onAssistant in Hc.
    contradiction. }
  destruct (isStr (oprop "stream" (Some p)) "lifecycle") eqn:El;
    [|injection Hstep as <-; contradiction].
  apply (inj Some) in Hstep. subst s'.
  destruct (closes_onLifecycle _ _ Hc) as (phase & Hph & Hphase).
  destruct (oprop "data" (Some p)) as [d|] eqn:Ed; [|discriminate Hph].
  apply (ends_lifecycle s f p d phase).
  - apply isStr_true in Et.
    apply orb_prop in Ee as [Ee|Ee]; apply isStr_true in Ee; [left|right]; split; assumption.
  - exact Epay.
  - exact Ep.
  - unfold passesFilter. destruct (truthy (runId s)); [right|left; reflexivity].
    cbn [andb] in Efilter. apply negb_false_iff in Efilter. exact Efilter.
  - apply isStr_true in El. exact El.
  - exact Ed.
  - exact Hph.
  - exact Hphase.
Qed.

(** An event that ends an exchange makes its turn call [close()] once,
    whether the promise is pending or has settled before. *)
Lemma endsExchange_closes env a s ev :
  endsExchange s ev ->
  exists s', wsStep env a s ev = Some s'
             /\ settled s' <> None /\ closeCount s' = S (closeCount s).
Proof.
  intros [e | f [[Ht Hi] Hok] | f [[Ht Hi] Hok] | f p d phase Hev Hp Htr Hpass Hs Hd Hph Hphase].
  - eexists; split; [reflexivity | apply settle_close_final].
  - destruct (prop_is_object _ _ _ Ht) as [fs ->].
    eexists; split;
      [unfold wsStep, onMessage; rewrite Ht, Hi, Hok; reflexivity | apply settle_close_final].
  - destruct (prop_is_object _ _ _ Ht) as [fs ->].
    eexists; split;
      [unfold wsStep, onMessage; rewrite Ht, Hi, Hok; reflexivity | apply settle_close_final].
  - unfold wsStep. rewrite (onMessage_stream _ _ _ _ _ Hev Hp Htr Hpass), Hs.
    eexists; split; [reflexivity|].
    change (isStr (Some (JStr (js "lifecycle"))) "assistant") with false.
    change (isStr (Some (JStr (js "lifecycle"))) "lifecycle") with true. cbv iota.
    unfold onLifecycle. simpl oprop. rewrite Hd.
    change (oprop "phase" (Some d)) with (prop "phase" d). rewrite Hph.
    destruct Hphase as [-> | ->].
    + change (isStr (Some (JStr (js "end"))) "end") with true.
      change (isStr (Some (JStr (js "end"))) "error") with false. cbv iota.
      apply settle_close_final.
    + change (isStr (Some (JStr (js "error"))) "end") with false.
      change (isStr (Some (JStr (js "error"))) "error") with true. cbv iota.
      apply settle_close_final.
Qed.

(** C2, as the code has it.  Along every run of [askMoltbot]: as long
    as the promise is pending no [close()] has been called; a run that
    has reached an outcome reached it in one turn, which called
    [close()] for the first time and once, so that the socket is never
    left open; every event that ends an exchange -- success at lifecycle
    phase "end", failure on a [connect] or [chat.send] response that is
    not ok, failure at lifecycle phase "error", a socket error in any
    state -- settles a pending promise and makes its turn call [close()]
    once, also when it arrives after the outcome, so that [close()] is
    called once for each such event and not once in all; and a turn on
    any other event calls no [close()] and leaves the promise as it
    is. *)
Theorem close_follows_every_ending_event env a evs s :
  askMoltbot env a evs = Some s ->
  (settled s = None -> closeCount s = 0%nat)
  /\ (settled s <> None ->
      (1 <= closeCount s)%nat
      /\ exists pre ev post s0 s1,
           evs = pre ++ ev :: post
           /\ askMoltbot env a pre = Some s0
           /\ wsStep env a s0 ev = Some s1
           /\ settled s0 = None /\ settled s1 <> None /\ closeCount s1 = 1%nat)
  /\ (forall ev, endsExchange s ev ->
        exists s', wsStep env a s ev = Some s'
                   /\ settled s' <> None /\ closeCount s' = S (closeCount s))
  /\ (forall ev s', wsStep env a s ev = Some s' -> ~ endsExchange s ev ->
        closeCount s' = closeCount s /\ settled s' = settled s).
Proof.
  intros Hrun.
  assert (Hinv : closedIffSettled s).
  { eapply wsRun_invariant; [exact Hrun | reflexivity]. }
  unfold closedIffSettled in Hinv.
  split; [|split; [|split]].
  - intros Hs. rewrite Hs in Hinv. exact Hinv.
  - intros Hs. split.
    + destruct (settled s); [exact Hinv | congruence].
    + apply (wsRun_first_settle env a evs newExchange s Hrun); auto.
  - intros ev. apply endsExchange_closes.
  - intros ev s' Hstep Hne.
    assert (Hc : closeCount s' = closeCount s).
    { destruct (Nat.eq_dec (closeCount s') (closeCount s)) as [E|E]; [exact E|].
      destruct (Hne (closes_only_on_end _ _ _ _ _ Hstep E)). }
    split; [exact Hc|].
    destruct (turn_wsStep _ _ _ _ _ Hstep) as [Hq _ | o _ Hf]; [exact Hq | lia].
Qed.

(** After the handshake, a reply and two lifecycle frames with phase
    "end", the exchange has resolved with the reply and [close()] has
    been called twice. *)
Lemma socket_closed_twice :
  exists s,
    askMoltbot sampleGatewayEnv sampleAsk
      [OnMessage (Some challengeFrame); OnMessage (Some connectOkFrame);
       OnMessage (Some (chatSendOkFrame "r1"));
       OnMessage (Some (streamFrame "r1" "assistant" (obj [("text", str "Hello")]%string)));
       OnMessage (Some (streamFrame "r1" "lifecycle" (obj [("phase", str "end")]%string)));
       OnMessage (Some (streamFrame "r1" "lifecycle" (obj [("phase", str "end")]%string)))]
    = Some s
    /\ settled s = Some (Resolved (js "Hello") (JArr []))
    /\ closeCount s = 2%nat.
Proof. eexists. split; [vm_compute; reflexivity|]. split; reflexivity. Qed.

Lemma close_follows_every_ending_event_witness :
  exists s',
    wsStep sampleGatewayEnv sampleAsk failedExchange (OnError (js "ECONNRESET")) = Some s'
    /\ settled s' <> None
    /\ closeCount s' = S (closeCount failedExchange).
Proof.
  refine (proj1 (proj2 (proj2
            (close_follows_every_ending_event sampleGatewayEnv sampleAsk
               [OnMessage (Some challengeFrame); OnMessage (Some connectFailedFrame)]
               failedExchange _))) (OnError (js "ECONNRESET")) _).
  - vm_compute. reflexivity.
  - constructor.
Defined.

(** *** Run-id filtering and reply assembly *)

Lemma onAssistant_runId p s : runId (onAssistant p s) = runId s.
Proof. unfold onAssistant. repeat (case_match; simpl); reflexivity. Qed.

Lemma onLifecycle_runId p s : runId (onLifecycle p s) = runId s.
Proof. unfold onLifecycle. repeat (case_match; simpl); reflexivity. Qed.

Lemma onMessage_runIdTruthy env a s parsed s' :
  onMessage env a s parsed = Some s' -> runIdTruthy s -> runIdTruthy s'.
Proof.
  unfold onMessage, runIdTruthy. intros H Hinv r.
  repeat (case_match; try discriminate); simplify_eq;
    rewrite ?onAssistant_runId, ?onLifecycle_runId; try exact (Hinv r).
  cbn [runId setRunId]. intros [= ->]. assumption.
Qed.

Lemma wsRun_runIdTruthy env a evs : forall s s',
  wsRun env a s evs = Some s' -> runIdTruthy s -> runIdTruthy s'.
Proof.
  induction evs as [|ev evs IH]; simpl; intros s s' H Hinv.
  - injection H as <-. exact Hinv.
  - destruct (wsStep env a s ev) as [s1|] eqn:Hstep; [|discriminate].
    eapply IH; [eassumption|].
    destruct ev as [parsed|e]; simpl in Hstep.
    + eapply onMessage_runIdTruthy; eassumption.
    + injection Hstep as <-. exact Hinv.
Qed.

Lemma onMessage_accepted env a s f d fs :
  acceptedAssistant s f d -> d = JObj fs ->
  exists p, onMessage env a s (Some f) = Some (onAssistant (Some p) s)
            /\ orElse (oprop "data" (Some p)) (JObj []) = JObj fs.
Proof.
  intros [Hev (p & Hp & Hpass & Hs & Hd)] ->. exists p.
  destruct (prop_is_object _ _ _ Hs) as [ps ->].
  rewrite (onMessage_stream _ _ _ _ _ Hev Hp eq_refl Hpass), Hs.
  split; [reflexivity|]. unfold oprop. rewrite Hd. reflexivity.
Qed.

(** C3.  In any state an exchange can reach: an event frame whose
    payload run id differs from the recorded run id, once one is
    recorded, leaves the accumulated text and media (and the promise) as
    they are; an assistant frame that carries a [text] string replaces
    the buffer by it; one that carries no [text] string but a [delta]
    string appends the delta; and one that carries a [mediaUrls] list
    replaces the accumulated media list by it. *)
Theorem stream_frames_assemble_reply env a evs s :
  askMoltbot env a evs = Some s ->
  (forall f r,
      prop "type" f = Some (JStr (js "event")) ->
      runId s = Some r ->
      strictEq (oprop "runId" (prop "payload" f)) (Some r) = false ->
      exists s', onMessage env a s (Some f) = Some s'
                 /\ buf s' = buf s /\ mediaUrls s' = mediaUrls s
                 /\ settled s' = settled s)
  /\ (forall f d t,
      acceptedAssistant s f d ->
      prop "text" d = Some (JStr t) ->
      exists s', onMessage env a s (Some f) = Some s' /\ buf s' = t)
  /\ (forall f d dl,
      acceptedAssistant s f d ->
      (forall t, prop "text" d <> Some (JStr t)) ->
      prop "delta" d = Some (JStr dl) ->
      exists s', onMessage env a s (Some f) = Some s' /\ buf s' = buf s ++ dl)
  /\ (forall f d urls,
      acceptedAssistant s f d ->
      prop "mediaUrls" d = Some (JArr urls) ->
      exists s', onMessage env a s (Some f) = Some s' /\ mediaUrls s' = JArr urls).
Proof.
  intros Hrun.
  assert (Htruthy : runIdTruthy s).
  { eapply wsRun_runIdTruthy; [exact Hrun | intros r; discriminate]. }
  split; [|split; [|split]].
  - intros f r Ht Hr Hneq. destruct (prop_is_object _ _ _ Ht) as [fs ->].
    pose proof (Htruthy r Hr) as Hrt.
    unfold onMessage. rewrite Ht, Hr, Hrt.
    change (isStr (Some (JStr (js "event"))) "event") with true.
    change (isStr (Some (JStr (js "event"))) "res") with false.
    cbv beta iota delta [andb].
    destruct (isStr (prop "event" (JObj fs)) "connect.challenge").
    { eexists; split; [reflexivity|]. simpl; auto. }
    destruct (isStr (prop "event" (JObj fs)) "agent" || isStr (prop "event" (JObj fs)) "chat").
    2:{ eexists; split; [reflexivity|]; auto. }
    rewrite Hneq. simpl negb. rewrite orb_true_r.
    eexists; split; [reflexivity|]; auto.
  - intros f d t Hacc Ht. destruct (prop_is_object _ _ _ Ht) as [fs ->].
    destruct (onMessage_accepted env a _ _ _ _ Hacc eq_refl) as (p & -> & Hd).
    eexists; split; [reflexivity|].
    unfold onAssistant. rewrite Hd, Ht. repeat (case_match; simpl); reflexivity.
  - intros f d dl Hacc Hnt Hdl. destruct (prop_is_object _ _ _ Hdl) as [fs ->].
    destruct (onMessage_accepted env a _ _ _ _ Hacc eq_refl) as (p & -> & Hd).
    eexists; split; [reflexivity|].
    unfold onAssistant. rewrite Hd, Hdl.
    destruct (prop "text" (JObj fs)) as [[| | |t| |]|] eqn:Ht;
      try (exfalso; exact (Hnt t eq_refl));
      repeat (case_match; simpl); reflexivity.
  - intros f d urls Hacc Hm. destruct (prop_is_object _ _ _ Hm) as [fs ->].
    destruct (onMessage_accepted env a _ _ _ _ Hacc eq_refl) as (p & -> & Hd).
    eexists; split; [reflexivity|].
    unfold onAssistant. rewrite Hd, Hm. reflexivity.
Qed.

Lemma exchange_resolves_hello_witness :
  exists s media,
    askMoltbot sampleGatewayEnv sampleAsk
      [OnMessage (Some challengeFrame); OnMessage (Some connectOkFrame);
       OnMessage (Some (chatSendOkFrame "r1"));
       OnMessage (Some (streamFrame "r1" "assistant" (obj [("text", str "Hello")]%string)));
       OnMessage (Some (streamFrame "r1" "lifecycle" (obj [("phase", str "end")]%string)))]
    = Some s
    /\ settled s = Some (Resolved (js "Hello") media)
    /\ wsLog s = [Send (connectRequest sampleGatewayEnv);
                  Send (chatSendRequest sampleGatewayEnv sampleAsk); Close].
Proof.
  apply (exchange_resolves_hello sampleGatewayEnv sampleAsk
           challengeFrame connectOkFrame (chatSendOkFrame "r1")
           (streamFrame "r1" "assistant" (obj [("text", str "Hello")]%string))
           (streamFrame "r1" "lifecycle" (obj [("phase", str "end")]%string))
           (js "r1")
           (obj [("text", str "Hello")]%string)
           (obj [("phase", str "end")]%string)).
  - split; reflexivity.
  - split; [split|]; reflexivity.
  - split; [split|]; reflexivity.
  - reflexivity.
  - split; [right; split; reflexivity|].
    exists (obj [("runId", str "r1"); ("stream", str "assistant");
                 ("data", obj [("text", str "Hello")])]%string).
    repeat split; reflexivity.
  - reflexivity.
  - split; [right; split; reflexivity|].
    exists (obj [("runId", str "r1"); ("stream", str "lifecycle");
                 ("data", obj [("phase", str "end")])]%string).
    repeat split; reflexivity.
  - reflexivity.
Defined.

Lemma stream_frames_assemble_reply_witness :
  exists s',
    onMessage sampleGatewayEnv sampleAsk streamingExchange
      (Some (streamFrame "r2" "assistant" (obj [("text", str "other run")]%string)))
    = Some s'
    /\ buf s' = buf streamingExchange
    /\ mediaUrls s' = mediaUrls streamingExchange
    /\ settled s' = settled streamingExchange.
Proof.
  apply (proj1 (stream_frames_assemble_reply sampleGatewayEnv sampleAsk
                  [OnMessage (Some challengeFrame); OnMessage (Some connectOkFrame);
                   OnMessage (Some (chatSendOkFrame "r1"))]
                  streamingExchange eq_refl)
           (streamFrame "r2" "assistant" (obj [("text", str "other run")]%string))
           (str "r1")).
  - reflexivity.
  - reflexivity.
  - reflexivity.
Defined.

(** A [connect] response that is not ok: the exchange fails with the
    message of the response, and the socket has been closed once. *)
Example connect_failure_closes_once :
  exists s,
    askMoltbot sampleGatewayEnv sampleAsk
      [OnMessage (Some challengeFrame); OnMessage (Some connectFailedFrame)] = Some s
    /\ settled s = Some (Rejected (GatewayError (str "unauthorized")))
    /\ closeCount s = 1%nat.
Proof. eexists. repeat split; reflexivity. Qed.

(** ** Deduplication *)

Local Open Scope Z_scope.

Lemma purge_lookup (now : Z) (seen : gmap (list N) Z) k ts :
  purge now seen !! k = Some ts <-> seen !! k = Some ts /\ now - ts <= SEEN_TTL_MS.
Proof.
  unfold purge. rewrite map_lookup_filter_Some. simpl. split; intros [H1 H2]; split; auto; lia.
Qed.

Lemma purge_lookup_None (now : Z) (seen : gmap (list N) Z) k :
  purge now seen !! k = None <->
  (forall ts, seen !! k = Some ts -> now - ts > SEEN_TTL_MS).
Proof.
  split.
  - intros H ts Hts. destruct (Z_gt_dec (now - ts) SEEN_TTL_MS) as [|Hn]; [assumption|].
    assert (purge now seen !! k = Some ts) by (apply purge_lookup; split; [assumption|lia]).
    congruence.
  - intros H. destruct (purge now seen !! k) as [ts|] eqn:E; [|reflexivity].
    apply purge_lookup in E as [E1 E2]. specialize (H ts E1). lia.
Qed.

(** An id recorded within the TTL is reported as a duplicate. *)
Lemma isDuplicate_recorded (now : Z) (seen : gmap (list N) Z) c id ts :
  seen !! (c :: id) = Some ts -> now - ts <= SEEN_TTL_MS ->
  (isDuplicate now (Some (c :: id)) seen).1 = true.
Proof.
  intros Hs Hle. unfold isDuplicate.
  assert (H : purge now seen !! (c :: id) = Some ts) by (apply purge_lookup; auto).
  rewrite H. reflexivity.
Qed.

(** A call leaves a record that is within the TTL as it is, whatever id
    the call is about. *)
Lemma isDuplicate_keeps (now : Z) (seen : gmap (list N) Z) other k ts :
  seen !! k = Some ts -> now - ts <= SEEN_TTL_MS ->
  (isDuplicate now other seen).2 !! k = Some ts.
Proof.
  intros Hs Hle.
  assert (H : purge now seen !! k = Some ts) by (apply purge_lookup; auto).
  unfold isDuplicate. destruct other as [[|c id]|]; simpl; try exact H.
  destruct (purge now seen !! (c :: id)) eqn:E; simpl; [exact H|].
  rewrite lookup_insert_ne; [exact H|]. intros <-. congruence.
Qed.

Lemma dedupRun_keeps calls : forall (seen : gmap (list N) Z) k ts,
  seen !! k = Some ts ->
  Forall (fun c => c.1 - ts <= SEEN_TTL_MS) calls ->
  dedupRun seen calls !! k = Some ts.
Proof.
  induction calls as [|[now id] calls IH]; simpl; intros seen k ts Hs Hall.
  - exact Hs.
  - inversion Hall as [|? ? Hnow Hrest]; subst. simpl in Hnow.
    apply IH; [|assumption]. apply isDuplicate_keeps; assumption.
Qed.

(** A call that answers "not a duplicate" for a non-empty id has
    recorded it with the current clock reading. *)
Lemma isDuplicate_records (now : Z) (seen : gmap (list N) Z) c id :
  (isDuplicate now (Some (c :: id)) seen).1 = false ->
  (isDuplicate now (Some (c :: id)) seen).2 !! (c :: id) = Some now.
Proof.
  unfold isDuplicate. destruct (purge now seen !! (c :: id)); simpl; [discriminate|].
  intros _. apply lookup_insert_eq.
Qed.

(** C4.  What a call does: it first drops every record older than the
    TTL of ten minutes, then answers whether the id is among the
    remaining records, and records it with the current clock reading if
    it is not.  Hence: after the call that records an id, a call within
    the TTL of that first one answers "duplicate" (whatever calls, within
    the TTL too, came in between); a call whose gap from the recorded
    first-seen timestamp exceeds the TTL answers "not a duplicate" and
    records the id afresh; and an empty or missing id is never a
    duplicate. *)
Theorem isDuplicate_ttl_window :
  SEEN_TTL_MS = 600000
  /\ (forall now (seen : gmap (list N) Z) id,
        id <> [] ->
        (forall k ts, purge now seen !! k = Some ts
                      <-> seen !! k = Some ts /\ now - ts <= SEEN_TTL_MS)
        /\ isDuplicate now (Some id) seen
           = match purge now seen !! id with
             | Some _ => (true, purge now seen)
             | None => (false, <[id := now]> (purge now seen))
             end)
  /\ (forall (seen : gmap (list N) Z) id t1 calls t2,
        id <> [] ->
        (isDuplicate t1 (Some id) seen).1 = false ->
        Forall (fun c => c.1 - t1 <= SEEN_TTL_MS) calls ->
        t2 - t1 <= SEEN_TTL_MS ->
        (isDuplicate t2 (Some id)
           (dedupRun (isDuplicate t1 (Some id) seen).2 calls)).1 = true)
  /\ (forall (seen : gmap (list N) Z) id ts now,
        id <> [] ->
        seen !! id = Some ts ->
        now - ts > SEEN_TTL_MS ->
        (isDuplicate now (Some id) seen).1 = false
        /\ (isDuplicate now (Some id) seen).2 !! id = Some now)
  /\ (forall now (seen : gmap (list N) Z),
        (isDuplicate now None seen).1 = false
        /\ (isDuplicate now (Some []) seen).1 = false).
Proof.
  split; [reflexivity|].
  split; [|split; [|split]].
  - intros now seen [|c id] Hne; [congruence|]. split.
    + intros k ts. apply purge_lookup.
    + reflexivity.
  - intros seen [|c id] t1 calls t2 Hne H1 Hcalls H2; [congruence|].
    apply (isDuplicate_recorded _ _ _ _ t1); [|assumption].
    apply dedupRun_keeps; [|assumption].
    apply isDuplicate_records. assumption.
  - intros seen [|c id] ts now Hne Hs Hgt; [congruence|].
    assert (H : purge now seen !! (c :: id) = None).
    { apply purge_lookup_None. intros ts' Hs'. congruence. }
    unfold isDuplicate. rewrite H. simpl. split; [reflexivity | apply lookup_insert_eq].
  - intros now seen. split; reflexivity.
Qed.

Lemma isDuplicate_ttl_window_witness :
  (isDuplicate 1700000300000 (Some (js "om_1"))
     (dedupRun (isDuplicate 1700000000000 (Some (js "om_1")) ∅).2
        [(1700000100000%Z, Some (js "om_2"))])).1 = true.
Proof.
  apply (proj1 (proj2 (proj2 isDuplicate_ttl_window))).
  - discriminate.
  - reflexivity.
  - repeat constructor. simpl. unfold SEEN_TTL_MS. lia.
  - unfold SEEN_TTL_MS. lia.
Defined.

(** ** Session keys *)

Local Open Scope N_scope.

Lemma undigit_digit36 d : d < 36 -> undigit36 (digit36 d) = d.
Proof.
  intros H. unfold undigit36, digit36.
  destruct (d <? 10) eqn:E.
  - apply N.ltb_lt in E. replace (48 + d <? 58) with true by (symmetry; apply N.ltb_lt; lia). lia.
  - apply N.ltb_ge in E. replace (87 + d <? 58) with false by (symmetry; apply N.ltb_ge; lia). lia.
Qed.

Lemma digit36_not_minus d : digit36 d <> 45.
Proof. unfold digit36. destruct (d <? 10); lia. Qed.

Lemma digits36_acc fuel : forall n acc,
  digits36 fuel n acc = digits36 fuel n [] ++ acc.
Proof.
  induction fuel as [|f IH]; intros n acc; simpl; [reflexivity|].
  destruct (n / 36 =? 0); [reflexivity|].
  rewrite (IH _ (_ :: acc)), (IH _ [_]), <- app_assoc. reflexivity.
Qed.

Lemma value36_snoc ds c : value36 (ds ++ [c]) = 36 * value36 ds + undigit36 c.
Proof. unfold value36. rewrite fold_left_app. reflexivity. Qed.

Lemma value36_digits36 fuel : forall n,
  n < 36 ^ N.of_nat fuel -> value36 (digits36 fuel n []) = n.
Proof.
  induction fuel as [|f IH]; intros n Hn.
  - simpl in Hn. assert (n = 0) by lia. subst. reflexivity.
  - simpl digits36.
    assert (Hmod : n mod 36 < 36) by (apply N.mod_lt; lia).
    pose proof (N.div_mod n 36 ltac:(lia)) as Hdm.
    destruct (n / 36 =? 0) eqn:E.
    + apply N.eqb_eq in E. unfold value36; simpl.
      rewrite undigit_digit36 by assumption. lia.
    + rewrite digits36_acc, value36_snoc, undigit_digit36 by assumption.
      rewrite IH; [lia|].
      rewrite Nat2N.inj_succ, N.pow_succ_r' in Hn.
      apply N.Div0.div_lt_upper_bound. lia.
Qed.

Lemma digits36_no_minus fuel : forall n acc,
  Forall (fun c => c <> 45) acc -> Forall (fun c => c <> 45) (digits36 fuel n acc).
Proof.
  induction fuel as [|f IH]; intros n acc Hacc; simpl; [assumption|].
  assert (Forall (fun c => c <> 45) (digit36 (n mod 36) :: acc)).
  { constructor; [apply digit36_not_minus | assumption]. }
  destruct (n / 36 =? 0); auto.
Qed.

Lemma digits36_nonempty fuel n acc : digits36 (S fuel) n acc <> [].
Proof.
  simpl. destruct (n / 36 =? 0); [discriminate|].
  rewrite digits36_acc. intros H. apply app_eq_nil in H as [_ H]. discriminate.
Qed.

Lemma value36_toDigits36 n : value36 (toDigits36 n) = n.
Proof.
  unfold toDigits36. apply value36_digits36.
  destruct (N.eq_dec n 0) as [->|Hn]; [reflexivity|].
  pose proof (N.log2_spec n ltac:(lia)) as [_ Hlt].
  rewrite Nat2N.inj_succ, N2Nat.id.
  eapply N.lt_le_trans; [exact Hlt|].
  apply N.pow_le_mono_l. lia.
Qed.

Lemma toString36_nonempty n : toString36 n <> [].
Proof. destruct n; simpl; try discriminate. apply digits36_nonempty. Qed.

(** Different integers print differently in radix 36. *)
Lemma toString36_inj a b : toString36 a = toString36 b -> a = b.
Proof.
  assert (Hpos : forall p q, toDigits36 (Npos p) = toDigits36 (Npos q) -> p = q).
  { intros p q H. apply (f_equal value36) in H. rewrite !value36_toDigits36 in H. congruence. }
  assert (Hminus : forall p l, toDigits36 (Npos p) <> 45 :: l).
  { intros p l H.
    pose proof (digits36_no_minus (S (N.to_nat (N.log2 (Npos p)))) (Npos p) [] ltac:(constructor)) as HF.
    fold (toDigits36 (Npos p)) in HF. rewrite H in HF. inversion HF; congruence. }
  assert (Hzero : forall p, toDigits36 (Npos p) <> js "0").
  { intros p H. apply (f_equal value36) in H. rewrite value36_toDigits36 in H. discriminate. }
  destruct a as [|p|p], b as [|q|q]; simpl; intros H;
    try reflexivity; try discriminate.
  - symmetry in H. destruct (Hzero _ H).
  - destruct (Hzero _ H).
  - f_equal. auto.
  - destruct (Hminus _ _ H).
  - symmetry in H. destruct (Hminus _ _ H).
  - f_equal. injection H as H. auto.
Qed.

Lemma resolveKey_lookup (T : list N -> Z -> Prop) (so : gmap (list N) (list N)) (c : list N) :
  suffixesFrom T so ->
  resolveKey c so = match so !! c with
                    | Some s => baseKey c ++ js ":" ++ s
                    | None => baseKey c
                    end.
Proof.
  intros Hinv. unfold resolveKey. destruct (so !! c) as [s|] eqn:E; [|reflexivity].
  destruct (Hinv _ _ E) as (t & _ & ->).
  pose proof (toString36_nonempty t). destruct (toString36 t); [congruence | reflexivity].
Qed.

Lemma resolveKey_keyFrom (T : list N -> Z -> Prop) (so : gmap (list N) (list N)) (c : list N) :
  suffixesFrom T so -> keyFrom T c (resolveKey c so).
Proof.
  intros Hinv. rewrite (resolveKey_lookup T) by assumption.
  destruct (so !! c) as [s|] eqn:E; [right|left; reflexivity].
  destruct (Hinv _ _ E) as (t & Ht & ->). eauto.
Qed.

Lemma suffixesFrom_reset (T : list N -> Z -> Prop) (so : gmap (list N) (list N)) (c : list N) now :
  suffixesFrom T so ->
  suffixesFrom (fun c' t => T c' t \/ (c' = c /\ t = now)) (applyReset now c so).
Proof.
  intros Hinv c' s. unfold applyReset. rewrite lookup_insert.
  destruct (decide (c = c')) as [<-|Hne].
  - intros [= <-]. eauto.
  - intros H. destruct (Hinv _ _ H) as (t & Ht & ->). eauto.
Qed.

Lemma sessionRun_keys ops : forall T (so : gmap (list N) (list N)),
  suffixesFrom T so ->
  suffixesFrom (fun c t => T c t \/ In (OpReset c t) ops) (sessionRun so ops).1
  /\ Forall (fun ck => keyFrom (fun c t => T c t \/ In (OpReset c t) ops) ck.1 ck.2)
       (sessionRun so ops).2.
Proof.
  induction ops as [|[c now|c] ops IH]; intros T so Hinv; simpl.
  - split; [|constructor]. intros c s H. destruct (Hinv _ _ H) as (t & Ht & ->). eauto.
  - destruct (IH _ _ (suffixesFrom_reset T so c now Hinv)) as [H1 H2]. split.
    + intros c' s H. destruct (H1 _ _ H) as (t & Ht & ->). exists t. split; [|reflexivity].
      destruct Ht as [[Ht|[-> ->]]|Ht]; auto.
    + eapply Forall_impl; [exact H2|]. intros [c' k] [Hk|(t & Ht & Hk)]; simpl in *.
      * left; assumption.
      * right. exists t. split; [|assumption]. destruct Ht as [[Ht|[-> ->]]|Ht]; auto.
  - destruct (IH _ _ Hinv) as [H1 H2]. split.
    + intros c' s H. destruct (H1 _ _ H) as (t & Ht & ->). exists t. split; [|reflexivity].
      destruct Ht as [Ht|Ht]; auto.
    + constructor.
      * simpl. destruct (resolveKey_keyFrom T so c Hinv) as [Hk|(t & Ht & Hk)].
        -- left; assumption.
        -- right; eauto.
      * eapply Forall_impl; [exact H2|]. intros [c' k] [Hk|(t & Ht & Hk)]; simpl in *.
        -- left; assumption.
        -- right. exists t. split; [|assumption]. destruct Ht as [Ht|Ht]; auto.
Qed.

(** Without a reset of conversation [c], every key a history produces
    for [c] is the one the map gave at its start. *)
Lemma sessionRun_no_reset c ops : forall (so : gmap (list N) (list N)),
  (forall t, ~ In (OpReset c t) ops) ->
  forall k, In (c, k) (sessionRun so ops).2 -> k = resolveKey c so.
Proof.
  induction ops as [|[c' now|c'] ops IH]; intros so Hno k; simpl.
  - intros [].
  - intros Hin. rewrite (IH _ (fun t H => Hno t (or_intror H)) k Hin).
    assert (c' <> c) by (intros ->; exact (Hno now (or_introl eq_refl))).
    unfold resolveKey, applyReset. rewrite lookup_insert_ne by assumption. reflexivity.
  - intros [[= -> <-]|Hin]; [reflexivity|].
    exact (IH _ (fun t H => Hno t (or_intror H)) k Hin).
Qed.

(** C5, as the code has it.  In any state of the session map reached
    from the empty map of a fresh process: the key of a conversation is
    the base key joined by a colon with the stored suffix if there is
    one, and the base key alone otherwise; resolving it again, with no
    reset of that conversation in between, gives the same key; and after
    a reset whose clock reading differs from that of every earlier reset
    of the conversation, the key differs from every key produced for the
    conversation before. *)
Theorem resolveKey_stable_and_fresh ops c :
  (resolveKey c (sessionRun ∅ ops).1
   = match (sessionRun ∅ ops).1 !! c with
     | Some s => baseKey c ++ js ":" ++ s
     | None => baseKey c
     end)
  /\ (forall ops',
        (forall t, ~ In (OpReset c t) ops') ->
        forall k, In (c, k) (sessionRun (sessionRun ∅ ops).1 ops').2 ->
                  k = resolveKey c (sessionRun ∅ ops).1)
  /\ (forall now,
        (forall t, In (OpReset c t) ops -> t <> now) ->
        forall k, In (c, k) (sessionRun ∅ ops).2 ->
                  resolveKey c (applyReset now c (sessionRun ∅ ops).1) <> k).
Proof.
  assert (H0 : suffixesFrom (fun _ _ => False) (∅ : gmap (list N) (list N))).
  { intros c' s H. rewrite lookup_empty in H. discriminate. }
  destruct (sessionRun_keys ops _ _ H0) as [Hinv Hkeys].
  split; [|split].
  - apply (resolveKey_lookup _ _ _ Hinv).
  - intros ops'. apply sessionRun_no_reset.
  - intros now Hfresh k Hin.
    rewrite Forall_forall in Hkeys. specialize (Hkeys (c, k)).
    assert (Hk : keyFrom (fun c t => False \/ In (OpReset c t) ops) c k).
    { apply Hkeys. apply list_elem_of_In. exact Hin. }
    unfold resolveKey, applyReset. rewrite lookup_insert_eq.
    pose proof (toString36_nonempty now) as Hne.
    destruct (toString36 now) as [|d ds] eqn:Enow; [congruence|].
    destruct Hk as [-> | (t & [[]|Ht] & ->)]; intros Heq.
    + apply (f_equal length) in Heq. rewrite !length_app in Heq. simpl in Heq. lia.
    + apply app_inv_head in Heq. injection Heq as Heq. rewrite <- Enow in Heq.
      apply toString36_inj in Heq. exact (Hfresh t Ht (eq_sym Heq)).
Qed.

(** Two resets of one conversation within the same millisecond store
    the same suffix: the key after the second reset is the key produced
    after the first. *)
Lemma reset_same_millisecond_repeats_key :
  In (js "oc_1",
      resolveKey (js "oc_1")
        (applyReset 1700000000000 (js "oc_1")
           (sessionRun ∅ [OpReset (js "oc_1") 1700000000000; OpResolve (js "oc_1")]).1))
     (sessionRun ∅ [OpReset (js "oc_1") 1700000000000; OpResolve (js "oc_1")]).2.
Proof. left. vm_compute. reflexivity. Qed.

Lemma resolveKey_stable_and_fresh_witness :
  (forall t, In (OpReset (js "oc_1") t)
               [OpReset (js "oc_1") 1700000000000%Z; OpResolve (js "oc_1")] ->
             t <> 1700000000001%Z)
  /\ (forall k,
        In (js "oc_1", k)
           (sessionRun ∅ [OpReset (js "oc_1") 1700000000000%Z; OpResolve (js "oc_1")]).2 ->
        resolveKey (js "oc_1")
          (applyReset 1700000000001%Z (js "oc_1")
             (sessionRun ∅ [OpReset (js "oc_1") 1700000000000%Z; OpResolve (js "oc_1")]).1)
        <> k).
Proof.
  assert (H : forall t, In (OpReset (js "oc_1") t)
                          [OpReset (js "oc_1") 1700000000000%Z; OpResolve (js "oc_1")] ->
                        t <> 1700000000001%Z).
  { intros t [[= <-]|[[=]|[]]]. discriminate. }
  split; [exact H|].
  exact (proj2 (proj2 (resolveKey_stable_and_fresh
                         [OpReset (js "oc_1") 1700000000000%Z; OpResolve (js "oc_1")]
                         (js "oc_1"))) 1700000000001%Z H).
Defined.

(** ** The group filter *)

Local Open Scope N_scope.

Lemma startsWith_spec p : forall s,
  startsWith p s = true <-> exists post, s = p ++ post.
Proof.
  induction p as [|a p IH]; intros s; simpl.
  - split; eauto.
  - destruct s as [|b s].
    + split; [discriminate | intros [post H]; discriminate].
    + rewrite andb_true_iff, N.eqb_eq, IH. split.
      * intros [-> [post ->]]. eauto.
      * intros [post [= -> ->]]. eauto.
Qed.

Lemma includes_spec k : forall s,
  includes k s = true <-> exists pre post, s = pre ++ k ++ post.
Proof.
  induction s as [|c s IH]; simpl; rewrite orb_true_iff, startsWith_spec.
  - split.
    + intros [[post H]|H]; [|discriminate]. exists [], post. exact H.
    + intros (pre & post & H). left. destruct pre; [|discriminate]. eauto.
  - rewrite IH. split.
    + intros [[post H]|(pre & post & H)].
      * exists [], post. exact H.
      * exists (c :: pre), post. simpl. congruence.
    + intros ([|c' pre] & post & H).
      * left. eauto.
      * right. injection H as -> ->. eauto.
Qed.

Lemma testQuestionMark_spec text :
  testQuestionMark text = true <-> endsWithQuestionMark text.
Proof.
  unfold testQuestionMark, endsWithQuestionMark. split.
  - destruct (rev text) as [|c r] eqn:E; [discriminate|].
    rewrite orb_true_iff, !N.eqb_eq. intros H.
    exists (rev r), c. split; [|tauto].
    rewrite <- (rev_involutive text), E. reflexivity.
  - intros (pre & c & -> & H). rewrite rev_app_distr. simpl.
    rewrite orb_true_iff, !N.eqb_eq. tauto.
Qed.

Lemma unitBefore_cons prev c pre : unitBefore prev (c :: pre) = unitBefore (Some c) pre.
Proof.
  unfold unitBefore. simpl. destruct (rev pre) as [|x r]; reflexivity.
Qed.

Lemma matchWordHere_spec prev s w :
  wordLike w = true ->
  (matchWordHere prev s w = true
   <-> exists post, s = w ++ post
         /\ isWordCharOpt prev = false /\ isWordCharOpt (head post) = false).
Proof.
  unfold wordLike, matchWordHere. rewrite !andb_true_iff. intros [Hfirst Hlast].
  rewrite startsWith_spec. split.
  - intros [[Hb1 [post ->]] Hb2]. exists post.
    rewrite drop_app_length in Hb2. unfold wordBoundary in *. rewrite Hlast in Hb2.
    destruct w as [|a w]; [discriminate|]. simpl in Hb1, Hfirst. rewrite Hfirst in Hb1.
    destruct (isWordCharOpt prev), (isWordCharOpt (head post)); try discriminate; auto.
  - intros (post & -> & Hp & Hn). rewrite drop_app_length. unfold wordBoundary.
    rewrite Hlast, Hp, Hn.
    destruct w as [|a w]; [discriminate|]. simpl in *. rewrite Hfirst. eauto.
Qed.

Lemma searchWord_spec ws :
  forallb wordLike ws = true ->
  forall s prev,
    searchWord ws prev s = true
    <-> exists w pre post,
          In w ws /\ s = pre ++ w ++ post
          /\ isWordCharOpt (unitBefore prev pre) = false
          /\ isWordCharOpt (head post) = false.
Proof.
  intros Hws. rewrite forallb_forall in Hws.
  assert (Hhere : forall s prev,
    existsb (matchWordHere prev s) ws = true
    <-> exists w post, In w ws /\ s = w ++ post
          /\ isWordCharOpt prev = false /\ isWordCharOpt (head post) = false).
  { intros s prev. rewrite existsb_exists. split.
    - intros (w & Hin & Hm). apply matchWordHere_spec in Hm as (post & H); auto. eauto.
    - intros (w & post & Hin & H). exists w. split; [assumption|].
      apply matchWordHere_spec; eauto. }
  induction s as [|c s IH]; intros prev; simpl; rewrite orb_true_iff, Hhere.
  - split.
    + intros [(w & post & Hin & H & Hp & Hn)|H]; [|discriminate].
      exists w, [], post. auto.
    + intros (w & pre & post & Hin & H & Hp & Hn). left.
      destruct pre; [|discriminate]. exists w, post. auto.
  - rewrite IH. split.
    + intros [(w & post & Hin & H & Hp & Hn)|(w & pre & post & Hin & H & Hp & Hn)].
      * exists w, [], post. auto.
      * exists w, (c :: pre), post. rewrite unitBefore_cons. simpl. split; [assumption|].
        split; [congruence | auto].
    + intros (w & [|c' pre] & post & Hin & H & Hp & Hn).
      * left. exists w, post. auto.
      * right. injection H as -> ->. rewrite unitBefore_cons in Hp.
        exists w, pre, post. auto.
Qed.

Lemma testQuestionWord_spec text :
  testQuestionWord (toLowerCase text) = true <-> containsQuestionWord text.
Proof.
  unfold testQuestionWord, containsQuestionWord, occursAsWord.
  rewrite (searchWord_spec questionWords eq_refl). unfold unitBefore. split.
  - intros (w & pre & post & Hin & H & Hp & Hn). exists w. split; [assumption|].
    exists pre, post. destruct (head (rev pre)); auto.
  - intros (w & Hin & pre & post & H & Hp & Hn). exists w, pre, post.
    destruct (head (rev pre)); auto.
Qed.

Lemma verbs_spec text :
  existsb (fun k => includes k text) verbs = true <-> containsVerb text.
Proof.
  unfold containsVerb. rewrite existsb_exists. split.
  - intros (v & Hin & H). apply includes_spec in H as (pre & post & H). eauto 6.
  - intros (v & pre & post & Hin & H). exists v. split; [assumption|].
    apply includes_spec. eauto.
Qed.

Lemma startsWithCI_spec p : forall s,
  startsWithCI p s = true
  <-> exists p' rest, s = p' ++ rest /\ map canonicalize p' = map canonicalize p.
Proof.
  induction p as [|a p IH]; intros s; simpl.
  - split; [intros _; exists [], s; auto | auto].
  - destruct s as [|b s].
    + split; [discriminate|]. intros ([|x p'] & rest & H1 & H2); discriminate.
    + rewrite andb_true_iff, N.eqb_eq, IH. split.
      * intros [Hab (p' & rest & -> & Hp)]. exists (b :: p'), rest. simpl.
        split; [reflexivity | congruence].
      * intros ([|x p'] & rest & H1 & H2); [discriminate|].
        injection H1 as -> ->. injection H2 as H2 H3. split; [congruence | eauto].
Qed.

Lemma matchAddress_spec text a :
  matchAddress text a = true
  <-> exists a' c rest, text = a' ++ c :: rest
        /\ map canonicalize a' = map canonicalize a /\ isAddressSep c = true.
Proof.
  unfold matchAddress. rewrite andb_true_iff, startsWithCI_spec. split.
  - intros [(a' & rest & -> & Ha) Hsep].
    assert (Hlen : length a = length a').
    { apply (f_equal length) in Ha. rewrite !length_map in Ha. congruence. }
    rewrite Hlen, drop_app_length in Hsep. destruct rest as [|c rest]; [discriminate|].
    eauto 6.
  - intros (a' & c & rest & -> & Ha & Hsep).
    assert (Hlen : length a = length a').
    { apply (f_equal length) in Ha. rewrite !length_map in Ha. congruence. }
    rewrite Hlen, drop_app_length. eauto.
Qed.

Lemma testAddress_spec text : testAddress text = true <-> beginsWithAddress text.
Proof.
  unfold testAddress, beginsWithAddress. rewrite existsb_exists. split.
  - intros (a & Hin & H). apply matchAddress_spec in H as (a' & c & rest & H). eauto 8.
  - intros (a & a' & c & rest & Hin & H). exists a. split; [assumption|].
    apply matchAddress_spec. eauto.
Qed.

Lemma lowerUnit_cases c :
  (isUpperAscii c = true /\ lowerUnit c = [c + 32])
  \/ (c = 8490 /\ lowerUnit c = [107])
  \/ (c = 304 /\ lowerUnit c = [105; 775])
  \/ (isUpperAscii c = false /\ c <> 8490 /\ c <> 304 /\ lowerUnit c = [c]).
Proof.
  unfold lowerUnit. destruct (isUpperAscii c) eqn:Eu; [left; auto|].
  destruct (N.eqb_spec c 8490) as [->|E1]; [right; left; auto|].
  destruct (N.eqb_spec c 304) as [->|E2]; [right; right; left; auto|].
  right; right; right. auto.
Qed.

Lemma foldCase_upper c : isUpperAscii c = true -> foldCase c = c + 32.
Proof. unfold foldCase, isUpperAscii. intros ->. reflexivity. Qed.

Lemma foldCase_other c : isUpperAscii c = false -> foldCase c = c.
Proof. unfold foldCase, isUpperAscii. intros ->. reflexivity. Qed.

Lemma plainLetter_inv y :
  plainLetter y = true -> 97 <= y /\ y <= 122 /\ y <> 105 /\ y <> 107.
Proof.
  unfold plainLetter. rewrite !andb_true_iff, !negb_true_iff, !N.eqb_neq, !N.leb_le. tauto.
Qed.

Lemma isUpperAscii_inv c : isUpperAscii c = true -> 65 <= c /\ c <= 90.
Proof. unfold isUpperAscii. rewrite andb_true_iff, !N.leb_le. tauto. Qed.

(** A plain letter in the lower-cased text comes from one unit, of which
    it is the letter. *)
Lemma lowerUnit_plain c y r :
  lowerUnit c = y :: r -> plainLetter y = true -> r = [] /\ foldCase c = y.
Proof.
  intros H Hy. apply plainLetter_inv in Hy as (H1 & H2 & H3 & H4).
  destruct (lowerUnit_cases c) as [[Hu E]|[[-> E]|[[-> E]|(Hu & _ & _ & E)]]];
    rewrite E in H; injection H as <- <-.
  - split; [reflexivity | apply foldCase_upper, Hu].
  - contradiction.
  - contradiction.
  - split; [reflexivity | apply foldCase_other, Hu].
Qed.

Lemma foldCase_plain c y :
  foldCase c = y -> plainLetter y = true -> lowerUnit c = [y].
Proof.
  intros H Hy. apply plainLetter_inv in Hy as (H1 & H2 & H3 & H4).
  destruct (lowerUnit_cases c) as [[Hu E]|[[-> E]|[[-> E]|(Hu & _ & _ & E)]]].
  - rewrite E, <- H, (foldCase_upper _ Hu). reflexivity.
  - exfalso. vm_compute in H. subst y. vm_compute in H2. apply H2. reflexivity.
  - exfalso. vm_compute in H. subst y. vm_compute in H2. apply H2. reflexivity.
  - rewrite E, <- H, (foldCase_other _ Hu). reflexivity.
Qed.

Lemma toLowerCase_folded w' :
  forallb plainLetter (map foldCase w') = true -> toLowerCase w' = map foldCase w'.
Proof.
  unfold toLowerCase. induction w' as [|c w' IH]; [reflexivity|].
  cbn [map forallb flat_map]. rewrite andb_true_iff. intros [Hc Hw].
  rewrite (foldCase_plain c _ eq_refl Hc), (IH Hw). reflexivity.
Qed.

Lemma lowerUnit_nonempty c : exists x r, lowerUnit c = x :: r.
Proof.
  destruct (lowerUnit_cases c) as [[_ E]|[[_ E]|[[_ E]|(_ & _ & _ & E)]]];
    rewrite E; eauto.
Qed.

(** Plain letters at the head of a lower-cased text come one for one
    from the head of the text. *)
Lemma lowered_head w : forall r post,
  forallb plainLetter w = true ->
  toLowerCase r = w ++ post ->
  exists w' q', r = w' ++ q' /\ map foldCase w' = w /\ toLowerCase q' = post.
Proof.
  unfold toLowerCase.
  induction w as [|y w IH]; intros r post Hw H.
  - exists [], r. auto.
  - cbn [forallb] in Hw. apply andb_true_iff in Hw as [Hy Hw].
    destruct r as [|c r]; [discriminate H|].
    cbn [flat_map] in H.
    destruct (lowerUnit_nonempty c) as (x & t & E). rewrite E in H.
    cbn [app] in H. injection H as -> H.
    destruct (lowerUnit_plain c y t E Hy) as [-> Hc]. cbn [app] in H.
    destruct (IH r post Hw H) as (w' & q' & -> & Hw' & Hq).
    exists (c :: w'), q'. cbn [map app]. rewrite Hc, Hw'. auto.
Qed.

(** A run of plain letters inside a lower-cased text comes one for one
    from a run of the text. *)
Lemma lowered_split y w : forall text pre post,
  forallb plainLetter (y :: w) = true ->
  toLowerCase text = pre ++ (y :: w) ++ post ->
  exists p' w' q',
    text = p' ++ w' ++ q' /\ toLowerCase p' = pre
    /\ map foldCase w' = y :: w /\ toLowerCase q' = post.
Proof.
  induction text as [|c r IH]; intros pre post Hw H.
  - destruct pre; discriminate H.
  - destruct pre as [|p pre].
    + destruct (lowered_head (y :: w) (c :: r) post Hw H) as (w' & q' & E & Hw' & Hq).
      exists [], w', q'. auto.
    + unfold toLowerCase in H. cbn [flat_map] in H.
      destruct (lowerUnit_cases c) as [[_ E]|[[_ E]|[[_ E]|(_ & _ & _ & E)]]];
        rewrite E in H; cbn [app] in H.
      * injection H as <- H. destruct (IH pre post Hw H) as (p' & w' & q' & -> & Hp & Hw' & Hq).
        exists (c :: p'), w', q'. unfold toLowerCase in *. cbn [flat_map app].
        rewrite E, Hp. auto.
      * injection H as <- H. destruct (IH pre post Hw H) as (p' & w' & q' & -> & Hp & Hw' & Hq).
        exists (c :: p'), w', q'. unfold toLowerCase in *. cbn [flat_map app].
        rewrite E, Hp. auto.
      * injection H as <- H. destruct pre as [|p2 pre].
        { exfalso. cbn [app] in H. injection H as <- _.
          cbn [forallb] in Hw. apply andb_true_iff in Hw as [Hy _].
          vm_compute in Hy. discriminate Hy. }
        cbn [app] in H. injection H as <- H.
        destruct (IH pre post Hw H) as (p' & w' & q' & -> & Hp & Hw' & Hq).
        exists (c :: p'), w', q'. unfold toLowerCase in *. cbn [flat_map app].
        rewrite E, Hp. auto.
      * injection H as <- H. destruct (IH pre post Hw H) as (p' & w' & q' & -> & Hp & Hw' & Hq).
        exists (c :: p'), w', q'. unfold toLowerCase in *. cbn [flat_map app].
        rewrite E, Hp. auto.
Qed.

Lemma isWordChar_wordUnit c : isWordChar c = wordUnit c.
Proof.
  unfold isWordChar, wordUnit, isUpperAscii, isLowerAscii, isDigit.
  destruct (48 <=? c), (c <=? 57), (65 <=? c), (c <=? 90), (c =? 95),
    (97 <=? c), (c <=? 122); reflexivity.
Qed.

Lemma wordUnit_upper c : isUpperAscii c = true -> wordUnit c = true /\ wordUnit (c + 32) = true.
Proof.
  intros H. apply isUpperAscii_inv in H as [H1 H2]. unfold wordUnit. split.
  - rewrite (proj2 (N.leb_le 65 c) H1), (proj2 (N.leb_le c 90) H2).
    cbn [andb]. rewrite orb_true_r. reflexivity.
  - rewrite (proj2 (N.leb_le 97 (c + 32))) by lia.
    rewrite (proj2 (N.leb_le (c + 32) 122)) by lia.
    cbn [andb]. rewrite orb_true_r. reflexivity.
Qed.

(** Whether a word character ends the lower-cased text. *)
Lemma lowered_last p :
  isWordCharOpt (head (rev (toLowerCase p))) = joinsBefore (head (rev p)).
Proof.
  destruct p as [|c p _] using rev_ind; [reflexivity|].
  unfold toLowerCase. rewrite flat_map_app, !rev_app_distr. cbn [flat_map rev app head].
  rewrite app_nil_r. unfold joinsBefore.
  destruct (lowerUnit_cases c) as [[Hu E]|[[-> E]|[[-> E]|(Hu & H1 & H2 & E)]]];
    rewrite E; cbn [rev app head isWordCharOpt].
  - rewrite isWordChar_wordUnit. destruct (wordUnit_upper c Hu) as [-> ->]. reflexivity.
  - reflexivity.
  - reflexivity.
  - rewrite isWordChar_wordUnit. apply N.eqb_neq in H1. rewrite H1, orb_false_r. reflexivity.
Qed.

(** Whether a word character begins the lower-cased text. *)
Lemma lowered_first q :
  isWordCharOpt (head (toLowerCase q)) = joinsAfter (head q).
Proof.
  destruct q as [|c q]; [reflexivity|].
  unfold toLowerCase. cbn [flat_map head]. unfold joinsAfter.
  destruct (lowerUnit_cases c) as [[Hu E]|[[-> E]|[[-> E]|(Hu & H1 & H2 & E)]]];
    rewrite E; cbn [app head isWordCharOpt].
  - rewrite isWordChar_wordUnit. destruct (wordUnit_upper c Hu) as [-> ->]. reflexivity.
  - reflexivity.
  - reflexivity.
  - rewrite isWordChar_wordUnit. apply N.eqb_neq in H1, H2.
    rewrite H1, H2, !orb_false_r. reflexivity.
Qed.

(** A word of plain letters is a whole word of the lower-cased text
    exactly when it stands as a word of its own in the text. *)
Lemma occursAsWord_lowered y w text :
  forallb plainLetter (y :: w) = true ->
  (occursAsWord (y :: w) (toLowerCase text) <-> standsAsWord (y :: w) text).
Proof.
  intros Hw. unfold occursAsWord, standsAsWord. split.
  - intros (pre & post & H & Hb & Ha).
    destruct (lowered_split y w text pre post Hw H) as (p' & w' & q' & -> & <- & Hw' & <-).
    exists p', w', q'. rewrite lowered_last in Hb. rewrite lowered_first in Ha. auto.
  - intros (p' & w' & q' & -> & Hw' & Hb & Ha).
    exists (toLowerCase p'), (toLowerCase q').
    rewrite lowered_last, lowered_first. split; [|auto].
    unfold toLowerCase. rewrite !flat_map_app. fold (toLowerCase w').
    rewrite (toLowerCase_folded w') by (rewrite Hw'; exact Hw). rewrite Hw'. reflexivity.
Qed.

Lemma containsQuestionWord_stands text :
  containsQuestionWord text
  <-> exists w, In w specQuestionWords /\ standsAsWord w text.
Proof.
  unfold containsQuestionWord.
  change questionWords with specQuestionWords.
  assert (Hplain : forall w, In w specQuestionWords ->
                     exists y w0, w = y :: w0 /\ forallb plainLetter (y :: w0) = true).
  { intros w Hin. unfold specQuestionWords in Hin.
    repeat (destruct Hin as [<-|Hin]; [eexists _, _; split; vm_compute; reflexivity|]).
    destruct Hin. }
  split; intros (w & Hin & H); exists w; (split; [exact Hin|]);
    destruct (Hplain w Hin) as (y & w0 & -> & Hp);
    apply (occursAsWord_lowered y w0 text Hp); exact H.
Qed.

Lemma canonicalize_foldCase x y : canonicalize x = canonicalize y <-> foldCase x = foldCase y.
Proof.
  unfold canonicalize, foldCase, isLowerAscii.
  destruct (N.leb_spec 97 x), (N.leb_spec x 122), (N.leb_spec 97 y), (N.leb_spec y 122),
    (N.leb_spec 65 x), (N.leb_spec x 90), (N.leb_spec 65 y), (N.leb_spec y 90);
    cbn [andb]; lia.
Qed.

Lemma map_canonicalize_foldCase a' : forall a,
  map canonicalize a' = map canonicalize a <-> map foldCase a' = map foldCase a.
Proof.
  induction a' as [|x a' IH]; intros [|y a]; cbn [map]; try (split; discriminate);
    [tauto|].
  split; intros [= H1 H2]; f_equal;
    try (apply canonicalize_foldCase; exact H1);
    try (apply IH; exact H2).
Qed.

Lemma isAddressSep_cases c :
  isAddressSep c = true
  <-> isWhiteSpace c = true \/ c = 44 \/ c = 58 \/ c = 65292 \/ c = 65306.
Proof. unfold isAddressSep. rewrite !orb_true_iff, !N.eqb_eq. tauto. Qed.

Lemma beginsWithAddress_folded text :
  beginsWithAddress text
  <-> exists a a' c rest,
        In a specAddressTerms /\ text = a' ++ c :: rest /\ map foldCase a' = a
        /\ (isWhiteSpace c = true \/ c = 44 \/ c = 58 \/ c = 65292 \/ c = 65306).
Proof.
  unfold beginsWithAddress. change addressTerms with specAddressTerms.
  assert (Hfixed : forall a, In a specAddressTerms -> map foldCase a = a).
  { intros a Hin. unfold specAddressTerms in Hin.
    repeat (destruct Hin as [<-|Hin]; [vm_compute; reflexivity|]). destruct Hin. }
  split; intros (a & a' & c & rest & Hin & -> & Ha & Hsep); exists a, a', c, rest;
    (split; [exact Hin|]); (split; [reflexivity|]); split.
  - apply map_canonicalize_foldCase in Ha. rewrite Ha. apply Hfixed, Hin.
  - apply isAddressSep_cases, Hsep.
  - apply map_canonicalize_foldCase. rewrite Ha. symmetry. apply Hfixed, Hin.
  - apply isAddressSep_cases, Hsep.
Qed.

(** C6, as the code has it.  [shouldRespondInGroup] answers yes exactly
    when the message mentions someone, or ends with an ASCII or
    full-width question mark, or has one of the seven question words
    standing as a word of its own, in any mix of capitals and small
    letters, or contains one of the sixteen Chinese request verbs as
    written, or begins with one of the six address terms, in any mix of
    capitals and small letters, followed by white space, a comma or a
    colon (ASCII or full-width).  Wherever it answers yes the wording of
    the specification does too.  It answers yes to "how do I deploy
    this?" and to "HOW are you", no to "ok thanks", and yes to any text
    that comes with a mention. *)
Theorem shouldRespondInGroup_as_coded :
  (forall text mentions,
      shouldRespondInGroup text mentions = true <-> shouldRespond_amended text mentions)
  /\ (forall text mentions,
        shouldRespond_amended text mentions -> shouldRespond_claimed text mentions)
  /\ shouldRespondInGroup (js "how do I deploy this?") [] = true
  /\ shouldRespondInGroup (js "HOW are you") [] = true
  /\ shouldRespondInGroup (js "ok thanks") [] = false
  /\ (forall text m ms, shouldRespondInGroup text (m :: ms) = true).
Proof.
  split; [|split; [|split; [|split; [|split]]]]; try reflexivity.
  - intros text mentions. unfold shouldRespondInGroup, shouldRespond_amended.
    rewrite <- containsQuestionWord_stands, <- beginsWithAddress_folded.
    change specVerbs with verbs.
    change (exists v pre post, In v verbs /\ text = pre ++ v ++ post)
      with (containsVerb text).
    rewrite <- testQuestionMark_spec, <- testQuestionWord_spec, <- verbs_spec,
      <- testAddress_spec.
    destruct mentions as [|m ms];
      [change ((0 <? length (@nil json))%nat) with false
      |change ((0 <? length (m :: ms))%nat) with true]; cbv iota.
    + destruct (testQuestionMark text); [tauto|].
      destruct (testQuestionWord (toLowerCase text)); [tauto|].
      destruct (existsb (fun k => includes k text) verbs); [tauto|].
      destruct (testAddress text); [tauto|].
      split; [discriminate|]. intros [H|[H|[H|[H|H]]]]; congruence.
    + split; [left; discriminate | reflexivity].
  - intros text mentions [H|[H|[H|[H|H]]]].
    + left. exact H.
    + right. left. exact H.
    + right. right. left. destruct H as (w & Hin & pre & w' & post & H1 & H2 & _).
      exists w. split; [exact Hin|]. exists pre, w', post. auto.
    + right. right. right. left. exact H.
    + right. right. right. right.
      destruct H as (a & a' & c & rest & Hin & H1 & H2 & Hsep).
      exists a, a', c, rest. split; [exact Hin|]. split; [exact H1|]. split; [exact H2|].
      destruct Hsep as [Hs|[->|[->|[->| ->]]]]; [left; exact Hs | right ..]; reflexivity.
Qed.

(** The wording of the specification says yes to "bot! hi" (an address
    term followed by a punctuation mark) and to "somehow" (it contains
    the question word "how"); the code says no to both. *)
Lemma claimed_filter_answers_more :
  (shouldRespond_claimed (js "bot! hi") []
   /\ shouldRespondInGroup (js "bot! hi") [] = false)
  /\ (shouldRespond_claimed (js "somehow") []
      /\ shouldRespondInGroup (js "somehow") [] = false).
Proof.
  split; split; try reflexivity.
  - right. right. right. right.
    exists (js "bot"), (js "bot"), 33, (js " hi").
    split; [right; left; reflexivity|]. split; [reflexivity|]. split; [reflexivity|].
    right. reflexivity.
  - right. right. left. exists (js "how").
    split; [right; left; reflexivity|].
    exists (js "some"), (js "how"), []. split; reflexivity.
Qed.

(** ** The message handler *)

(** *** Stripping mention tokens *)

Lemma dropWhile_length {A} (p : A -> bool) l : (length (dropWhile p l) <= length l)%nat.
Proof. induction l as [|x l IH]; simpl; [lia|]. destruct (p x); simpl; lia. Qed.

Lemma dropWhile_stops {A} (p : A -> bool) pre rest :
  forallb p pre = true ->
  (forall c r, rest = c :: r -> p c = false) ->
  dropWhile p (pre ++ rest) = rest.
Proof.
  intros Hpre Hrest. induction pre as [|x pre IH]; simpl in *.
  - destruct rest as [|c r]; [reflexivity|]. simpl. rewrite (Hrest c r eq_refl). reflexivity.
  - apply andb_true_iff in Hpre as [-> Hpre]. auto.
Qed.

Lemma matchMention_shorter s rest :
  matchMention s = Some rest -> (length rest < length s)%nat.
Proof.
  unfold matchMention. destruct (startsWith (js "@_user_") s) eqn:E; [|discriminate].
  apply startsWith_spec in E as [t ->].
  change (drop 7 (js "@_user_" ++ t)) with t.
  destruct t as [|d r]; [discriminate|]. destruct (isDigit d); [|discriminate].
  intros [= <-].
  pose proof (dropWhile_length isWhiteSpace (dropWhile isDigit r)).
  pose proof (dropWhile_length isDigit r).
  rewrite length_app. simpl. lia.
Qed.

Lemma stripMentionsFrom_fuel fuel1 : forall fuel2 s,
  (length s <= fuel1)%nat -> (length s <= fuel2)%nat ->
  stripMentionsFrom fuel1 s = stripMentionsFrom fuel2 s.
Proof.
  induction fuel1 as [|f1 IH]; intros fuel2 s H1 H2.
  - destruct s; [|simpl in H1; lia]. destruct fuel2; reflexivity.
  - destruct s as [|c r]; [destruct fuel2; reflexivity|].
    destruct fuel2 as [|f2]; [simpl in H2; lia|].
    simpl in H1, H2. cbn [stripMentionsFrom].
    destruct (matchMention (c :: r)) as [rest|] eqn:E.
    + apply matchMention_shorter in E. simpl in E. apply IH; lia.
    + f_equal. apply IH; lia.
Qed.

(** The replacement, one step at a time: at a match the match is
    dropped, elsewhere a unit is kept. *)
Lemma stripMentions_cons c r :
  stripMentions (c :: r)
  = match matchMention (c :: r) with
    | Some rest => stripMentions rest
    | None => c :: stripMentions r
    end.
Proof.
  unfold stripMentions. cbn [length stripMentionsFrom].
  destruct (matchMention (c :: r)) as [rest|] eqn:E; [|reflexivity].
  apply matchMention_shorter in E. simpl in E.
  apply stripMentionsFrom_fuel; lia.
Qed.

Lemma whiteSpace_not_digit c : isWhiteSpace c = true -> isDigit c = false.
Proof.
  unfold isWhiteSpace, isDigit. rewrite !orb_true_iff, !andb_true_iff, !N.leb_le, !N.eqb_eq.
  intros H. apply andb_false_iff. rewrite !N.leb_gt. lia.
Qed.

(** A token [@_user_N] with the white space after it is removed. *)
Lemma stripMentions_token ds ws rest :
  ds <> [] ->
  forallb isDigit ds = true ->
  forallb isWhiteSpace ws = true ->
  (forall c r, rest = c :: r -> isDigit c = false /\ isWhiteSpace c = false) ->
  stripMentions (js "@_user_" ++ ds ++ ws ++ rest) = stripMentions rest.
Proof.
  intros Hne Hds Hws Hrest.
  change (js "@_user_" ++ ds ++ ws ++ rest)
    with (64 :: (js "_user_" ++ ds ++ ws ++ rest)).
  rewrite stripMentions_cons.
  change (64 :: (js "_user_" ++ ds ++ ws ++ rest))
    with (js "@_user_" ++ ds ++ ws ++ rest).
  unfold matchMention.
  replace (startsWith (js "@_user_") (js "@_user_" ++ ds ++ ws ++ rest)) with true
    by (symmetry; apply startsWith_spec; eauto).
  change (drop 7 (js "@_user_" ++ ds ++ ws ++ rest)) with (ds ++ ws ++ rest).
  destruct ds as [|d ds]; [congruence|]. simpl in Hds.
  apply andb_true_iff in Hds as [Hd Hds]. cbn [app]. rewrite Hd.
  rewrite (dropWhile_stops isDigit ds (ws ++ rest)); [|assumption|].
  - rewrite (dropWhile_stops isWhiteSpace ws rest); [reflexivity|assumption|].
    intros c r E. apply (Hrest c r E).
  - intros c r E. destruct ws as [|w ws].
    + apply (Hrest c r E).
    + injection E as <- _. simpl in Hws. apply andb_true_iff in Hws as [Hw _].
      apply whiteSpace_not_digit. assumption.
Qed.

(** Text before the first [@] is kept as it is. *)
Lemma stripMentions_plain pre s :
  ~ In 64 pre -> stripMentions (pre ++ s) = pre ++ stripMentions s.
Proof.
  induction pre as [|c pre IH]; intros Hno; [reflexivity|].
  cbn [app]. rewrite stripMentions_cons.
  assert (Hc : c <> 64) by (intros ->; apply Hno; left; reflexivity).
  assert (E : matchMention (c :: pre ++ s) = None).
  { unfold matchMention. change (js "@_user_") with (64 :: js "_user_").
    cbn [startsWith]. rewrite (proj2 (N.eqb_neq 64 c)) by congruence. reflexivity. }
  rewrite E. f_equal. apply IH. intros H. apply Hno. right. assumption.
Qed.

(** *** The placeholder and the empty reply *)

(** Once the exchange has completed with a reply that is empty or ends
    in the sentinel, the handler deletes the placeholder whose id it has
    recorded and calls the SDK for nothing else. *)
Lemma deliver_no_reply env chatId placeholder o :
  isNoReply (trim (replyOf env o).1) = true ->
  deliver env chatId placeholder o
  = if nonEmpty placeholder then [DeleteMessage placeholder] else [].
Proof. unfold deliver. intros ->. reflexivity. Qed.

(** The turn in which the exchange completes with such a reply adds the
    deletion of the recorded placeholder and nothing else: no text, no
    image. *)
Lemma exchange_settles_no_reply env p o :
  done p = false ->
  isNoReply (trim (replyOf env o).1) = true ->
  calls (pendingStep env p (ExchangeSettles o))
  = calls p ++ (if nonEmpty (placeholderId p)
                then [DeleteMessage (placeholderId p)] else []).
Proof.
  intros Hd Hn. unfold pendingStep. rewrite Hd. simpl.
  rewrite deliver_no_reply by assumption. reflexivity.
Qed.

(** C7, at the input on which the code fails it.  The timer fires, and
    while the callback is still waiting for its [create] call the
    exchange completes with the reply "NO_REPLY": [placeholderId] is
    still empty, so nothing is deleted, and the "Thinking…" message
    stays in the conversation.  With the same two events in the other
    order the placeholder is deleted. *)
Theorem placeholder_left_when_create_in_flight :
  calls (pendingRun sampleRouterEnv (startPending sampleRouterEnv (js "oc_1"))
           [TimerFires;
            ExchangeSettles (Resolved (js "NO_REPLY") (JArr []));
            PlaceholderReturns (Some (js "om_2"))])
  = [CreateText (js "oc_1") (js "Thinking…")]
  /\ calls (pendingRun sampleRouterEnv (startPending sampleRouterEnv (js "oc_1"))
              [TimerFires;
               PlaceholderReturns (Some (js "om_2"));
               ExchangeSettles (Resolved (js "NO_REPLY") (JArr []))])
     = [CreateText (js "oc_1") (js "Thinking…"); DeleteMessage (js "om_2")].
Proof. split; vm_compute; reflexivity. Qed.

(** *** Mention tokens *)

(** C8, as the code has it.  For a message that is not a duplicate and
    has content: in a group, the mention tokens are stripped from the
    extracted text, and the stripped and trimmed text is what the
    relevance filter, the two commands, the session and the gateway
    get; in any other chat the handler goes on with the extracted text
    as it is.  Stripping removes a token [@_user_N] together with the
    white space after it and keeps what stands before the first [@]. *)
Theorem mentions_stripped_in_groups env b m c cr text mediaPath :
  chat_id m = Some (c :: cr) ->
  (isDuplicate (nowDedup env) (message_id m) (seen b)).1 = false ->
  extractContent env m = Some (text, mediaPath) ->
  nonEmpty text || hasMedia mediaPath = true ->
  handleMessageRoute env b (Some m)
  = (let b1 := {| seen := (isDuplicate (nowDedup env) (message_id m) (seen b)).2;
                  sessionOverrides := sessionOverrides b |} in
     if isLit (chat_type m) "group"
     then routeWith env b1 m (c :: cr) (trim (stripMentions text)) mediaPath true
     else routeWith env b1 m (c :: cr) text mediaPath false)
  /\ (forall pre ds ws rest,
        ~ In 64 pre ->
        ds <> [] -> forallb isDigit ds = true -> forallb isWhiteSpace ws = true ->
        (forall d r, rest = d :: r -> isDigit d = false /\ isWhiteSpace d = false) ->
        stripMentions (pre ++ js "@_user_" ++ ds ++ ws ++ rest)
        = pre ++ stripMentions rest).
Proof.
  intros Hc Hd He Hne. split.
  - unfold handleMessageRoute. rewrite Hc, Hd, He.
    replace (negb (nonEmpty text) && negb (hasMedia mediaPath)) with false
      by (destruct (nonEmpty text), (hasMedia mediaPath); try reflexivity; discriminate).
    unfold afterExtraction, routeWith. cbv zeta.
    destruct (isLit (chat_type m) "group"); [|reflexivity].
    simpl andb.
    destruct (negb (nonEmpty (trim (stripMentions text))) && negb (hasMedia mediaPath));
      [reflexivity|].
    simpl orb.
    destruct (negb (hasMedia mediaPath)
              && negb (shouldRespondInGroup (trim (stripMentions text)) (mentionList m)));
      reflexivity.
  - intros pre ds ws rest Hpre Hds Hdig Hws Hrest.
    rewrite stripMentions_plain by assumption.
    rewrite stripMentions_token by assumption. reflexivity.
Qed.

(** In a direct chat the text "@_user_1 hello" goes to the gateway with
    its mention token, though stripping would leave "hello". *)
Lemma direct_chat_keeps_mention_token :
  (handleMessageRoute sampleRouterEnv emptyBridge
     (Some (sampleMessage "p2p" "@_user_1 hello" [botMention]))).2
  = CallGateway (js "oc_1")
      {| ask_text := js "@_user_1 hello";
         ask_sessionKey := js "larksuite:oc_1";
         ask_mediaPath := None |}
  /\ trim (stripMentions (js "@_user_1 hello")) = js "hello".
Proof. split; vm_compute; reflexivity. Qed.

(** *** The reset command in a group *)

(** C10.  A group message without media and without mentions whose text
    is exactly "/reset" does not pass the relevance filter, which comes
    before the commands: the handler returns, the session map is as it
    was and no SDK call has been made, whatever happens afterwards. *)
Theorem group_reset_without_mention_is_ignored env b m mediaPath ticks :
  isLit (chat_type m) "group" = true ->
  mentionList m = [] ->
  extractContent env m = Some (js "/reset", mediaPath) ->
  hasMedia mediaPath = false ->
  (handleMessageRoute env b (Some m)).2 = Return
  /\ sessionOverrides (handleMessage env b (Some m) ticks).1 = sessionOverrides b
  /\ (handleMessage env b (Some m) ticks).2 = [].
Proof.
  intros Hg Hm He Hmedia.
  assert (H : exists s, handleMessageRoute env b (Some m)
                        = ({| seen := s; sessionOverrides := sessionOverrides b |}, [], Return)).
  { unfold handleMessageRoute.
    destruct (chat_id m) as [[|c cr]|]; try (destruct b; eauto; fail).
    destruct (isDuplicate _ _ _).1; [eauto|].
    rewrite He. change (negb (nonEmpty (js "/reset"))) with false. simpl andb.
    unfold afterExtraction. rewrite Hg, Hm, Hmedia.
    change (trim (stripMentions (js "/reset"))) with (js "/reset").
    change (shouldRespondInGroup (js "/reset") []) with false.
    simpl. eauto. }
  destruct H as [s H]. unfold handleMessage. rewrite H. simpl. auto.
Qed.

Lemma mentions_stripped_in_groups_witness :
  handleMessageRoute sampleRouterEnv emptyBridge
    (Some (sampleMessage "group" "@_user_1 /reset" [botMention]))
  = ({| seen := {[ js "om_1" := 1700000000000%Z ]};
        sessionOverrides := {[ js "oc_1" := toString36 1700000000500 ]} |},
     [CreateText (js "oc_1") (js "✅ Session 已重置，開始新對話。")],
     Return).
Proof.
  rewrite (proj1 (mentions_stripped_in_groups sampleRouterEnv emptyBridge
                    (sampleMessage "group" "@_user_1 /reset" [botMention])
                    111 (js "c_1") (js "@_user_1 /reset") None
                    eq_refl eq_refl eq_refl eq_refl)).
  reflexivity.
Defined.

Lemma group_reset_without_mention_is_ignored_witness :
  (handleMessageRoute sampleRouterEnv emptyBridge
     (Some (sampleMessage "group" "/reset" []))).2 = Return
  /\ sessionOverrides
       (handleMessage sampleRouterEnv emptyBridge
          (Some (sampleMessage "group" "/reset" [])) [TimerFires]).1 = ∅
  /\ (handleMessage sampleRouterEnv emptyBridge
        (Some (sampleMessage "group" "/reset" [])) [TimerFires]).2 = [].
Proof.
  apply (group_reset_without_mention_is_ignored sampleRouterEnv emptyBridge
           (sampleMessage "group" "/reset" []) None [TimerFires]); reflexivity.
Defined.

(** ** The webhook server *)

(** What the token test does cover.  For a POST request whose body,
    parsed and decrypted, is not a [url_verification] challenge: when a
    verification token is configured and the body carries a top-level
    token, a truthy one, that is not the configured token, the answer is
    401 and no event is handed to the message handler; when the
    top-level token of the body is missing or falsy, the answer is 200,
    whatever token is configured. *)
Lemma token_mismatch_is_rejected env req b :
  method req = js "POST" ->
  decodeBody env (bodyText req) = inl b ->
  isStr (prop "type" b) "url_verification" = false ->
  (VERIFICATION_TOKEN env <> [] ->
   truthy (prop "token" b) = true ->
   strictEq (prop "token" b) (Some (JStr (VERIFICATION_TOKEN env))) = false ->
   status (server env req) = 401 /\ dispatched (server env req) = None)
  /\ (truthy (prop "token" b) = false -> status (server env req) = 200).
Proof.
  intros Hm Hb Htype. unfold server. rewrite Hm, Hb.
  change (bool_decide (js "POST" = js "GET")) with false.
  change (bool_decide (js "POST" = js "POST")) with true. simpl andb. cbv iota.
  unfold serveBody. rewrite Htype. split.
  - intros Htok Htruthy Hneq. rewrite Htruthy, Hneq.
    destruct (VERIFICATION_TOKEN env); [congruence|]. split; reflexivity.
  - intros ->. rewrite andb_false_r. reflexivity.
Qed.

(** With the token "secret" configured, the server answers 200 and hands
    the event to the message handler when the body has no top-level
    token (the wrong one sits under [header]) and when its top-level
    token is the empty string; and it answers a [url_verification] body
    that has a wrong token with 200 and the challenge. *)
Lemma token_mismatch_is_served :
  (status (server sampleServerEnv (post v2Body)) = 200
   /\ dispatched (server sampleServerEnv (post v2Body)) = Some sampleEvent)
  /\ (status (server sampleServerEnv (post emptyTokenBody)) = 200
      /\ dispatched (server sampleServerEnv (post emptyTokenBody)) = Some sampleEvent)
  /\ (status (server sampleServerEnv (post challengeBody)) = 200
      /\ body (server sampleServerEnv (post challengeBody))
         = BodyJSON (JObj [(js "challenge", JStr (js "c1"))])).
Proof. repeat split; vm_compute; reflexivity. Qed.

Lemma token_mismatch_is_rejected_witness :
  status (server sampleServerEnv (post wrongTokenBody)) = 401
  /\ dispatched (server sampleServerEnv (post wrongTokenBody)) = None.
Proof.
  apply (proj1 (token_mismatch_is_rejected sampleServerEnv (post wrongTokenBody)
                  (JObj [(js "token", JStr (js "wrong"));
                         (js "header", sampleHeader []);
                         (js "event", sampleEvent)])
                  eq_refl eq_refl eq_refl)).
  - discriminate.
  - reflexivity.
  - reflexivity.
Defined.

(** C9, at the input on which the code fails it.  The token test reads
    the top-level [token] of the body only.  An event envelope of schema
    2.0 carries its token under [header], so for such a body -- no
    top-level token, an event, [header.event_type] naming the message
    event -- the server answers 200 and hands the event to the message
    handler whatever token is configured and whatever token the header
    carries.  With the token "secret" configured, the envelope whose
    header carries the token "wrong" is answered 200 and its event is
    handled. *)
Theorem header_token_is_not_verified :
  (forall env req b e,
      method req = js "POST" ->
      decodeBody env (bodyText req) = inl b ->
      isStr (prop "type" b) "url_verification" = false ->
      prop "token" b = None ->
      prop "event" b = Some e -> truthy (Some e) = true ->
      oprop "event_type" (prop "header" b) = Some (JStr (js "im.message.receive_v1")) ->
      status (server env req) = 200 /\ dispatched (server env req) = Some e)
  /\ (VERIFICATION_TOKEN sampleServerEnv = js "secret"
      /\ decodeBody sampleServerEnv (bodyText (post v2Body))
         = inl (JObj [(js "header", sampleHeader [(js "token", JStr (js "wrong"))]);
                      (js "event", sampleEvent)])
      /\ status (server sampleServerEnv (post v2Body)) = 200
      /\ body (server sampleServerEnv (post v2Body)) = BodyJSON (JObj [(js "ok", JBool true)])
      /\ dispatched (server sampleServerEnv (post v2Body)) = Some sampleEvent).
Proof.
  split.
  - intros env req b e Hm Hb Htype Htok He Htr Hty. unfold server. rewrite Hm, Hb.
    change (bool_decide (js "POST" = js "GET")) with false.
    change (bool_decide (js "POST" = js "POST")) with true. cbn [andb negb]. cbv iota.
    unfold serveBody. rewrite Htype, Htok.
    change (truthy None) with false. rewrite andb_false_r. cbn [andb].
    cbn [status dispatched]. rewrite He, Htr, Hty.
    change (truthy (Some (JStr (js "im.message.receive_v1")))) with true. cbv iota.
    change (isStr (Some (JStr (js "im.message.receive_v1"))) "im.message.receive_v1")
      with true.
    split; reflexivity.
  - repeat split; vm_compute; reflexivity.
Qed.

(* ================================================================== *)
(** * Further properties *)
(* ================================================================== *)

(** ** Trimming *)

Lemma dropWhile_head {A} (p : A -> bool) l x r :
  dropWhile p l = x :: r -> p x = false.
Proof.
  induction l as [|y l IH]; simpl; [discriminate|].
  destruct (p y) eqn:E; [exact IH|]. intros [= <- _]. exact E.
Qed.

Lemma dropWhile_suffix {A} (p : A -> bool) l :
  exists pre, l = pre ++ dropWhile p l /\ forallb p pre = true.
Proof.
  induction l as [|y l [pre [IH1 IH2]]]; simpl.
  - exists []. auto.
  - destruct (p y) eqn:E.
    + exists (y :: pre). simpl. rewrite E, IH2. split; [congruence | reflexivity].
    + exists []. auto.
Qed.

Lemma dropWhile_keep {A} (p : A -> bool) x r :
  p x = false -> dropWhile p (x :: r) = x :: r.
Proof. intros H. simpl. rewrite H. reflexivity. Qed.

(** What [trim] returns neither begins nor ends with white space. *)
Lemma trim_trimmed s : trimmed (trim s).
Proof.
  unfold trim, trimEnd, trimStart.
  destruct (dropWhile_suffix isWhiteSpace (rev (dropWhile isWhiteSpace s)))
    as (w & Hw & _).
  set (u := dropWhile isWhiteSpace s) in *.
  set (v := dropWhile isWhiteSpace (rev u)) in *.
  split.
  - intros c r Hc.
    assert (Hu : u = rev v ++ rev w).
    { rewrite <- (rev_involutive u), Hw, rev_app_distr. reflexivity. }
    rewrite Hc in Hu. simpl in Hu. apply (dropWhile_head isWhiteSpace s c (r ++ rev w)).
    exact Hu.
  - intros c r Hc. rewrite rev_involutive in Hc.
    apply (dropWhile_head isWhiteSpace (rev u) c r). exact Hc.
Qed.

(** [trim] leaves such a string as it is. *)
Lemma trimmed_trim s : trimmed s -> trim s = s.
Proof.
  intros [Hh Hl]. unfold trim, trimEnd, trimStart.
  assert (H1 : dropWhile isWhiteSpace s = s).
  { destruct s as [|c r]; [reflexivity|]. apply dropWhile_keep. eapply Hh. reflexivity. }
  rewrite H1.
  assert (H2 : dropWhile isWhiteSpace (rev s) = rev s).
  { destruct (rev s) as [|c r] eqn:E; [reflexivity|]. apply dropWhile_keep. eapply Hl. reflexivity. }
  rewrite H2. apply rev_involutive.
Qed.

Lemma trim_idempotent s : trim (trim s) = trim s.
Proof. apply trimmed_trim, trim_trimmed. Qed.

(** ** Paths, files and start-up *)

Lemma substitute_plain m b a r : ~ In 36 r -> substitute m b a r = r.
Proof.
  induction r as [|c t IH]; [reflexivity|]. intros Hn.
  assert (Hc : c <> 36) by (intros ->; apply Hn; left; reflexivity).
  assert (Ht : ~ In 36 t) by (intros H; apply Hn; right; exact H).
  specialize (IH Ht).
  change (substitute m b a (c :: t))
    with (match c with
          | 36 => match t with
                  | 36 :: t' => 36 :: substitute m b a t'
                  | 38 :: t' => m ++ substitute m b a t'
                  | 96 :: t' => b ++ substitute m b a t'
                  | 39 :: t' => a ++ substitute m b a t'
                  | _ => c :: substitute m b a t
                  end
          | _ => c :: substitute m b a t
          end).
  destruct c as [|p]; [rewrite IH; reflexivity|].
  do 6 (destruct p as [p|p|]; try (rewrite IH; reflexivity)).
  exfalso. apply Hc. reflexivity.
Qed.

(** X1. [resolve] puts the home directory in the place of a leading
    tilde and leaves every other path alone; for a home directory that
    holds no dollar sign and does not itself begin with a tilde,
    resolving a resolved path changes nothing (as [mustRead] does with
    the configuration path, which start-up has already resolved). *)
Theorem resolve_twice (c : N) (h p : list N) :
  c <> 126 -> ~ In 36 (c :: h) ->
  resolve (c :: h) (resolve (c :: h) p) = resolve (c :: h) p
  /\ (forall rest, p = 126 :: rest -> resolve (c :: h) p = (c :: h) ++ rest)
  /\ (startsWith [126] p = false -> resolve (c :: h) p = p).
Proof.
  intros Hc Hd.
  assert (Htilde : forall rest, resolve (c :: h) (126 :: rest) = (c :: h) ++ rest).
  { intros rest. unfold resolve. rewrite (substitute_plain _ _ _ _ Hd). reflexivity. }
  assert (Hother : forall q, startsWith [126] q = false -> resolve (c :: h) q = q).
  { intros q Hq. unfold resolve. destruct q as [|x q]; [reflexivity|].
    destruct (N.eq_dec x 126) as [->|Hx]; [discriminate Hq|].
    destruct x as [|x]; [reflexivity|].
    do 7 (destruct x as [x|x|]; try reflexivity). exfalso. apply Hx. reflexivity. }
  assert (Hsw : forall x q, x <> 126 -> startsWith [126] (x :: q) = false).
  { intros x q Hx. change (startsWith [126] (x :: q)) with ((126 =? x) && true).
    destruct (N.eqb_spec 126 x) as [E|E]; [congruence|reflexivity]. }
  split; [|split].
  - destruct p as [|x q]; [reflexivity|].
    destruct (N.eq_dec x 126) as [->|Hx].
    + rewrite Htilde. apply Hother. apply Hsw, Hc.
    + rewrite (Hother _ (Hsw x q Hx)). apply Hother, Hsw, Hx.
  - intros rest ->. apply Htilde.
  - apply Hother.
Qed.

Lemma resolve_twice_witness :
  resolve sampleHome (resolve sampleHome (js "~/.moltbot/moltbot.json"))
  = resolve sampleHome (js "~/.moltbot/moltbot.json")
  /\ resolve sampleHome (js "~/.moltbot/moltbot.json") = js "/home/bot/.moltbot/moltbot.json".
Proof.
  assert (Hc : (47 : N) <> 126) by discriminate.
  assert (Hd : ~ In 36 sampleHome).
  { vm_compute. intros H. repeat (destruct H as [H|H]; [discriminate H|]). exact H. }
  split.
  - exact (proj1 (resolve_twice 47 (js "home/bot") (js "~/.moltbot/moltbot.json") Hc Hd)).
  - reflexivity.
Defined.

Lemma trim_cons_trimmed s x t : trim s = x :: t -> trim (x :: t) = x :: t.
Proof. intros <-. apply trim_idempotent. Qed.

(** X2. The two file readers agree: [mustRead] returns a value exactly
    when [tryReadFile] does, the same one, and that value is not empty
    and has no white space around it; where [mustRead] ends the process,
    [tryReadFile] returns [null] and the message logged names the
    resolved path. *)
Theorem mustRead_agrees_with_tryReadFile (h : list N) (files : gmap (list N) (list N))
    (p label : list N) :
  match mustRead h files p label with
  | inr v => tryReadFile h files p = Some v /\ v <> [] /\ trim v = v
             /\ exists c, files !! resolve h p = Some c /\ v = trim c
  | inl (Fatal msg) =>
    tryReadFile h files p = None
    /\ exists what, msg = js "[FATAL] " ++ label ++ what ++ resolve h p
  end.
Proof.
  unfold mustRead, tryReadFile.
  destruct (files !! resolve h p) as [c|] eqn:E.
  - destruct (trim c) as [|x t] eqn:Et.
    + split; [reflexivity|]. exists (js " is empty: "). reflexivity.
    + split; [reflexivity|]. split; [discriminate|]. split.
      * eapply trim_cons_trimmed. exact Et.
      * exists c. split; [reflexivity|]. symmetry. exact Et.
  - split; [reflexivity|]. exists (js " not found: "). reflexivity.
Qed.

Lemma orElse_truthy a b : truthy (Some b) = true -> truthy (Some (orElse a b)) = true.
Proof.
  intros Hb. unfold orElse. destruct a as [j|]; [|exact Hb].
  destruct (truthy (Some j)) eqn:E; [exact E | exact Hb].
Qed.

(** X3. Start-up reaches the server only with a checked configuration:
    the media directory is there, the application id is the non-empty
    value of its environment variable, the secret is not empty, the
    configuration file named by the resolved path could be read and
    parsed, its [gateway.auth.token] is truthy and is the token used,
    and the gateway port is truthy (the configured one or 18789). *)
Theorem startup_runs_checked (env : gmap (list N) (list N)) (h : list N)
    (files : gmap (list N) (list N)) (parse : list N -> option json)
    (ready : bool) (c : config) :
  startup env h files parse ready = Runs c ->
  ready = true
  /\ env !! js "LARKSUITE_APP_ID" = Some (cfg_APP_ID c) /\ cfg_APP_ID c <> []
  /\ cfg_APP_SECRET c <> []
  /\ (exists text cfg,
        mustRead h files (cfg_CONFIG_PATH c) (js "Moltbot config") = inr text
        /\ parse text = Some cfg
        /\ oprop "token" (oprop "auth" (prop "gateway" cfg)) = Some (cfg_GATEWAY_TOKEN c))
  /\ truthy (Some (cfg_GATEWAY_TOKEN c)) = true
  /\ truthy (Some (cfg_GATEWAY_PORT c)) = true.
Proof.
  unfold startup. destruct ready; [|discriminate]. cbn [negb].
  destruct (env !! js "LARKSUITE_APP_ID") as [[|a id]|] eqn:Eid; try discriminate.
  set (secret := match env !! js "LARKSUITE_APP_SECRET" with
                 | Some (x :: s) => Some (x :: s)
                 | _ => tryReadFile h files _
                 end).
  assert (Hsecret : forall sec, secret = Some sec -> sec <> []).
  { intros sec. unfold secret, tryReadFile.
    destruct (env !! js "LARKSUITE_APP_SECRET") as [[|x s]|].
    - destruct (files !! _) as [f|]; [|discriminate].
      destruct (trim f); [discriminate|]. intros [= <-]. discriminate.
    - intros [= <-]. discriminate.
    - destruct (files !! _) as [f|]; [|discriminate].
      destruct (trim f); [discriminate|]. intros [= <-]. discriminate. }
  destruct secret as [sec|]; [|discriminate]. specialize (Hsecret sec eq_refl).
  destruct (mustRead h files _ (js "Moltbot config")) as [f|text] eqn:Eread; [discriminate|].
  destruct (parse text) as [cfg|] eqn:Eparse; [|discriminate].
  destruct (oprop "token" (oprop "auth" (oprop "gateway" (Some cfg)))) as [tok|] eqn:Etok;
    [|discriminate].
  destruct (truthy (Some tok)) eqn:Et; [|discriminate].
  intros [= <-]. cbn [cfg_APP_ID cfg_APP_SECRET cfg_CONFIG_PATH cfg_GATEWAY_TOKEN cfg_GATEWAY_PORT].
  split; [reflexivity|]. split; [reflexivity|]. split; [discriminate|].
  split; [exact Hsecret|]. split.
  - exists text, cfg. split; [exact Eread|]. split; [exact Eparse|exact Etok].
  - split; [exact Et|]. apply orElse_truthy. reflexivity.
Qed.

Lemma startup_runs_checked_witness :
  startup sampleProcessEnv sampleHome sampleFiles sampleParseConfig true
  = Runs {| cfg_APP_ID := js "cli_1";
            cfg_APP_SECRET := js "s3cret";
            cfg_CONFIG_PATH := js "/home/bot/moltbot.json";
            cfg_MEDIA_DIR := js "/home/bot/.clawdbot/media/larksuite";
            cfg_ENCRYPT_KEY := [];
            cfg_VERIFICATION_TOKEN := [];
            cfg_GATEWAY_PORT := JNum 18789%float;
            cfg_GATEWAY_TOKEN := str "token-1" |}
  /\ cfg_APP_SECRET {| cfg_APP_ID := js "cli_1";
            cfg_APP_SECRET := js "s3cret";
            cfg_CONFIG_PATH := js "/home/bot/moltbot.json";
            cfg_MEDIA_DIR := js "/home/bot/.clawdbot/media/larksuite";
            cfg_ENCRYPT_KEY := [];
            cfg_VERIFICATION_TOKEN := [];
            cfg_GATEWAY_PORT := JNum 18789%float;
            cfg_GATEWAY_TOKEN := str "token-1" |} <> [].
Proof.
  assert (E : startup sampleProcessEnv sampleHome sampleFiles sampleParseConfig true
              = Runs {| cfg_APP_ID := js "cli_1";
            cfg_APP_SECRET := js "s3cret";
            cfg_CONFIG_PATH := js "/home/bot/moltbot.json";
            cfg_MEDIA_DIR := js "/home/bot/.clawdbot/media/larksuite";
            cfg_ENCRYPT_KEY := [];
            cfg_VERIFICATION_TOKEN := [];
            cfg_GATEWAY_PORT := JNum 18789%float;
            cfg_GATEWAY_TOKEN := str "token-1" |}) by (vm_compute; reflexivity).
  split; [exact E|].
  exact (proj1 (proj2 (proj2 (proj2 (startup_runs_checked _ _ _ _ _ _ E))))).
Defined.

(** ** More on the gateway exchange *)

Lemma settled_onAssistant p s : settled (onAssistant p s) = settled s.
Proof. unfold onAssistant. repeat (case_match; simpl); reflexivity. Qed.

Lemma settled_pending_onLifecycle p s :
  settled s = None -> settled (onLifecycle p s) <> None ->
  exists phase : string,
    oprop "phase" (oprop "data" p) = Some (JStr (js phase))
    /\ (phase = "end"%string \/ phase = "error"%string).
Proof.
  intros Hs. unfold onLifecycle.
  destruct (isStr (oprop "phase" (oprop "data" p)) "end") eqn:Hend.
  - intros _. exists "end"%string. split; [apply isStr_true, Hend | left; reflexivity].
  - destruct (isStr (oprop "phase" (oprop "data" p)) "error") eqn:Herr.
    + intros _. exists "error"%string. split; [apply isStr_true, Herr | right; reflexivity].
    + intros H. congruence.
Qed.

(** X4. The promise of [askMoltbot] settles on nothing but the events
    that end an exchange: a pending exchange that a turn leaves settled
    was handed a socket error, a [connect] or [chat.send] response that
    is not ok, or a lifecycle frame of the run with phase "end" or
    "error".  No other frame, and no lapse of time, settles it. *)
Theorem exchange_settles_only_on_end env a s ev s' :
  wsStep env a s ev = Some s' ->
  settled s = None -> settled s' <> None ->
  endsExchange s ev.
Proof.
  intros Hstep Hs Hs'. destruct ev as [parsed|e]; [|constructor].
  cbn [wsStep] in Hstep.
  destruct parsed as [msg|]; [|injection Hstep as <-; contradiction].
  destruct msg as [|b|x|t|items|fs];
    try (cbn in Hstep; injection Hstep as <-; contradiction);
    try discriminate.
  unfold onMessage in Hstep. cbv beta iota in Hstep.
  set (f := JObj fs) in *.
  destruct (isStr (prop "type" f) "event" && isStr (prop "event" f) "connect.challenge");
    [injection Hstep as <-; contradiction|].
  destruct (isStr (prop "type" f) "res" && isStr (prop "id" f) "connect") eqn:E2.
  { apply andb_prop in E2 as [Et Ei].
    destruct (negb (truthy (prop "ok" f))) eqn:Eok;
      [|injection Hstep as <-; contradiction].
    apply ends_connect. split; [split; apply isStr_true; assumption|].
    apply negb_true_iff. exact Eok. }
  destruct (isStr (prop "type" f) "res" && isStr (prop "id" f) "chat-send") eqn:E3.
  { apply andb_prop in E3 as [Et Ei].
    destruct (negb (truthy (prop "ok" f))) eqn:Eok.
    - apply ends_chat_send. split; [split; apply isStr_true; assumption|].
      apply negb_true_iff. exact Eok.
    - exfalso. apply Hs'.
      destruct (oprop "runId" (prop "payload" f)) as [r|];
        [destruct (truthy (Some r))|]; injection Hstep as <-; exact Hs. }
  destruct (isStr (prop "type" f) "event"
            && (isStr (prop "event" f) "agent" || isStr (prop "event" f) "chat")) eqn:E4;
    [|injection Hstep as <-; contradiction].
  apply andb_prop in E4 as [Et Ee].
  destruct (negb (truthy (prop "payload" f))
            || truthy (runId s)
               && negb (strictEq (oprop "runId" (prop "payload" f)) (runId s))) eqn:E5;
    [injection Hstep as <-; contradiction|].
  apply orb_false_elim in E5 as [Ep Efilter].
  apply negb_false_iff in Ep.
  destruct (prop "payload" f) as [p|] eqn:Epay; [|discriminate Ep].
  destruct (isStr (oprop "stream" (Some p)) "assistant") eqn:Ea.
  { injection Hstep as <-. rewrite settled_onAssistant in Hs'. contradiction. }
  destruct (isStr (oprop "stream" (Some p)) "lifecycle") eqn:El;
    [|injection Hstep as <-; contradiction].
  injection Hstep as <-.
  destruct (settled_pending_onLifecycle _ _ Hs Hs') as (phase & Hph & Hphase).
  destruct (oprop "data" (Some p)) as [d|] eqn:Ed; [|discriminate Hph].
  apply (ends_lifecycle s f p d phase).
  - apply isStr_true in Et.
    apply orb_prop in Ee as [Ee|Ee]; apply isStr_true in Ee; [left|right]; split; assumption.
  - exact Epay.
  - exact Ep.
  - unfold passesFilter. destruct (truthy (runId s)); [right|left; reflexivity].
    cbn [andb] in Efilter. apply negb_false_iff in Efilter. exact Efilter.
  - apply isStr_true in El. exact El.
  - exact Ed.
  - exact Hph.
  - exact Hphase.
Qed.

Lemma exchange_settles_only_on_end_witness :
  endsExchange streamingExchange
    (OnMessage (Some (streamFrame "r1" "lifecycle" (obj [("phase", str "end")]%string)))).
Proof.
  eapply (exchange_settles_only_on_end sampleGatewayEnv sampleAsk streamingExchange).
  - vm_compute. reflexivity.
  - reflexivity.
  - discriminate.
Defined.

Lemma resolvedTrimmed_settle o s :
  resolvedTrimmed s -> (forall t m, o = Resolved t m -> trim t = t) ->
  resolvedTrimmed (settle o (close s)).
Proof.
  intros Hs Ho t m. unfold settle, close, emit. cbn [settled].
  destruct (settled s) as [o'|] eqn:E.
  - intros [= ->]. apply (Hs t m). exact E.
  - intros [= ->]. apply (Ho t m). reflexivity.
Qed.

Lemma resolvedTrimmed_rejected f s :
  resolvedTrimmed s -> resolvedTrimmed (settle (Rejected f) (close s)).
Proof. intros Hs. apply resolvedTrimmed_settle; [exact Hs | discriminate]. Qed.

Lemma resolvedTrimmed_onLifecycle p s :
  resolvedTrimmed s -> resolvedTrimmed (onLifecycle p s).
Proof.
  intros Hs. unfold onLifecycle.
  destruct (isStr (oprop "phase" (oprop "data" p)) "end") eqn:Hend.
  - rewrite (isStr_end_not_error _ Hend). apply resolvedTrimmed_settle; [exact Hs|].
    intros t m [= <- _]. apply trim_idempotent.
  - destruct (isStr _ "error"); [apply resolvedTrimmed_rejected|]; exact Hs.
Qed.

Lemma resolvedTrimmed_onAssistant p s :
  resolvedTrimmed s -> resolvedTrimmed (onAssistant p s).
Proof. intros Hs t m. rewrite settled_onAssistant. apply Hs. Qed.

Lemma resolvedTrimmed_onMessage env a s parsed s' :
  onMessage env a s parsed = Some s' -> resolvedTrimmed s -> resolvedTrimmed s'.
Proof.
  unfold onMessage. intros H Hs.
  repeat (case_match; try discriminate);
    simplify_eq;
    try apply resolvedTrimmed_rejected;
    try apply resolvedTrimmed_onAssistant;
    try apply resolvedTrimmed_onLifecycle;
    exact Hs.
Qed.

Lemma resolvedTrimmed_wsRun env a evs : forall s s',
  wsRun env a s evs = Some s' -> resolvedTrimmed s -> resolvedTrimmed s'.
Proof.
  induction evs as [|ev evs IH]; simpl; intros s s' Hrun Hs.
  - injection Hrun as <-. exact Hs.
  - destruct (wsStep env a s ev) as [s1|] eqn:Hstep; [|discriminate].
    apply (IH _ _ Hrun). destruct ev as [parsed|e].
    + eapply resolvedTrimmed_onMessage; eassumption.
    + injection Hstep as <-. apply resolvedTrimmed_rejected, Hs.
Qed.

(** X5. Whatever the gateway streams, the text an exchange resolves with
    has no white space at either end: trimming it again, as the handler
    does before it tests for an empty reply, gives back the same text. *)
Theorem resolved_text_is_trimmed env a evs s t m :
  askMoltbot env a evs = Some s ->
  settled s = Some (Resolved t m) ->
  trim t = t /\ trimmed t.
Proof.
  intros Hrun Hs.
  assert (E : trim t = t).
  { apply (resolvedTrimmed_wsRun _ _ _ _ _ Hrun) with (m := m); [|exact Hs].
    intros t' m' H. discriminate H. }
  split; [exact E|]. rewrite <- E. apply trim_trimmed.
Qed.

Lemma resolved_text_is_trimmed_witness :
  option_map settled
    (askMoltbot sampleGatewayEnv sampleAsk
       [OnMessage (Some challengeFrame); OnMessage (Some connectOkFrame);
        OnMessage (Some (chatSendOkFrame "r1"));
        OnMessage (Some (streamFrame "r1" "assistant"
                           (obj [("text", str "  Hello ")]%string)));
        OnMessage (Some (streamFrame "r1" "lifecycle" (obj [("phase", str "end")]%string)))])
  = Some (Some (Resolved (js "Hello") (JArr [])))
  /\ trim (js "Hello") = js "Hello" /\ trimmed (js "Hello").
Proof.
  split; [vm_compute; reflexivity|].
  eapply (resolved_text_is_trimmed sampleGatewayEnv sampleAsk
            [OnMessage (Some challengeFrame); OnMessage (Some connectOkFrame);
             OnMessage (Some (chatSendOkFrame "r1"));
             OnMessage (Some (streamFrame "r1" "assistant"
                                (obj [("text", str "  Hello ")]%string)));
             OnMessage (Some (streamFrame "r1" "lifecycle"
                                (obj [("phase", str "end")]%string)))]).
  - vm_compute. reflexivity.
  - vm_compute. reflexivity.
Defined.

Lemma wsLog_onLifecycle p s :
  wsLog (onLifecycle p s) = wsLog s \/ wsLog (onLifecycle p s) = wsLog s ++ [Close].
Proof.
  unfold onLifecycle.
  destruct (isStr (oprop "phase" (oprop "data" p)) "end") eqn:Hend.
  - rewrite (isStr_end_not_error _ Hend). right; reflexivity.
  - destruct (isStr _ "error"); [right; reflexivity | left; reflexivity].
Qed.

(** What one turn adds to the log of the socket: nothing, one [close()],
    the [connect] request, or, on a [connect] response that is ok, the
    [chat.send] request. *)
Lemma wsStep_log env a s ev s' :
  wsStep env a s ev = Some s' ->
  wsLog s' = wsLog s
  \/ wsLog s' = wsLog s ++ [Close]
  \/ wsLog s' = wsLog s ++ [Send (connectRequest env)]
  \/ (wsLog s' = wsLog s ++ [Send (chatSendRequest env a)]
      /\ exists f, ev = OnMessage (Some f) /\ isResponse f "connect" true).
Proof.
  intros Hstep. destruct ev as [parsed|e];
    [|injection Hstep as <-; right; left; reflexivity].
  cbn [wsStep] in Hstep.
  destruct parsed as [msg|]; [|injection Hstep as <-; left; reflexivity].
  destruct msg as [|b|x|t|items|fs];
    try (cbn in Hstep; injection Hstep as <-; left; reflexivity);
    try discriminate.
  unfold onMessage in Hstep. cbv beta iota in Hstep.
  set (f := JObj fs) in *.
  destruct (isStr (prop "type" f) "event" && isStr (prop "event" f) "connect.challenge");
    [injection Hstep as <-; right; right; left; reflexivity|].
  destruct (isStr (prop "type" f) "res" && isStr (prop "id" f) "connect") eqn:E2.
  { apply andb_prop in E2 as [Et Ei].
    destruct (negb (truthy (prop "ok" f))) eqn:Eok; injection Hstep as <-.
    - right; left; reflexivity.
    - right; right; right. split; [reflexivity|]. exists f. split; [reflexivity|].
      split; [split; apply isStr_true; assumption|].
      apply negb_false_iff. exact Eok. }
  destruct (isStr (prop "type" f) "res" && isStr (prop "id" f) "chat-send").
  { destruct (negb (truthy (prop "ok" f))).
    - injection Hstep as <-. right; left; reflexivity.
    - left. destruct (oprop "runId" (prop "payload" f)) as [r|];
        [destruct (truthy (Some r))|]; injection Hstep as <-; reflexivity. }
  destruct (isStr (prop "type" f) "event"
            && (isStr (prop "event" f) "agent" || isStr (prop "event" f) "chat"));
    [|injection Hstep as <-; left; reflexivity].
  destruct (negb (truthy (prop "payload" f))
            || truthy (runId s)
               && negb (strictEq (oprop "runId" (prop "payload" f)) (runId s)));
    [injection Hstep as <-; left; reflexivity|].
  destruct (isStr (oprop "stream" (prop "payload" f)) "assistant").
  { injection Hstep as <-. left. unfold onAssistant.
    repeat (case_match; simpl); reflexivity. }
  destruct (isStr (oprop "stream" (prop "payload" f)) "lifecycle");
    [|injection Hstep as <-; left; reflexivity].
  apply (inj Some) in Hstep. subst s'.
  destruct (wsLog_onLifecycle (prop "payload" f) s) as [E|E]; rewrite E; auto.
Qed.

Lemma connect_is_not_chat_send env a : connectRequest env <> chatSendRequest env a.
Proof.
  intros H.
  assert (E : prop "id" (connectRequest env) = prop "id" (chatSendRequest env a))
    by (rewrite H; reflexivity).
  vm_compute in E. discriminate E.
Qed.

Lemma wsRun_log env a evs : forall s s',
  wsRun env a s evs = Some s' ->
  exists added,
    wsLog s' = wsLog s ++ added
    /\ Forall (fun e => e = Close \/ e = Send (connectRequest env)
                        \/ e = Send (chatSendRequest env a)) added
    /\ (In (Send (chatSendRequest env a)) added ->
        exists f, In (OnMessage (Some f)) evs /\ isResponse f "connect" true).
Proof.
  induction evs as [|ev evs IH]; simpl; intros s s' Hrun.
  - injection Hrun as <-. exists []. rewrite app_nil_r.
    split; [reflexivity|]. split; [constructor|]. intros [].
  - destruct (wsStep env a s ev) as [s1|] eqn:Hstep; [|discriminate].
    destruct (IH _ _ Hrun) as (added & Hlog & Hall & Hin).
    assert (Hlift : (exists f, In (OnMessage (Some f)) evs /\ isResponse f "connect" true) ->
                    exists f, (ev = OnMessage (Some f) \/ In (OnMessage (Some f)) evs)
                              /\ isResponse f "connect" true).
    { intros (f & H1 & H2). exists f. split; [right; exact H1 | exact H2]. }
    destruct (wsStep_log _ _ _ _ _ Hstep) as [E|[E|[E|[E (f & Eev & Hf)]]]].
    + exists added. rewrite Hlog, E. split; [reflexivity|]. split; [exact Hall|].
      intros H. apply Hlift, Hin, H.
    + exists (Close :: added). rewrite Hlog, E, <- app_assoc.
      split; [reflexivity|]. split; [constructor; [left; reflexivity | exact Hall]|].
      intros [H|H]; [discriminate H | apply Hlift, Hin, H].
    + exists (Send (connectRequest env) :: added). rewrite Hlog, E, <- app_assoc.
      split; [reflexivity|].
      split; [constructor; [right; left; reflexivity | exact Hall]|].
      intros [H|H]; [|apply Hlift, Hin, H].
      exfalso. apply (connect_is_not_chat_send env a).
      exact (f_equal (fun e => match e with Send x => x | Close => JNull end) H).
    + exists (Send (chatSendRequest env a) :: added). rewrite Hlog, E, <- app_assoc.
      split; [reflexivity|].
      split; [constructor; [right; right; reflexivity | exact Hall]|].
      intros _. exists f. split; [left; exact Eev | exact Hf].
Qed.

(** X6. The socket is sent nothing but the two requests, and the
    [chat.send] request, which carries the user's message, is sent only
    when the gateway has answered [connect] with a response that is
    ok. *)
Theorem chat_send_follows_connect env a evs s :
  askMoltbot env a evs = Some s ->
  Forall (fun e => e = Close \/ e = Send (connectRequest env)
                   \/ e = Send (chatSendRequest env a)) (wsLog s)
  /\ (In (Send (chatSendRequest env a)) (wsLog s) ->
      exists f, In (OnMessage (Some f)) evs /\ isResponse f "connect" true).
Proof.
  intros Hrun. destruct (wsRun_log _ _ _ _ _ Hrun) as (added & Hlog & Hall & Hin).
  change (wsLog newExchange) with (@nil wsEffect) in Hlog. simpl in Hlog.
  rewrite Hlog. split; [exact Hall | exact Hin].
Qed.

Lemma chat_send_follows_connect_witness :
  exists f, In (OnMessage (Some f))
              [OnMessage (Some challengeFrame); OnMessage (Some connectOkFrame)]
            /\ isResponse f "connect" true.
Proof.
  eapply (chat_send_follows_connect sampleGatewayEnv sampleAsk
            [OnMessage (Some challengeFrame); OnMessage (Some connectOkFrame)]).
  - vm_compute. reflexivity.
  - right. left. reflexivity.
Defined.

Lemma imageNote_cons :
  exists r, js (String "010" (String "010" "[用戶傳送了一張圖片，請用 image tool 讀取: ")) = 10 :: r.
Proof. eexists. vm_compute. reflexivity. Qed.

(** X7. The message of the [chat.send] request begins with the text the
    handler passed, and it is empty only when that text is empty and
    either no image came with it or the copy of the image into the
    agent workspace failed. *)
Theorem chatMessage_keeps_text env a :
  (exists note, chatMessage env a = ask_text a ++ note)
  /\ (chatMessage env a = []
      <-> ask_text a = []
          /\ match ask_mediaPath a with
             | Some (c :: p) => copyToWorkspace env (c :: p) = None
             | _ => True
             end).
Proof.
  unfold chatMessage.
  destruct (ask_mediaPath a) as [[|c p]|].
  - split; [exists []; symmetry; apply app_nil_r | tauto].
  - destruct (copyToWorkspace env (c :: p)) as [[w [|]]|].
    + destruct imageNote_cons as [r Hr]. rewrite Hr.
      destruct (ask_text a) as [|x t]; cbn [app].
      * split; [eexists; reflexivity|].
        split; [intros H; discriminate H | intros [_ H]; discriminate H].
      * split; [eexists; reflexivity|].
        split; [intros H; discriminate H | intros [H _]; discriminate H].
    + destruct (ask_text a) as [|x t].
      * split; [exists (js "(image)"); reflexivity|].
        split; [intros H; apply (f_equal (@length N)) in H; vm_compute in H; discriminate H
               | intros [_ H]; discriminate H].
      * split; [exists []; symmetry; apply app_nil_r|].
        split; [intros H; discriminate H | intros [H _]; discriminate H].
    + split; [exists []; symmetry; apply app_nil_r | tauto].
  - split; [exists []; symmetry; apply app_nil_r | tauto].
Qed.

Lemma passesFilter_same_run s p r :
  runId s = Some (JStr r) -> prop "runId" p = Some (JStr r) -> passesFilter s p.
Proof.
  intros Hs Hp. unfold passesFilter. rewrite Hs, Hp. right.
  apply bool_decide_eq_true. reflexivity.
Qed.

Lemma delta_frame_appends env a s r f dl :
  runId s = Some (JStr r) -> isDeltaFrame r f dl ->
  exists s', onMessage env a s (Some f) = Some s'
             /\ buf s' = buf s ++ dl /\ runId s' = runId s
             /\ settled s' = settled s /\ wsLog s' = wsLog s.
Proof.
  intros Hs (d & Hev & Hnt & Hdl).
  apply isStreamEvent_payload in Hev as (p & Hev & Hp & Htr & Hr & Hst & Hd).
  destruct (prop_is_object _ _ _ Hdl) as [fs ->].
  rewrite (onMessage_stream _ _ s _ _ Hev Hp Htr) by (eapply passesFilter_same_run; eauto).
  rewrite Hst. change (isStr (Some (JStr (js "assistant"))) "assistant") with true. cbv iota.
  eexists. split; [reflexivity|].
  unfold onAssistant. cbn [oprop]. rewrite Hd.
  change (orElse (Some (JObj fs)) (JObj [])) with (JObj fs). cbv zeta.
  rewrite Hdl.
  destruct (prop "text" (JObj fs)) as [[]|] eqn:Et;
    try (exfalso; eapply Hnt; reflexivity);
    (destruct (prop "mediaUrls" (JObj fs)) as [m|]; [destruct (truthy (Some m))|];
     cbn; auto).
Qed.

Lemma wsRun_app env a evs1 : forall s s1 evs2,
  wsRun env a s evs1 = Some s1 ->
  wsRun env a s (evs1 ++ evs2) = wsRun env a s1 evs2.
Proof.
  induction evs1 as [|ev evs1 IH]; simpl; intros s s1 evs2 H.
  - injection H as <-. reflexivity.
  - destruct (wsStep env a s ev) as [s0|]; [|discriminate]. apply IH, H.
Qed.

Lemma delta_frames_append env a r frames deltas :
  Forall2 (isDeltaFrame r) frames deltas ->
  forall s, runId s = Some (JStr r) ->
  exists s', wsRun env a s (map (fun f => OnMessage (Some f)) frames) = Some s'
             /\ buf s' = buf s ++ concat deltas /\ runId s' = runId s
             /\ settled s' = settled s /\ wsLog s' = wsLog s.
Proof.
  induction 1 as [|f dl frames deltas Hf _ IH]; intros s Hs.
  - exists s. cbn. rewrite app_nil_r. auto.
  - destruct (delta_frame_appends env a s r f dl Hs Hf) as (s1 & Hstep & Hb & Hr & Hse & Hl).
    destruct (IH s1) as (s' & Hrun & Hb' & Hr' & Hse' & Hl'); [congruence|].
    exists s'. cbn [map wsRun wsStep]. rewrite Hstep.
    split; [exact Hrun|]. cbn [concat]. rewrite Hb', Hb, <- app_assoc.
    split; [reflexivity|]. split; [congruence|]. split; congruence.
Qed.

(** X8. A reply streamed in increments is the increments joined in the
    order they came: from any state that has recorded run [r], frames of
    the assistant stream of that run, each carrying a delta and no whole
    text, leave the buffer extended by the deltas in order, with the
    promise and the socket untouched; a lifecycle frame of the run with
    phase "end" then resolves a pending exchange with the trimmed buffer
    and closes the socket. *)
Theorem streamed_deltas_are_joined env a r frames deltas s fend dend :
  runId s = Some (JStr r) ->
  settled s = None ->
  Forall2 (isDeltaFrame r) frames deltas ->
  isStreamEvent fend r "lifecycle" dend ->
  prop "phase" dend = Some (JStr (js "end")) ->
  (exists s', wsRun env a s (map (fun f => OnMessage (Some f)) frames) = Some s'
              /\ buf s' = buf s ++ concat deltas
              /\ settled s' = None /\ wsLog s' = wsLog s)
  /\ (exists s'', wsRun env a s (map (fun f => OnMessage (Some f)) frames
                                 ++ [OnMessage (Some fend)]) = Some s''
                  /\ (exists media,
                        settled s'' = Some (Resolved (trim (buf s ++ concat deltas)) media))
                  /\ wsLog s'' = wsLog s ++ [Close]).
Proof.
  intros Hs Hpend Hds Hend Hph.
  destruct (delta_frames_append env a r frames deltas Hds s Hs)
    as (s' & Hrun & Hb & Hr & Hse & Hl).
  split.
  - exists s'. split; [exact Hrun|]. split; [exact Hb|]. split; congruence.
  - rewrite (wsRun_app _ _ _ _ _ _ Hrun). cbn [wsRun wsStep].
    apply isStreamEvent_payload in Hend as (p & Hev & Hp & Htr & Hrp & Hst & Hd).
    rewrite (onMessage_stream _ _ s' _ _ Hev Hp Htr)
      by (apply (passesFilter_same_run s' p r); [rewrite Hr; exact Hs | exact Hrp]).
    rewrite Hst.
    change (isStr (Some (JStr (js "lifecycle"))) "assistant") with false.
    change (isStr (Some (JStr (js "lifecycle"))) "lifecycle") with true. cbv iota.
    eexists. split; [reflexivity|].
    unfold onLifecycle. cbn [oprop]. rewrite Hd.
    change (oprop "phase" (Some dend)) with (prop "phase" dend). rewrite Hph.
    change (isStr (Some (JStr (js "end"))) "end") with true.
    change (isStr (Some (JStr (js "end"))) "error") with false. cbv iota zeta.
    unfold settle, close, emit. cbn [settled wsLog buf mediaUrls].
    rewrite Hse, Hpend, Hb, Hl. split; [eexists; reflexivity | reflexivity].
Qed.

Lemma streamed_deltas_are_joined_witness :
  exists s'',
    wsRun sampleGatewayEnv sampleAsk streamingExchange
      [OnMessage (Some (streamFrame "r1" "assistant" (obj [("delta", str " Hel")]%string)));
       OnMessage (Some (streamFrame "r1" "assistant" (obj [("delta", str "lo ")]%string)));
       OnMessage (Some (streamFrame "r1" "lifecycle" (obj [("phase", str "end")]%string)))]
    = Some s''
    /\ (exists media, settled s'' = Some (Resolved (js "Hello") media))
    /\ wsLog s'' = wsLog streamingExchange ++ [Close].
Proof.
  assert (Hd : forall dl : string,
             isDeltaFrame (js "r1")
               (streamFrame "r1" "assistant" (obj [("delta", str dl)]%string)) (js dl)).
  { intros dl. exists (obj [("delta", str dl)]%string).
    split; [|split].
    - split; [right; split; reflexivity|]. eexists. repeat split; reflexivity.
    - intros t H. vm_compute in H. discriminate H.
    - reflexivity. }
  refine (proj2 (streamed_deltas_are_joined sampleGatewayEnv sampleAsk (js "r1")
            [streamFrame "r1" "assistant" (obj [("delta", str " Hel")]%string);
             streamFrame "r1" "assistant" (obj [("delta", str "lo ")]%string)]
            [js " Hel"; js "lo "] streamingExchange
            (streamFrame "r1" "lifecycle" (obj [("phase", str "end")]%string))
            (obj [("phase", str "end")]%string) _ _ _ _ _)).
  - reflexivity.
  - reflexivity.
  - repeat constructor; apply Hd.
  - split; [right; split; reflexivity|]. eexists. repeat split; reflexivity.
  - reflexivity.
Defined.

(** ** More on deduplication and session keys *)

Local Open Scope Z_scope.

(** X9. After any call of [isDuplicate] the map holds no stale record
    and no altered one: every record in it is at most the time-to-live
    old, and is either a record that was there before the call, with its
    timestamp as it was, or the id of this call recorded at this call's
    clock reading (the call then answered "not a duplicate").  An answer
    "duplicate" therefore never renews the record it found. *)
Theorem seen_keeps_only_fresh_records (now : Z) (id : option (list N))
    (seen : gmap (list N) Z) (k : list N) (ts : Z) :
  (isDuplicate now id seen).2 !! k = Some ts ->
  now - ts <= SEEN_TTL_MS
  /\ (seen !! k = Some ts
      \/ (id = Some k /\ ts = now /\ k <> []
          /\ (isDuplicate now id seen).1 = false
          /\ forall ts', seen !! k = Some ts' -> now - ts' > SEEN_TTL_MS)).
Proof.
  assert (Hold : purge now seen !! k = Some ts ->
                 now - ts <= SEEN_TTL_MS /\ seen !! k = Some ts).
  { intros H. apply purge_lookup in H. tauto. }
  unfold isDuplicate. destruct id as [[|c i]|]; cbn [snd fst].
  - intros H. apply Hold in H. tauto.
  - destruct (purge now seen !! (c :: i)) as [t0|] eqn:E; cbn [snd fst].
    + intros H. apply Hold in H. tauto.
    + destruct (decide (k = c :: i)) as [->|Hne].
      * rewrite lookup_insert_eq. intros [= <-]. split; [unfold SEEN_TTL_MS; lia|].
        right. split; [reflexivity|]. split; [reflexivity|]. split; [discriminate|].
        split; [reflexivity|]. apply purge_lookup_None. exact E.
      * rewrite lookup_insert_ne by congruence. intros H. apply Hold in H. tauto.
  - intros H. apply Hold in H. tauto.
Qed.

Lemma seen_keeps_only_fresh_records_witness :
  1700000300000 - 1700000000000 <= SEEN_TTL_MS
  /\ (({[ js "om_1" := 1700000000000 ]} : gmap (list N) Z) !! js "om_1"
      = Some 1700000000000
      \/ (Some (js "om_1") = Some (js "om_1") /\ 1700000000000 = 1700000300000
          /\ js "om_1" <> []
          /\ (isDuplicate 1700000300000 (Some (js "om_1"))
                {[ js "om_1" := 1700000000000 ]}).1 = false
          /\ forall ts', ({[ js "om_1" := 1700000000000 ]} : gmap (list N) Z) !! js "om_1"
                         = Some ts' -> 1700000300000 - ts' > SEEN_TTL_MS)).
Proof.
  apply (seen_keeps_only_fresh_records 1700000300000 (Some (js "om_1"))
           {[ js "om_1" := 1700000000000 ]} (js "om_1") 1700000000000).
  vm_compute. reflexivity.
Defined.

Local Open Scope N_scope.

Lemma first_colon_splits (c1 : list N) : forall c2 t1 t2,
  ~ In 58 c1 -> ~ In 58 c2 ->
  (t1 = [] \/ exists r, t1 = 58 :: r) -> (t2 = [] \/ exists r, t2 = 58 :: r) ->
  c1 ++ t1 = c2 ++ t2 -> c1 = c2.
Proof.
  induction c1 as [|x c1 IH]; intros c2 t1 t2 H1 H2 Ht1 Ht2 E.
  - destruct c2 as [|y c2]; [reflexivity|]. exfalso. cbn in E.
    destruct Ht1 as [->|[r ->]]; [discriminate E|].
    injection E as <- _. apply H2. left. reflexivity.
  - destruct c2 as [|y c2].
    + exfalso. cbn in E. destruct Ht2 as [->|[r ->]]; [discriminate E|].
      injection E as -> _. apply H1. left. reflexivity.
    + cbn in E. injection E as -> E. f_equal.
      apply (IH c2 t1 t2); auto.
      * intros H. apply H1. right. exact H.
      * intros H. apply H2. right. exact H.
Qed.

Lemma resolveKey_shape (c : list N) (so : gmap (list N) (list N)) :
  exists t, resolveKey c so = js "larksuite:" ++ c ++ t
            /\ (t = [] \/ exists r, t = 58 :: r).
Proof.
  unfold resolveKey, baseKey. destruct (so !! c) as [[|x s]|].
  - exists []. rewrite app_nil_r. auto.
  - exists (js ":" ++ x :: s). rewrite <- app_assoc. split; [reflexivity|].
    right. exists (x :: s). reflexivity.
  - exists []. rewrite app_nil_r. auto.
Qed.

(** X10. Conversations never share a session: for conversation ids that
    hold no colon (as the platform's [oc_...] ids), the keys resolved
    for two different conversations differ, whatever resets either has
    seen; and a reset of one conversation leaves the key of every other
    one as it was. *)
Theorem session_keys_are_per_conversation (c1 c2 : list N)
    (so1 so2 : gmap (list N) (list N)) :
  ~ In 58 c1 -> ~ In 58 c2 -> c1 <> c2 ->
  resolveKey c1 so1 <> resolveKey c2 so2
  /\ (forall now, resolveKey c2 (applyReset now c1 so2) = resolveKey c2 so2).
Proof.
  intros H1 H2 Hne. split.
  - intros E. apply Hne.
    destruct (resolveKey_shape c1 so1) as (t1 & E1 & Ht1).
    destruct (resolveKey_shape c2 so2) as (t2 & E2 & Ht2).
    rewrite E1, E2 in E. apply app_inv_head in E.
    exact (first_colon_splits c1 c2 t1 t2 H1 H2 Ht1 Ht2 E).
  - intros now. unfold resolveKey, applyReset.
    rewrite lookup_insert_ne by exact Hne. reflexivity.
Qed.

Lemma session_keys_are_per_conversation_witness :
  (resolveKey (js "oc_1") {[ js "oc_1" := toString36 1700000000000 ]} =
   resolveKey (js "oc_2") {[ js "oc_1" := toString36 1700000000000 ]} -> False)
  /\ resolveKey (js "oc_2") (applyReset 1700000000500 (js "oc_1") ∅) = js "larksuite:oc_2".
Proof.
  assert (H1 : ~ In 58 (js "oc_1")).
  { vm_compute. intros H. repeat (destruct H as [H|H]; [discriminate H|]). exact H. }
  assert (H2 : ~ In 58 (js "oc_2")).
  { vm_compute. intros H. repeat (destruct H as [H|H]; [discriminate H|]). exact H. }
  assert (Hne : js "oc_1" <> js "oc_2") by (vm_compute; discriminate).
  split.
  - exact (proj1 (session_keys_are_per_conversation (js "oc_1") (js "oc_2")
                    {[ js "oc_1" := toString36 1700000000000 ]}
                    {[ js "oc_1" := toString36 1700000000000 ]} H1 H2 Hne)).
  - exact (proj2 (session_keys_are_per_conversation (js "oc_1") (js "oc_2") ∅ ∅ H1 H2 Hne)
             1700000000500%Z).
Defined.

(** ** More on the message handler *)

Lemma seen_dispatch env b m chatId text mediaPath :
  seen (dispatch env b m chatId text mediaPath).1.1 = seen b.
Proof. unfold dispatch. repeat case_match; reflexivity. Qed.

Lemma seen_afterExtraction env b m chatId text mediaPath :
  seen (afterExtraction env b m chatId text mediaPath).1.1 = seen b.
Proof.
  unfold afterExtraction. repeat case_match; try reflexivity; apply seen_dispatch.
Qed.

(** X11. Every message that has a conversation id passes through the
    duplicate check, and what the handler does with it afterwards
    (dropping it, filtering it out, running a command, calling the
    gateway) leaves the map of seen ids as that check left it: a message
    with an id is on record afterwards, with a timestamp within the
    time-to-live, also when it was not answered. *)
Theorem every_identified_message_is_recorded env b m c cr :
  chat_id m = Some (c :: cr) ->
  seen (handleMessageRoute env b (Some m)).1.1
  = (isDuplicate (nowDedup env) (message_id m) (seen b)).2
  /\ (forall i ir, message_id m = Some (i :: ir) ->
        exists ts, seen (handleMessageRoute env b (Some m)).1.1 !! (i :: ir) = Some ts
                   /\ (nowDedup env - ts <= SEEN_TTL_MS)%Z).
Proof.
  intros Hc.
  assert (E : seen (handleMessageRoute env b (Some m)).1.1
              = (isDuplicate (nowDedup env) (message_id m) (seen b)).2).
  { unfold handleMessageRoute. rewrite Hc. cbv zeta.
    destruct (isDuplicate (nowDedup env) (message_id m) (seen b)).1; [reflexivity|].
    destruct (extractContent env m) as [[text mediaPath]|]; [|reflexivity].
    destruct (negb (nonEmpty text) && negb (hasMedia mediaPath)); [reflexivity|].
    apply seen_afterExtraction. }
  split; [exact E|].
  intros i ir Hi. rewrite E, Hi.
  destruct (isDuplicate (nowDedup env) (Some (i :: ir)) (seen b)).1 eqn:Hd.
  - unfold isDuplicate in *. cbv zeta in *.
    destruct (purge (nowDedup env) (seen b) !! (i :: ir)) as [ts|] eqn:Ep;
      [|discriminate Hd].
    exists ts. cbn [snd]. split; [exact Ep|]. apply purge_lookup in Ep. tauto.
  - exists (nowDedup env). split; [apply isDuplicate_records, Hd|].
    unfold SEEN_TTL_MS. lia.
Qed.

Lemma every_identified_message_is_recorded_witness :
  seen (handleMessageRoute sampleRouterEnv emptyBridge
          (Some (sampleMessage "group" "/reset" []))).1.1
  = {[ js "om_1" := 1700000000000%Z ]}.
Proof.
  rewrite (proj1 (every_identified_message_is_recorded sampleRouterEnv emptyBridge
                    (sampleMessage "group" "/reset" []) 111 (js "c_1") eq_refl)).
  vm_compute. reflexivity.
Defined.

(** X12. A message whose id is on record within the time-to-live is
    ignored altogether: the handler makes no SDK call and no gateway
    call, whatever the message says, and the session overrides stay as
    they are (a redelivered [/reset] does not reset again). *)
Theorem redelivery_is_ignored env b m c cr i ir ts ticks :
  chat_id m = Some (c :: cr) ->
  message_id m = Some (i :: ir) ->
  seen b !! (i :: ir) = Some ts ->
  (nowDedup env - ts <= SEEN_TTL_MS)%Z ->
  handleMessageRoute env b (Some m)
  = ({| seen := purge (nowDedup env) (seen b);
        sessionOverrides := sessionOverrides b |}, [], Return)
  /\ handleMessage env b (Some m) ticks
     = ({| seen := purge (nowDedup env) (seen b);
           sessionOverrides := sessionOverrides b |}, []).
Proof.
  intros Hc Hi Hs Ht.
  assert (Hp : purge (nowDedup env) (seen b) !! (i :: ir) = Some ts)
    by (apply purge_lookup; split; assumption).
  assert (E : handleMessageRoute env b (Some m)
              = ({| seen := purge (nowDedup env) (seen b);
                    sessionOverrides := sessionOverrides b |}, [], Return)).
  { unfold handleMessageRoute. rewrite Hc, Hi. cbv zeta.
    unfold isDuplicate. cbv zeta. rewrite Hp. reflexivity. }
  split; [exact E|]. unfold handleMessage. rewrite E. reflexivity.
Qed.

Lemma redelivery_is_ignored_witness :
  handleMessage
    {| JSON_parse := sampleParse; toStringValue := toStringValue sampleRouterEnv;
       downloadImage := downloadImage sampleRouterEnv;
       nowDedup := 1700000060000; nowReset := 1700000060500;
       thinkingEnabled := true; sdkThrows := sdkThrows sampleRouterEnv;
       relayImage := relayImage sampleRouterEnv |}
    (handleMessageRoute sampleRouterEnv emptyBridge
       (Some (sampleMessage "p2p" "/reset" []))).1.1
    (Some (sampleMessage "p2p" "/reset" [])) [TimerFires]
  = ({| seen := {[ js "om_1" := 1700000000000%Z ]};
        sessionOverrides := {[ js "oc_1" := toString36 1700000000500 ]} |}, []).
Proof.
  refine (eq_trans (proj2 (redelivery_is_ignored _ _ (sampleMessage "p2p" "/reset" [])
                             111 (js "c_1") 111 (js "m_1") 1700000000000%Z [TimerFires]
                             eq_refl eq_refl _ _)) _).
  - vm_compute. reflexivity.
  - vm_compute. discriminate.
  - vm_compute. reflexivity.
Defined.

Lemma dispatch_call env b m chatId text mediaPath b' cs c a :
  dispatch env b m chatId text mediaPath = (b', cs, CallGateway c a) ->
  b' = b /\ cs = [] /\ c = chatId
  /\ a = {| ask_text := text;
            ask_sessionKey := resolveKey chatId (sessionOverrides b);
            ask_mediaPath := mediaPath |}
  /\ toLowerCase (trim text) <> js "/reset"
  /\ toLowerCase (trim text) <> js "/status".
Proof.
  unfold dispatch.
  destruct (bool_decide (toLowerCase (trim text) = js "/reset")) eqn:Er; [discriminate|].
  destruct (bool_decide (toLowerCase (trim text) = js "/status")) eqn:Es; [discriminate|].
  apply bool_decide_eq_false in Er, Es. intros [= <- <- <- <-]. auto 10.
Qed.


Lemma extractContent_media env m text mediaPath :
  extractContent env m = Some (text, mediaPath) ->
  mediaPath = None \/ exists k, mediaPath = downloadImage env (message_id m) k.
Proof.
  unfold extractContent. destruct (content m) as [[|c cr]|]; try discriminate.
  destruct (isLit (message_type m) "text"); [intros [= _ <-]; left; reflexivity|].
  destruct (isLit (message_type m) "image").
  { unfold extractImage.
    destruct (JSON_parse env (c :: cr)) as [j|]; [|intros [= _ <-]; left; reflexivity].
    destruct (prop "image_key" j) as [k|]; [|intros [= _ <-]; left; reflexivity].
    destruct (truthy (Some k)); intros [= _ <-]; [right; eauto | left; reflexivity]. }
  destruct (isLit (message_type m) "post"); [|discriminate].
  unfold extractPost.
  destruct (JSON_parse env (c :: cr)) as [j|]; [|intros [= _ <-]; left; reflexivity].
  destruct j; try (intros [= _ <-]; left; reflexivity);
    (cbv zeta;
     destruct (orElse (prop "content" _) (JArr []));
     try (intros [= _ <-]; left; reflexivity);
     destruct (joinWith _ _ _) as [[body keys]|];
     [|intros [= _ <-]; left; reflexivity];
     destruct keys as [|k keys]; intros [= _ <-]; [left; reflexivity | right; eauto]).
Qed.



Lemma handleMessageRoute_call_key env b m b' cs chatId a :
  handleMessageRoute env b (Some m) = (b', cs, CallGateway chatId a) ->
  ask_sessionKey a = resolveKey chatId (sessionOverrides b).
Proof.
  unfold handleMessageRoute.
  destruct (chat_id m) as [[|c cr]|]; try discriminate. cbv zeta.
  destruct (isDuplicate (nowDedup env) (message_id m) (seen b)).1; [discriminate|].
  destruct (extractContent env m) as [[text mediaPath]|]; [|discriminate].
  destruct (negb (nonEmpty text) && negb (hasMedia mediaPath)); [discriminate|].
  unfold afterExtraction. cbv zeta.
  destruct (isLit (chat_type m) "group").
  - destruct (negb (nonEmpty _) && negb (hasMedia mediaPath)); [discriminate|].
    destruct (negb (hasMedia mediaPath) && negb (shouldRespondInGroup _ _)); [discriminate|].
    intros H. apply dispatch_call in H as (_ & _ & -> & -> & _). reflexivity.
  - intros H. apply dispatch_call in H as (_ & _ & -> & -> & _). reflexivity.
Qed.

Lemma dispatch_reset_confirmed env b m chatId text mediaPath b1 c :
  dispatch env b m chatId text mediaPath = (b1, [CreateText c resetConfirmation], Return) ->
  c = chatId
  /\ sessionOverrides b1 = applyReset (nowReset env) chatId (sessionOverrides b).
Proof.
  unfold dispatch.
  destruct (bool_decide (toLowerCase (trim text) = js "/reset")).
  { intros [= <- <-]. split; reflexivity. }
  destruct (bool_decide (toLowerCase (trim text) = js "/status")); [|discriminate].
  intros H. exfalso.
  apply (f_equal (fun r => match r.1.2 with
                           | [CreateText _ (x :: _)] => x
                           | _ => 0
                           end)) in H.
  vm_compute in H. discriminate H.
Qed.

Lemma resolveKey_after_reset (now : Z) (c : list N) (so : gmap (list N) (list N)) :
  resolveKey c (applyReset now c so) = baseKey c ++ js ":" ++ toString36 now.
Proof.
  unfold resolveKey, applyReset. rewrite lookup_insert_eq.
  pose proof (toString36_nonempty now) as H.
  destruct (toString36 now); [contradiction | reflexivity].
Qed.

(** X14. A confirmed reset takes effect with the next message: whenever
    the handler ends with the reset confirmation as its one SDK call,
    that call went to the conversation of the message, the radix-36
    print of the clock reading has been stored as the suffix of that
    conversation (the suffixes of the others are as they were), and the
    next message the handler passes to the gateway for that conversation
    from this state goes under the key [larksuite:<chat>:<suffix>]. *)
Theorem confirmed_reset_starts_new_session env b m b1 c :
  handleMessageRoute env b (Some m) = (b1, [CreateText c resetConfirmation], Return) ->
  chat_id m = Some c
  /\ sessionOverrides b1 = <[c := toString36 (nowReset env)]> (sessionOverrides b)
  /\ (forall env2 m2 b2 cs2 a,
        handleMessageRoute env2 b1 (Some m2) = (b2, cs2, CallGateway c a) ->
        ask_sessionKey a = js "larksuite:" ++ c ++ js ":" ++ toString36 (nowReset env)).
Proof.
  intros H.
  assert (Hb : chat_id m = Some c
               /\ sessionOverrides b1 = applyReset (nowReset env) c (sessionOverrides b)).
  { revert H. unfold handleMessageRoute.
    destruct (chat_id m) as [[|x cr]|]; try discriminate. cbv zeta.
    destruct (isDuplicate (nowDedup env) (message_id m) (seen b)).1; [discriminate|].
    destruct (extractContent env m) as [[text mediaPath]|]; [|discriminate].
    destruct (negb (nonEmpty text) && negb (hasMedia mediaPath)); [discriminate|].
    unfold afterExtraction. cbv zeta.
    destruct (isLit (chat_type m) "group").
    - destruct (negb (nonEmpty _) && negb (hasMedia mediaPath)); [discriminate|].
      destruct (negb (hasMedia mediaPath) && negb (shouldRespondInGroup _ _));
        [discriminate|].
      intros H. apply dispatch_reset_confirmed in H as [-> H]. split; [reflexivity|exact H].
    - intros H. apply dispatch_reset_confirmed in H as [-> H]. split; [reflexivity|exact H]. }
  destruct Hb as [Hc Hso]. split; [exact Hc|]. split; [exact Hso|].
  intros env2 m2 b2 cs2 a H2.
  rewrite (handleMessageRoute_call_key _ _ _ _ _ _ _ H2), Hso, resolveKey_after_reset.
  unfold baseKey. rewrite <- app_assoc. reflexivity.
Qed.

Lemma confirmed_reset_starts_new_session_witness :
  handleMessageRoute sampleRouterEnv emptyBridge (Some (sampleMessage "p2p" "/reset" []))
  = ({| seen := {[ js "om_1" := 1700000000000%Z ]};
        sessionOverrides := {[ js "oc_1" := toString36 1700000000500 ]} |},
     [CreateText (js "oc_1") resetConfirmation], Return)
  /\ sessionOverrides
       {| seen := {[ js "om_1" := 1700000000000%Z ]};
          sessionOverrides := {[ js "oc_1" := toString36 1700000000500 ]} |}
     = <[js "oc_1" := toString36 1700000000500]> ∅.
Proof.
  assert (E : handleMessageRoute sampleRouterEnv emptyBridge
                (Some (sampleMessage "p2p" "/reset" []))
              = ({| seen := {[ js "om_1" := 1700000000000%Z ]};
                    sessionOverrides := {[ js "oc_1" := toString36 1700000000500 ]} |},
                 [CreateText (js "oc_1") resetConfirmation], Return))
    by (vm_compute; reflexivity).
  split; [exact E|].
  exact (proj1 (proj2 (confirmed_reset_starts_new_session _ _ _ _ _ E))).
Defined.

(** ** Waiting for the reply and delivering it *)

Lemma pendingRun_snoc env p ts t :
  pendingRun env p (ts ++ [t]) = pendingStep env (pendingRun env p ts) t.
Proof. unfold pendingRun. rewrite fold_left_app. reflexivity. Qed.

Lemma waitingOrDelivered_step env c ts p t :
  waitingOrDelivered env c ts p ->
  waitingOrDelivered env c (ts ++ [t]) (pendingStep env p t).
Proof.
  intros (Hc & Hid & Harm & Hcr & Hwait & Hdone).
  assert (Hin : forall x, In x ts -> In x (ts ++ [t])) by (intros x H; apply in_or_app; auto).
  assert (Hlast : In t (ts ++ [t])) by (apply in_or_app; right; left; reflexivity).
  assert (Hid' : placeholderId p = [] \/ In (PlaceholderReturns (Some (placeholderId p))) (ts ++ [t]))
    by (destruct Hid; auto).
  assert (Hdone' : done p = true ->
            exists pre pid o,
              calls p = pre ++ deliver env c pid o
              /\ (pre = [] \/ (thinkingEnabled env = true /\ pre = [thinking c]))
              /\ In (ExchangeSettles o) (ts ++ [t])
              /\ (pid = [] \/ In (PlaceholderReturns (Some pid)) (ts ++ [t]))).
  { intros H. destruct (Hdone H) as (pre & pid & o & H1 & H2 & H3 & H4).
    exists pre, pid, o. repeat split; auto. destruct H4; auto. }
  destruct t as [|id|o]; cbn [pendingStep].
  - destruct (timerArmed p) eqn:Ea.
    + destruct (Harm eq_refl) as (Hd & Hcalls & Hcreating & Hth). rewrite Hd.
      unfold waitingOrDelivered. cbn [pd_chatId placeholderId done timerArmed creating calls].
      split; [exact Hc|]. split; [exact Hid'|]. split; [discriminate|].
      split; [intros _; exact Hth|].
      split; [|discriminate].
      intros _. right. split; [exact Hth|]. rewrite Hcalls, Hc. reflexivity.
    + unfold waitingOrDelivered. rewrite Ea.
      split; [exact Hc|]. split; [exact Hid'|]. split; [discriminate|].
      split; [exact Hcr|]. split; [exact Hwait | exact Hdone'].
  - destruct (creating p) eqn:Ecr.
    + unfold waitingOrDelivered. cbn [pd_chatId placeholderId done timerArmed creating calls].
      split; [exact Hc|].
      split; [destruct id as [i|]; [right; exact Hlast | exact Hid']|].
      split.
      { intros H. destruct (Harm H) as (_ & _ & Hf & _). congruence. }
      split; [discriminate|]. split; [exact Hwait | exact Hdone'].
    + unfold waitingOrDelivered. rewrite Ecr.
      split; [exact Hc|]. split; [exact Hid'|]. split; [exact Harm|].
      split; [discriminate|]. split; [exact Hwait | exact Hdone'].
  - destruct (done p) eqn:Ed.
    + unfold waitingOrDelivered. rewrite Ed.
      split; [exact Hc|]. split; [exact Hid'|]. split; [exact Harm|].
      split; [exact Hcr|]. split; [discriminate | exact Hdone'].
    + unfold waitingOrDelivered. cbn [pd_chatId placeholderId done timerArmed creating calls].
      split; [exact Hc|]. split; [exact Hid'|]. split; [discriminate|].
      split; [exact Hcr|]. split; [discriminate|].
      intros _. exists (calls p), (placeholderId p), o. rewrite Hc.
      split; [reflexivity|]. split; [exact (Hwait eq_refl)|]. split; [exact Hlast | exact Hid'].
Qed.

Lemma waitingOrDelivered_run env c ts :
  waitingOrDelivered env c ts (pendingRun env (startPending env c) ts).
Proof.
  induction ts as [|t ts IH] using rev_ind.
  - unfold waitingOrDelivered, pendingRun, startPending.
    cbn [fold_left pd_chatId placeholderId done timerArmed creating calls].
    split; [reflexivity|]. split; [left; reflexivity|].
    split; [intros H; rewrite H; auto|].
    split; [discriminate|]. split; [left; reflexivity | discriminate].
  - rewrite pendingRun_snoc. apply waitingOrDelivered_step, IH.
Qed.

(** X15. Under every order of the event-loop turns that follow the call
    of the gateway, the handler's SDK calls are: at most one creation of
    the "Thinking…" placeholder (none when the threshold is switched
    off), and after it, once the exchange has settled, the calls of one
    delivery, made for an outcome that did arrive and for a placeholder
    id that is empty or was returned by the placeholder's creation.  No
    placeholder is created after the delivery, and nothing is delivered
    twice. *)
Theorem placeholder_then_one_delivery env c ts :
  exists pre post,
    calls (pendingRun env (startPending env c) ts) = pre ++ post
    /\ (pre = [] \/ (thinkingEnabled env = true /\ pre = [thinking c]))
    /\ ((done (pendingRun env (startPending env c) ts) = false /\ post = [])
        \/ (done (pendingRun env (startPending env c) ts) = true
            /\ exists pid o,
                 post = deliver env c pid o
                 /\ In (ExchangeSettles o) ts
                 /\ (pid = [] \/ In (PlaceholderReturns (Some pid)) ts))).
Proof.
  destruct (waitingOrDelivered_run env c ts) as (_ & _ & _ & _ & Hwait & Hdone).
  destruct (done (pendingRun env (startPending env c) ts)) eqn:Ed.
  - destruct (Hdone eq_refl) as (pre & pid & o & H1 & H2 & H3 & H4).
    exists pre, (deliver env c pid o). split; [exact H1|]. split; [exact H2|].
    right. split; [reflexivity|]. exists pid, o. auto.
  - exists (calls (pendingRun env (startPending env c) ts)), [].
    rewrite app_nil_r. split; [reflexivity|]. split; [exact (Hwait eq_refl)|].
    left. auto.
Qed.

Lemma imageCallsFor_target env c urls :
  Forall (fun call => exists key, call = CreateImage c key) (imageCallsFor env c urls).
Proof.
  induction urls as [|u urls IH]; cbn [imageCallsFor]; [constructor|].
  destruct (relayImage env u); [constructor; eauto | exact IH | constructor].
Qed.

(** What a delivery writes to: the conversation, or the placeholder it
    was given (and that only when there is one). *)
Lemma deliver_target env c pid o :
  Forall (fun call => match call with
                      | CreateText c' _ | CreateImage c' _ => c' = c
                      | PatchText id _ | DeleteMessage id => id = pid /\ pid <> []
                      end) (deliver env c pid o).
Proof.
  assert (Himg : forall m,
             Forall (fun call => match call with
                                 | CreateText c' _ | CreateImage c' _ => c' = c
                                 | PatchText id _ | DeleteMessage id => id = pid /\ pid <> []
                                 end) (imageCalls env c m)).
  { intros m. unfold imageCalls. eapply Forall_impl; [apply imageCallsFor_target|].
    intros call [key ->]. reflexivity. }
  unfold deliver. cbv zeta.
  destruct (isNoReply _).
  - destruct pid as [|x pid]; cbn [nonEmpty]; [constructor|].
    constructor; [split; [reflexivity | discriminate] | constructor].
  - destruct pid as [|x pid]; cbn [nonEmpty].
    + constructor; [reflexivity|]. destruct (sdkThrows env _); [constructor | apply Himg].
    + destruct (sdkThrows env (PatchText _ _)).
      * constructor; [split; [reflexivity | discriminate]|].
        constructor; [reflexivity|].
        destruct (sdkThrows env _); [constructor | apply Himg].
      * constructor; [split; [reflexivity | discriminate] | apply Himg].
Qed.

Lemma dispatch_target env b m chatId text mediaPath :
  Forall (fun call => exists t, call = CreateText chatId t)
    (dispatch env b m chatId text mediaPath).1.2
  /\ (forall c a, (dispatch env b m chatId text mediaPath).2 = CallGateway c a -> c = chatId).
Proof.
  unfold dispatch.
  destruct (bool_decide (toLowerCase (trim text) = js "/reset")).
  { cbn [fst snd]. split; [repeat constructor; eauto | intros c a H; discriminate H]. }
  destruct (bool_decide (toLowerCase (trim text) = js "/status")).
  { cbn [fst snd]. split; [repeat constructor; eauto | intros c a H; discriminate H]. }
  cbn [fst snd]. split; [constructor | intros c a [= <- _]; reflexivity].
Qed.

Lemma handleMessageRoute_target env b m :
  Forall (fun call => exists c t, call = CreateText c t /\ chat_id m = Some c)
    (handleMessageRoute env b (Some m)).1.2
  /\ (forall c a, (handleMessageRoute env b (Some m)).2 = CallGateway c a ->
                  chat_id m = Some c).
Proof.
  unfold handleMessageRoute.
  destruct (chat_id m) as [[|c cr]|] eqn:Hc;
    try (split; [constructor | intros ? ? H; discriminate H]).
  cbv zeta.
  destruct (isDuplicate (nowDedup env) (message_id m) (seen b)).1;
    try (split; [constructor | intros ? ? H; discriminate H]).
  destruct (extractContent env m) as [[text mediaPath]|];
    try (split; [constructor | intros ? ? H; discriminate H]).
  destruct (negb (nonEmpty text) && negb (hasMedia mediaPath));
    try (split; [constructor | intros ? ? H; discriminate H]).
  assert (Hd : forall b0 text0,
             Forall (fun call => exists c0 t, call = CreateText c0 t /\ Some (c :: cr) = Some c0)
               (dispatch env b0 m (c :: cr) text0 mediaPath).1.2
             /\ (forall c0 a, (dispatch env b0 m (c :: cr) text0 mediaPath).2 = CallGateway c0 a ->
                              Some (c :: cr) = Some c0)).
  { intros b0 text0. destruct (dispatch_target env b0 m (c :: cr) text0 mediaPath) as [H1 H2].
    split.
    - eapply Forall_impl; [exact H1|]. intros call [t ->]. eauto.
    - intros c0 a H. rewrite (H2 _ _ H). reflexivity. }
  unfold afterExtraction. cbv zeta.
  destruct (isLit (chat_type m) "group"); [|apply Hd].
  destruct (negb (nonEmpty _) && negb (hasMedia mediaPath));
    try (split; [constructor | intros ? ? H; discriminate H]).
  destruct (negb (hasMedia mediaPath) && negb (shouldRespondInGroup _ _));
    try (split; [constructor | intros ? ? H; discriminate H]).
  apply Hd.
Qed.

(** X16. The handler never writes to another conversation.  Whatever
    the message, the gateway's answer and the order of the turns, every
    message the handler creates, text or image, goes into the
    conversation the inbound message came from, and every message it
    patches or deletes is a placeholder whose id the creation of that
    placeholder returned; and the one resource it fetches, when it
    fetches one, is an image of the inbound message itself. *)
Theorem replies_stay_in_conversation env b m ts :
  Forall (staysInConversation m ts) (handleMessage env b (Some m) ts).2
  /\ (forall text mediaPath,
        extractContent env m = Some (text, mediaPath) ->
        mediaPath = None \/ exists k, mediaPath = downloadImage env (message_id m) k).
Proof.
  split; [|apply extractContent_media].
  unfold handleMessage.
  destruct (handleMessageRoute_target env b m) as [Hcs Hr].
  destruct (handleMessageRoute env b (Some m)) as [[b' cs] r]. cbn [fst snd] in *.
  assert (Hcs' : Forall (staysInConversation m ts) cs).
  { eapply Forall_impl; [exact Hcs|]. intros call (c & t & -> & H). exact H. }
  destruct r as [|c a]; cbn [snd]; [exact Hcs'|].
  apply Forall_app. split; [exact Hcs'|].
  specialize (Hr c a eq_refl).
  destruct (waitingOrDelivered_run env c ts) as (_ & _ & _ & _ & Hwait & Hdone).
  assert (Hpre : forall pre, pre = [] \/ (thinkingEnabled env = true /\ pre = [thinking c]) ->
                 Forall (staysInConversation m ts) pre).
  { intros pre [->|[_ ->]]; [constructor|]. constructor; [exact Hr | constructor]. }
  destruct (done (pendingRun env (startPending env c) ts)).
  - destruct (Hdone eq_refl) as (pre & pid & o & -> & Hp & _ & Hpid).
    apply Forall_app. split; [apply Hpre, Hp|].
    eapply Forall_impl; [apply deliver_target|].
    intros call H. destruct call as [c' t|id t|id|c' k]; cbn [staysInConversation].
    + subst c'. exact Hr.
    + destruct H as [-> Hne]. split; [exact Hne|]. destruct Hpid; [contradiction | assumption].
    + destruct H as [-> Hne]. split; [exact Hne|]. destruct Hpid; [contradiction | assumption].
    + subst c'. exact Hr.
  - apply Hpre, Hwait. reflexivity.
Qed.

Lemma dropWhile_app_stop {A} (p : A -> bool) l1 x l2 :
  p x = false -> dropWhile p (l1 ++ x :: l2) = dropWhile p l1 ++ x :: l2.
Proof.
  intros Hx. induction l1 as [|y l1 IH]; cbn [app dropWhile].
  - rewrite Hx. reflexivity.
  - destruct (p y); [exact IH | reflexivity].
Qed.

(** Trimming keeps everything up to a unit that is not white space, when
    the string begins with one that is not. *)
Lemma trim_keeps_prefix c q x rest :
  isWhiteSpace c = false -> isWhiteSpace x = false ->
  exists r, trim (c :: q ++ x :: rest) = c :: q ++ x :: r.
Proof.
  intros Hc Hx. unfold trim, trimStart, trimEnd.
  rewrite (dropWhile_keep _ _ _ Hc).
  change (c :: q ++ x :: rest) with ((c :: q) ++ x :: rest).
  rewrite rev_app_distr. cbn [rev]. rewrite <- app_assoc. cbn [app].
  rewrite (dropWhile_app_stop _ _ _ _ Hx).
  rewrite rev_app_distr. cbn [rev]. rewrite rev_app_distr, rev_involutive.
  cbn [rev app]. rewrite <- !app_assoc. cbn [app].
  exists (rev (dropWhile isWhiteSpace (rev rest))). reflexivity.
Qed.

(** X17. A failed exchange is reported in the conversation: when
    [askMoltbot] rejects, the text delivered is "(System error) "
    followed by the error's message, trimmed; it is put into the
    placeholder when there is one (and sent as a fresh message when that
    patch throws), sent as a fresh message otherwise, and no image
    follows it.  The one exception is an error message that ends with the
    sentinel [NO_REPLY], which is taken for an empty reply. *)
Theorem gateway_failure_is_reported env c pid f :
  endsWith (js "NO_REPLY") (trim (js "(System error) " ++ errorText env f)) = false ->
  startsWith (js "(System error)") (trim (js "(System error) " ++ errorText env f)) = true
  /\ deliver env c pid (Rejected f)
     = (if nonEmpty pid
        then PatchText pid (trim (js "(System error) " ++ errorText env f))
             :: (if sdkThrows env (PatchText pid (trim (js "(System error) "
                                                        ++ errorText env f)))
                 then [CreateText c (trim (js "(System error) " ++ errorText env f))]
                 else [])
        else [CreateText c (trim (js "(System error) " ++ errorText env f))]).
Proof.
  intros Hend.
  assert (Hpre : exists r, trim (js "(System error) " ++ errorText env f)
                           = js "(System error)" ++ r).
  { destruct (trim_keeps_prefix 40 (js "System error") 41 (32 :: errorText env f))
      as [r Hr]; [reflexivity | reflexivity|].
    exists r. exact Hr. }
  destruct Hpre as [r Hr].
  split.
  - apply startsWith_spec. exists r. exact Hr.
  - unfold deliver. cbv zeta. cbn [replyOf fst snd].
    set (text := trim (js "(System error) " ++ errorText env f)) in *.
    assert (Hno : isNoReply text = false).
    { unfold isNoReply. rewrite Hend, Hr. cbn [nonEmpty negb orb].
      rewrite bool_decide_eq_false_2; [reflexivity|]. intros H. vm_compute in H.
      discriminate H. }
    rewrite Hno. change (imageCalls env c (JArr [])) with (@nil sdkCall).
    destruct (nonEmpty pid).
    + destruct (sdkThrows env (PatchText pid text)); [|reflexivity].
      destruct (sdkThrows env (CreateText c text)); reflexivity.
    + destruct (sdkThrows env (CreateText c text)); reflexivity.
Qed.

Lemma gateway_failure_is_reported_witness :
  deliver sampleRouterEnv (js "oc_1") (js "om_2")
    (Rejected (GatewayError (str "unauthorized")))
  = [PatchText (js "om_2") (js "(System error) unauthorized")].
Proof.
  refine (eq_trans (proj2 (gateway_failure_is_reported sampleRouterEnv (js "oc_1") (js "om_2")
                             (GatewayError (str "unauthorized")) _)) _).
  - vm_compute. reflexivity.
  - vm_compute. reflexivity.
Defined.

(** ** More on the webhook server *)

(** X18. The server hands an event to the message handler only from a
    POST request whose body could be decoded (parsed, and decrypted when
    it is encrypted and a key is configured), is not a challenge, passed
    the token check, and carries a truthy [event] whose type, read from
    [header.event_type] or else from [event.type], is
    [im.message.receive_v1]; the event handed over is the body's, and
    the request is answered 200 with [{ok: true}].  Nothing is
    dispatched with any other answer. *)
Theorem only_message_events_are_dispatched env req e :
  dispatched (server env req) = Some e ->
  method req = js "POST"
  /\ status (server env req) = 200
  /\ body (server env req) = BodyJSON (JObj [(js "ok", JBool true)])
  /\ exists b,
       decodeBody env (bodyText req) = inl b
       /\ prop "event" b = Some e /\ truthy (Some e) = true
       /\ isStr (prop "type" b) "url_verification" = false
       /\ (VERIFICATION_TOKEN env = [] \/ truthy (prop "token" b) = false
           \/ prop "token" b = Some (JStr (VERIFICATION_TOKEN env)))
       /\ (oprop "event_type" (prop "header" b) = Some (JStr (js "im.message.receive_v1"))
           \/ (truthy (oprop "event_type" (prop "header" b)) = false
               /\ prop "type" e = Some (JStr (js "im.message.receive_v1")))).
Proof.
  unfold server.
  destruct (bool_decide (method req = js "GET") && bool_decide (url req = js "/health"));
    [discriminate|].
  destruct (bool_decide (method req = js "POST")) eqn:Em; [|discriminate].
  apply bool_decide_eq_true in Em. cbn [negb].
  destruct (decodeBody env (bodyText req)) as [b|r] eqn:Ed.
  2:{ intros H. exfalso. revert Ed H. unfold decodeBody.
      repeat case_match; intros [= <-]; discriminate. }
  unfold serveBody.
  destruct (isStr (prop "type" b) "url_verification") eqn:Eu; [discriminate|].
  destruct (nonEmpty (VERIFICATION_TOKEN env) && truthy (prop "token" b)
            && negb (strictEq (prop "token" b) (Some (JStr (VERIFICATION_TOKEN env)))))
    eqn:Et; [discriminate|].
  cbn [status body dispatched].
  destruct (truthy (prop "event" b)) eqn:Ee; [|discriminate].
  cbv zeta.
  destruct (isStr (if truthy (oprop "event_type" (prop "header" b))
                   then oprop "event_type" (prop "header" b)
                   else oprop "type" (prop "event" b)) "im.message.receive_v1") eqn:Ety;
    [|discriminate].
  intros He. split; [exact Em|]. split; [reflexivity|]. split; [reflexivity|].
  exists b. split; [reflexivity|]. split; [exact He|].
  split; [rewrite <- He; exact Ee|]. split; [exact Eu|]. split.
  - destruct (VERIFICATION_TOKEN env) as [|x t] eqn:Ev; [left; reflexivity|].
    destruct (truthy (prop "token" b)) eqn:Etr; [|right; left; reflexivity].
    right. right. cbn [nonEmpty andb] in Et. apply negb_false_iff in Et.
    unfold strictEq in Et. destruct (prop "token" b) as [[]|]; try discriminate Et.
    apply bool_decide_eq_true in Et. congruence.
  - destruct (truthy (oprop "event_type" (prop "header" b))) eqn:Eh.
    + left. apply isStr_true, Ety.
    + right. split; [reflexivity|]. apply isStr_true in Ety. rewrite He in Ety. exact Ety.
Qed.

Lemma only_message_events_are_dispatched_witness :
  method (post v2Body) = js "POST"
  /\ status (server sampleServerEnv (post v2Body)) = 200
  /\ body (server sampleServerEnv (post v2Body)) = BodyJSON (JObj [(js "ok", JBool true)])
  /\ exists b,
       decodeBody sampleServerEnv (bodyText (post v2Body)) = inl b
       /\ prop "event" b = Some sampleEvent /\ truthy (Some sampleEvent) = true
       /\ isStr (prop "type" b) "url_verification" = false
       /\ (VERIFICATION_TOKEN sampleServerEnv = [] \/ truthy (prop "token" b) = false
           \/ prop "token" b = Some (JStr (VERIFICATION_TOKEN sampleServerEnv)))
       /\ (oprop "event_type" (prop "header" b) = Some (JStr (js "im.message.receive_v1"))
           \/ (truthy (oprop "event_type" (prop "header" b)) = false
               /\ prop "type" sampleEvent = Some (JStr (js "im.message.receive_v1")))).
Proof.
  apply (only_message_events_are_dispatched sampleServerEnv (post v2Body) sampleEvent).
  vm_compute. reflexivity.
Defined.

(** ** Rich-text posts *)

Lemma assoc_hit k v r : assoc k ((k, v) :: r) = Some v.
Proof. cbn [assoc]. rewrite bool_decide_eq_true_2; reflexivity. Qed.

Lemma assoc_miss k k' v r : k <> k' -> assoc k ((k', v) :: r) = assoc k r.
Proof. intros H. cbn [assoc]. rewrite bool_decide_eq_false_2; [reflexivity | exact H]. Qed.

Lemma joinWith_all {A} sep (f : A -> option (list N * list json))
    (g : A -> list N) (k : A -> list json) (l : list A) :
  (forall x, In x l -> f x = Some (g x, k x)) ->
  joinWith sep f l = Some (joinStrings sep (map g l), flat_map k l).
Proof.
  induction l as [|x r IH]; intros Hf; [reflexivity|].
  assert (Hx : f x = Some (g x, k x)) by (apply Hf; left; reflexivity).
  assert (Hr : joinWith sep f r = Some (joinStrings sep (map g r), flat_map k r))
    by (apply IH; intros y Hy; apply Hf; right; exact Hy).
  destruct r as [|y r].
  - cbn. rewrite Hx, app_nil_r. reflexivity.
  - change (joinWith sep f (x :: y :: r))
      with (match f x, joinWith sep f (y :: r) with
            | Some (t, ks), Some (t', ks') => Some (t ++ sep ++ t', ks ++ ks')
            | _, _ => None
            end).
    rewrite Hx, Hr. reflexivity.
Qed.

Lemma joinStrings_nil ls : joinStrings [] ls = concat ls.
Proof.
  induction ls as [|x r IH]; [reflexivity|].
  destruct r as [|y r]; [cbn; rewrite app_nil_r; reflexivity|].
  change (joinStrings [] (x :: y :: r)) with (x ++ [] ++ joinStrings [] (y :: r)).
  rewrite IH. reflexivity.
Qed.

(** What [extractText] makes of an element. *)
Lemma extractText_element env e :
  extractText env (encodeElement e) = Some (renderElement e, elementImages e).
Proof.
  destruct e as [t|t h|u|k]; cbn [encodeElement extractText];
    repeat (rewrite assoc_hit
            || rewrite assoc_miss
                 by (let H := fresh in intros H; vm_compute in H; discriminate H));
    cbn [assoc].
  - change (isStr (Some (JStr (js "text"))) "text") with true. cbv iota.
    destruct t; reflexivity.
  - change (isStr (Some (JStr (js "a"))) "text") with false.
    change (isStr (Some (JStr (js "a"))) "a") with true. cbv iota.
    destruct t; [destruct h|]; reflexivity.
  - change (isStr (Some (JStr (js "at"))) "text") with false.
    change (isStr (Some (JStr (js "at"))) "a") with false.
    change (isStr (Some (JStr (js "at"))) "at") with true. reflexivity.
  - change (isStr (Some (JStr (js "img"))) "text") with false.
    change (isStr (Some (JStr (js "img"))) "a") with false.
    change (isStr (Some (JStr (js "img"))) "at") with false.
    change (isStr (Some (JStr (js "img"))) "img") with true. cbv iota.
    destruct k; reflexivity.
Qed.

Lemma extractText_line env (l : list element) :
  joinWith [] (extractText env) (map encodeElement l)
  = Some (concat (map renderElement l), flat_map elementImages l).
Proof.
  rewrite (joinWith_all [] (extractText env)
             (fun j => match extractText env j with Some r => r.1 | None => [] end)
             (fun j => match extractText env j with Some r => r.2 | None => [] end)).
  - rewrite joinStrings_nil. f_equal. f_equal.
    + f_equal. rewrite map_map. apply map_ext. intros e.
      rewrite extractText_element. reflexivity.
    + induction l as [|e l IH]; [reflexivity|]. cbn [map flat_map].
      rewrite extractText_element, IH. reflexivity.
  - intros j Hj. apply in_map_iff in Hj as (e & <- & _).
    rewrite extractText_element. reflexivity.
Qed.

Lemma post_lines_keys env (lines : list (list element)) :
  flat_map (fun j => match j with
                     | JArr items =>
                       match joinWith [] (extractText env) items with
                       | Some r => r.2 | None => []
                       end
                     | _ => []
                     end)
    (map (fun l => JArr (map encodeElement l)) lines)
  = flat_map (flat_map elementImages) lines.
Proof.
  induction lines as [|l ls IH]; [reflexivity|]. cbn [map flat_map].
  rewrite extractText_line, IH. reflexivity.
Qed.

(** X19. A rich-text post reads as its title and its lines: for a
    message of type "post" whose content parses to a post (bare, or under one of the
    locales [zh_cn], [zh_tw], [en_us]) made of text, link, mention and
    image elements, the text the handler extracts is the title (when
    there is one) and the lines, each line the concatenation of what its
    elements read as (a text as itself, a link as its text or else its
    address, a mention as nothing, an image as "[圖片]"), joined by line
    feeds and trimmed; and the media path is what [downloadImage]
    returns for the first image key of the post in reading order, or
    [null] when the post has no image. *)
Theorem post_reads_as_title_and_lines env m c (locale : option string) title lines :
  message_type m = Some (js "post") ->
  content m = Some c -> c <> [] ->
  (locale = None \/ locale = Some "zh_cn"%string \/ locale = Some "zh_tw"%string
   \/ locale = Some "en_us"%string) ->
  JSON_parse env c = Some (encodeContent locale (encodePost title lines)) ->
  extractContent env m
  = Some (renderPost title lines,
          match flat_map (flat_map elementImages) lines with
          | k :: _ => downloadImage env (message_id m) k
          | [] => None
          end).
Proof.
  intros Hty Hcontent Hc Hloc Hparse. unfold extractContent. rewrite Hcontent, Hty.
  destruct c as [|c0 c]; [contradiction|].
  change (isLit (Some (js "post")) "text") with false.
  change (isLit (Some (js "post")) "image") with false.
  change (isLit (Some (js "post")) "post") with true. cbv iota. f_equal.
  unfold extractPost. rewrite Hparse.
  assert (Hpost : orElse (prop "zh_cn" (encodeContent locale (encodePost title lines)))
                    (orElse (prop "zh_tw" (encodeContent locale (encodePost title lines)))
                       (orElse (prop "en_us" (encodeContent locale (encodePost title lines)))
                          (encodeContent locale (encodePost title lines))))
                  = encodePost title lines).
  { destruct Hloc as [-> | [-> | [-> | ->]]]; unfold encodeContent, encodePost, prop;
      repeat (rewrite assoc_hit
            || rewrite assoc_miss
                 by (let H := fresh in intros H; vm_compute in H; discriminate H));
    cbn [assoc];
      reflexivity. }
  assert (Hobj : exists fs, encodeContent locale (encodePost title lines) = JObj fs).
  { destruct Hloc as [-> | [-> | [-> | ->]]]; eexists; reflexivity. }
  destruct Hobj as [fs Hfs]. rewrite Hfs in *. cbv zeta. rewrite Hpost.
  unfold encodePost at 1 2. unfold prop.
  repeat (rewrite assoc_hit
            || rewrite assoc_miss
                 by (let H := fresh in intros H; vm_compute in H; discriminate H));
    cbn [assoc].
  change (orElse (Some (JArr (map (fun l => JArr (map encodeElement l)) lines))) (JArr []))
    with (JArr (map (fun l => JArr (map encodeElement l)) lines)).
  cbv iota.
  rewrite (joinWith_all (js (String "010" "")) _
             (fun j => match j with
                       | JArr items =>
                         match joinWith [] (extractText env) items with
                         | Some r => r.1 | None => []
                         end
                       | _ => []
                       end)
             (fun j => match j with
                       | JArr items =>
                         match joinWith [] (extractText env) items with
                         | Some r => r.2 | None => []
                         end
                       | _ => []
                       end)).
  2:{ intros j Hj. apply in_map_iff in Hj as (l & <- & _).
      rewrite extractText_line. reflexivity. }
  rewrite map_map.
  assert (Hbody : map (fun l => match joinWith [] (extractText env) (map encodeElement l) with
                                | Some r => r.1 | None => []
                                end) lines
                  = map (fun l => concat (map renderElement l)) lines).
  { apply map_ext. intros l. rewrite extractText_line. reflexivity. }
  cbn beta. rewrite Hbody, (post_lines_keys env lines). unfold renderPost.
  destruct title as [|x t]; reflexivity.
Qed.

Lemma post_reads_as_title_and_lines_witness :
  extractContent samplePostEnv samplePostMessage
  = Some (js "Report" ++ [10] ++ js "see https://example.com" ++ [10] ++ js "[圖片][圖片]",
          Some (js "/media/img_1.png")).
Proof.
  refine (eq_trans
            (post_reads_as_title_and_lines samplePostEnv samplePostMessage
               samplePostText (Some "zh_cn"%string) (js "Report")
               [[ElAt (js "ou_1"); ElText (js "see "); ElLink [] (js "https://example.com")];
                [ElImg (js "img_1"); ElImg (js "img_2")]] _ _ _ _ _) _).
  - reflexivity.
  - reflexivity.
  - vm_compute. discriminate.
  - right. left. reflexivity.
  - vm_compute. reflexivity.
  - vm_compute. reflexivity.
Defined.
